(** * A limit order book matching engine: model and verification

    Shallow embedding of [orderbook.hpp]: the fixed-capacity order arena
    ([OrderPool]) with its intrusive free list, the dense price ladder of
    [PriceLevel]s with intrusive FIFO queues, one [OrderBookSide] per side
    with its best-price cursor, and the [OrderBook] that routes submissions.

    Conventions of the embedding.
    - [size_t] values are integers in [0, 2^64); arithmetic that can leave
      that range is reduced with [wrap] where the source computes it.
    - An [Order*] is an index into the owning side's pool ([Some h]) or
      [nullptr] ([None]); the pool and the ladder are lists updated by index.
    - An [assert] that fails, a dereference of a null or out-of-range
      reference and an exhausted iteration budget end a computation with an
      [error]; the [while] loops of the matching functions take a [fuel]
      argument that bounds the number of times the loop condition is tested. *)

From Stdlib Require Import ZArith Lia.
From stdpp Require Import base tactics option numbers list.

Local Open Scope Z_scope.

(** ** Constants *)

Definition MAX_ORDERS : nat := 1000.
Definition PRICE_MIN : Z := 800.
Definition PRICE_MAX : Z := 1200.
Definition TICK_SIZE : Z := 1.
Definition NUM_LEVELS : nat :=
  Z.to_nat ((PRICE_MAX - PRICE_MIN) / TICK_SIZE + 1).

(** [size_t] is 64 bits wide. *)
Definition SIZE_MOD : Z := 2 ^ 64.
Definition wrap (z : Z) : Z := z mod SIZE_MOD.
Definition is_size_t (z : Z) : Prop := 0 ≤ z < SIZE_MOD.

(** ** Data *)

Record Order := mkOrder {
  order_id_ : Z;
  price_ : Z;
  quantity_ : Z;
  next_ : option nat
}.

Record Trade := mkTrade {
  taker_order_id : Z;
  maker_order_id : Z;
  price : Z;
  quantity : Z
}.

Record OrderPool := mkOrderPool {
  pool_ : list Order;
  next_free_ : option nat
}.

(** The level's [price_] field is named [level_price_] here, [Order] already
    having a [price_]. *)
Record PriceLevel := mkPriceLevel {
  level_price_ : Z;
  total_quantity_ : Z;
  first_ : option nat;
  last_ : option nat
}.

(** The side's [pool_] member is named [side_pool_] here. *)
Record OrderBookSide := mkOrderBookSide {
  levels_ : list PriceLevel;
  side_pool_ : OrderPool;
  is_bid_ : bool;
  best_price_index_ : nat
}.

Record OrderBook := mkOrderBook {
  bids : OrderBookSide;
  asks : OrderBookSide
}.

(** ** Results of partial computations *)

Inductive error := OutOfFuel | AssertionFailed | InvalidAccess.

Inductive result (A : Type) :=
| Ok (a : A)
| Err (e : error).
Arguments Ok {A} a.
Arguments Err {A} e.

Definition bind {A B} (r : result A) (k : A → result B) : result B :=
  match r with
  | Ok a => k a
  | Err e => Err e
  end.

Notation "'let*' x ':=' e 'in' k" := (bind e (fun x => k))
  (at level 10, x name, e at level 200, k at level 200, only parsing).
Notation "'let*' ' p ':=' e 'in' k" := (bind e (fun p => k))
  (at level 10, p strict pattern, e at level 200, k at level 200, only parsing).

Definition deref {A} (l : list A) (i : nat) : result A :=
  match l !! i with
  | Some a => Ok a
  | None => Err InvalidAccess
  end.

(** ** Field updates *)

Definition set_next (o : Order) (n : option nat) : Order :=
  mkOrder (order_id_ o) (price_ o) (quantity_ o) n.
Definition set_quantity (o : Order) (q : Z) : Order :=
  mkOrder (order_id_ o) (price_ o) q (next_ o).

Definition set_total (l : PriceLevel) (t : Z) : PriceLevel :=
  mkPriceLevel (level_price_ l) t (first_ l) (last_ l).
Definition set_first (l : PriceLevel) (f : option nat) : PriceLevel :=
  mkPriceLevel (level_price_ l) (total_quantity_ l) f (last_ l).
Definition set_last (l : PriceLevel) (f : option nat) : PriceLevel :=
  mkPriceLevel (level_price_ l) (total_quantity_ l) (first_ l) f.

Definition set_levels (s : OrderBookSide) (ls : list PriceLevel) : OrderBookSide :=
  mkOrderBookSide ls (side_pool_ s) (is_bid_ s) (best_price_index_ s).
Definition set_pool (s : OrderBookSide) (p : OrderPool) : OrderBookSide :=
  mkOrderBookSide (levels_ s) p (is_bid_ s) (best_price_index_ s).
Definition set_best (s : OrderBookSide) (i : nat) : OrderBookSide :=
  mkOrderBookSide (levels_ s) (side_pool_ s) (is_bid_ s) i.

(** Writes through an [Order*] or a [PriceLevel&] of a side. *)
Definition store_order (s : OrderBookSide) (h : nat) (o : Order) : OrderBookSide :=
  set_pool s (mkOrderPool (<[h := o]> (pool_ (side_pool_ s)))
                          (next_free_ (side_pool_ s))).
Definition store_level (s : OrderBookSide) (i : nat) (l : PriceLevel) : OrderBookSide :=
  set_levels s (<[i := l]> (levels_ s)).

(** ** OrderPool *)

(** The constructor threads the free list through the slots in index order.
    The other fields of a slot are not initialised by the source and are
    never read before [add_order] writes them; they are 0 here. *)
Definition init_slot (n i : nat) : Order :=
  mkOrder 0 0 0 (if decide (S i < n)%nat then Some (S i) else None).

Definition OrderPool_init : OrderPool :=
  mkOrderPool (init_slot MAX_ORDERS <$> seq 0 MAX_ORDERS) (Some 0%nat).

Definition allocate (p : OrderPool) : result (OrderPool * option nat) :=
  match next_free_ p with
  | None => Ok (p, None)
  | Some h =>
    let* order := deref (pool_ p) h in
    Ok (mkOrderPool (<[h := set_next order None]> (pool_ p)) (next_ order),
        Some h)
  end.

Definition deallocate (p : OrderPool) (h : nat) : result OrderPool :=
  let* order := deref (pool_ p) h in
  Ok (mkOrderPool (<[h := set_next order (next_free_ p)]> (pool_ p)) (Some h)).

(** ** OrderBookSide *)

Definition init_level (i : nat) : PriceLevel :=
  mkPriceLevel (PRICE_MIN + Z.of_nat i * TICK_SIZE) 0 None None.

Definition OrderBookSide_init (is_bid : bool) : OrderBookSide :=
  mkOrderBookSide (init_level <$> seq 0 NUM_LEVELS) OrderPool_init is_bid NUM_LEVELS.

Definition price_to_index (price : Z) : result nat :=
  if (PRICE_MIN <=? price) && (price <=? PRICE_MAX)
  then Ok (Z.to_nat ((price - PRICE_MIN) / TICK_SIZE))
  else Err AssertionFailed.

Definition update_best_bid_after_order (price_idx : nat) (s : OrderBookSide)
  : OrderBookSide :=
  if (best_price_index_ s =? NUM_LEVELS)%nat || (best_price_index_ s <? price_idx)%nat
  then set_best s price_idx else s.

Definition update_best_ask_after_order (price_idx : nat) (s : OrderBookSide)
  : OrderBookSide :=
  if (best_price_index_ s =? NUM_LEVELS)%nat || (price_idx <? best_price_index_ s)%nat
  then set_best s price_idx else s.

(** [for (size_t i = old_idx; i-- > 0; )]: visits [old_idx - 1], ..., [0]. *)
Fixpoint scan_down (ls : list PriceLevel) (i : nat) : result nat :=
  match i with
  | O => Ok NUM_LEVELS
  | S j =>
    let* level := deref ls j in
    if 0 <? total_quantity_ level then Ok j else scan_down ls j
  end.

(** [for (size_t i = old_idx + 1; i < NUM_LEVELS; ++i)]: [n] is the number of
    indices left, [NUM_LEVELS - i]. *)
Fixpoint scan_up (ls : list PriceLevel) (i n : nat) : result nat :=
  match n with
  | O => Ok NUM_LEVELS
  | S n' =>
    let* level := deref ls i in
    if 0 <? total_quantity_ level then Ok i else scan_up ls (S i) n'
  end.

Definition update_best_bid_after_empty (old_idx : nat) (s : OrderBookSide)
  : result OrderBookSide :=
  let* i := scan_down (levels_ s) old_idx in
  Ok (set_best s i).

Definition update_best_ask_after_empty (old_idx : nat) (s : OrderBookSide)
  : result OrderBookSide :=
  let* i := scan_up (levels_ s) (S old_idx) (NUM_LEVELS - S old_idx) in
  Ok (set_best s i).

Definition add_order (s : OrderBookSide) (price quantity id : Z)
  : result (OrderBookSide * option nat) :=
  let* idx := price_to_index price in
  if negb (idx <? NUM_LEVELS)%nat then Err AssertionFailed else
  let* '(pool, r) := allocate (side_pool_ s) in
  match r with
  | None => Ok (s, None)
  | Some order =>
    let s := set_pool s pool in
    let s := store_order s order (mkOrder id price quantity None) in
    let* level := deref (levels_ s) idx in
    let* s :=
      match first_ level with
      | None =>
        Ok (store_level s idx (set_last (set_first level (Some order)) (Some order)))
      | Some _ =>
        match last_ level with
        | None => Err InvalidAccess
        | Some l =>
          let* tail := deref (pool_ (side_pool_ s)) l in
          let s := store_order s l (set_next tail (Some order)) in
          Ok (store_level s idx (set_last level (Some order)))
        end
      end in
    let* level := deref (levels_ s) idx in
    let s := store_level s idx (set_total level (wrap (total_quantity_ level + quantity))) in
    let s := if is_bid_ s then update_best_bid_after_order idx s
             else update_best_ask_after_order idx s in
    Ok (s, Some order)
  end.

(** *** Matching

    [match_buy] and [match_sell] are the same text in the source but for the
    crossing test ([level->price_ <= incoming_price] against [>=]) and for
    the rescan called when the level empties ([update_best_ask_after_empty]
    against [update_best_bid_after_empty]); the section holds that text
    once. [fill_head] is the body of the inner [while] (one trade against
    the head [maker] of the level), [drain_level] the inner [while] over the
    level fixed by the outer iteration, [match_loop] the outer [while]. *)
Section Matching.
Variable crosses : Z → Z → bool.
Variable update_after_empty : nat → OrderBookSide → result OrderBookSide.

Definition fill_head (li : nat) (level : PriceLevel) (m : nat) (s : OrderBookSide)
    (incoming_quantity incoming_id : Z) (trades : list Trade)
  : result (OrderBookSide * Z * list Trade) :=
  let* maker := deref (pool_ (side_pool_ s)) m in
  let trade_quantity := Z.min (quantity_ maker) incoming_quantity in
  let trades :=
    trades ++ [mkTrade incoming_id (order_id_ maker) (price_ maker) trade_quantity] in
  let maker := set_quantity maker (wrap (quantity_ maker - trade_quantity)) in
  let s := store_order s m maker in
  let incoming_quantity := wrap (incoming_quantity - trade_quantity) in
  let level := set_total level (wrap (total_quantity_ level - trade_quantity)) in
  let s := store_level s li level in
  if quantity_ maker =? 0 then
    let level := set_first level (next_ maker) in
    let s := store_level s li level in
    let* s :=
      match first_ level with
      | None =>
        let s := store_level s li (set_last level None) in
        update_after_empty (best_price_index_ s) s
      | Some _ => Ok s
      end in
    let* pool := deallocate (side_pool_ s) m in
    Ok (set_pool s pool, incoming_quantity, trades)
  else
    Ok (s, incoming_quantity, trades).

Fixpoint drain_level (fuel : nat) (li : nat) (s : OrderBookSide)
    (incoming_quantity incoming_id : Z) (trades : list Trade)
  : result (OrderBookSide * Z * list Trade) :=
  match fuel with
  | O => Err OutOfFuel
  | S fuel' =>
    if negb (0 <? incoming_quantity) then Ok (s, incoming_quantity, trades) else
    let* level := deref (levels_ s) li in
    match first_ level with
    | None => Ok (s, incoming_quantity, trades)
    | Some m =>
      let* '(s, incoming_quantity, trades) :=
        fill_head li level m s incoming_quantity incoming_id trades in
      drain_level fuel' li s incoming_quantity incoming_id trades
    end
  end.

Fixpoint match_loop (fuel : nat) (s : OrderBookSide)
    (incoming_price incoming_quantity incoming_id : Z) (trades : list Trade)
  : result (OrderBookSide * Z * list Trade) :=
  match fuel with
  | O => Err OutOfFuel
  | S fuel' =>
    if negb (0 <? incoming_quantity) then Ok (s, incoming_quantity, trades) else
    if (best_price_index_ s =? NUM_LEVELS)%nat then Ok (s, incoming_quantity, trades) else
    let* level := deref (levels_ s) (best_price_index_ s) in
    if negb (crosses (level_price_ level) incoming_price)
    then Ok (s, incoming_quantity, trades) else
    let* '(s, incoming_quantity, trades) :=
      drain_level fuel (best_price_index_ s) s incoming_quantity incoming_id trades in
    match_loop fuel' s incoming_price incoming_quantity incoming_id trades
  end.
End Matching.

Definition match_buy := match_loop (fun level_price incoming_price => level_price <=? incoming_price)
                                   update_best_ask_after_empty.
Definition match_sell := match_loop (fun level_price incoming_price => level_price >=? incoming_price)
                                    update_best_bid_after_empty.

(** ** OrderBook *)

Definition OrderBook_init : OrderBook :=
  mkOrderBook (OrderBookSide_init true) (OrderBookSide_init false).

Definition submit_order (fuel : nat) (b : OrderBook) (price quantity id : Z)
    (is_bid : bool) (trades : list Trade) : result (OrderBook * list Trade) :=
  let trades : list Trade := [] in
  if quantity =? 0 then Ok (b, trades) else
  if is_bid then
    let* '(asks', remaining, trades) := match_buy fuel (asks b) price quantity id trades in
    if 0 <? remaining then
      let* '(bids', _) := add_order (bids b) price remaining id in
      Ok (mkOrderBook bids' asks', trades)
    else Ok (mkOrderBook (bids b) asks', trades)
  else
    let* '(bids', remaining, trades) := match_sell fuel (bids b) price quantity id trades in
    if 0 <? remaining then
      let* '(asks', _) := add_order (asks b) price remaining id in
      Ok (mkOrderBook bids' asks', trades)
    else Ok (mkOrderBook bids' (asks b), trades).

(** ** Observations of a book *)

(** The handles reached from [h] along [next_], at most [n] of them. *)
Fixpoint walk (pool : list Order) (n : nat) (h : option nat) : list nat :=
  match n, h with
  | S n', Some i =>
    match pool !! i with
    | Some o => i :: walk pool n' (next_ o)
    | None => []
    end
  | _, _ => []
  end.

(** The FIFO queue of level [i], oldest order first. *)
Definition level_queue (s : OrderBookSide) (i : nat) : list Order :=
  match levels_ s !! i with
  | Some l =>
    omap (λ h, pool_ (side_pool_ s) !! h)
         (walk (pool_ (side_pool_ s)) (length (pool_ (side_pool_ s))) (first_ l))
  | None => []
  end.

Definition sum_quantities (q : list Order) : Z :=
  foldr (λ o acc, quantity_ o + acc) 0 q.

Definition sum_trades (ts : list Trade) : Z :=
  foldr (λ t acc, quantity t + acc) 0 ts.

(** The quantity resting on a side: all queues of all levels. *)
Definition resting_quantity (s : OrderBookSide) : Z :=
  foldr (λ i acc, sum_quantities (level_queue s i) + acc) 0
        (seq 0 (length (levels_ s))).

(** Price and aggregate quantity of the levels whose aggregate is not 0, in
    index order (what [print_side] lists). *)
Definition depth (s : OrderBookSide) : list (Z * Z) :=
  omap (λ l, if total_quantity_ l =? 0 then None
             else Some (level_price_ l, total_quantity_ l)) (levels_ s).

(** What a caller can tell about a resting order: identifier, price and
    remaining quantity (the link to the next order is internal). *)
Definition order_view (o : Order) : Z * Z * Z :=
  (order_id_ o, price_ o, quantity_ o).

Definition queue_view (s : OrderBookSide) (i : nat) : list (Z * Z * Z) :=
  order_view <$> level_queue s i.

(** The queue of level [li] is empty. *)
Definition level_empty (s : OrderBookSide) (li : nat) : Prop :=
  ∃ level, levels_ s !! li = Some level ∧ first_ level = None.

(** The arena of a side has no free slot. *)
Definition exhausted (s : OrderBookSide) : Prop := next_free_ (side_pool_ s) = None.

(** The price of level [i] of the ladder. *)
Definition level_price_of (i : nat) : Z := PRICE_MIN + Z.of_nat i * TICK_SIZE.

(** A fuel that covers the arena: at most [MAX_ORDERS] orders can leave a
    side in one call, and every iteration of a matching loop but the last
    two removes one. *)
Definition FUEL : nat := S (S MAX_ORDERS).

(** ** Submissions, by side

    [submit_order] has one branch per side; these definitions name the side
    an order rests on, the side it is matched against and the matching call
    of its branch. *)
Definition own_side (is_bid : bool) (b : OrderBook) : OrderBookSide :=
  if is_bid then bids b else asks b.

Definition opposite_side (is_bid : bool) (b : OrderBook) : OrderBookSide :=
  if is_bid then asks b else bids b.

Definition with_sides (is_bid : bool) (own opp : OrderBookSide) : OrderBook :=
  if is_bid then mkOrderBook own opp else mkOrderBook opp own.

(** The matching function of the branch [is_bid], on a side. *)
Definition match_side (is_bid : bool) (fuel : nat) (s : OrderBookSide)
    (price quantity id : Z) (trades : list Trade)
  : result (OrderBookSide * Z * list Trade) :=
  if is_bid then match_buy fuel s price quantity id trades
  else match_sell fuel s price quantity id trades.

Definition match_opposite (fuel : nat) (is_bid : bool) (b : OrderBook)
    (price quantity id : Z) (trades : list Trade)
  : result (OrderBookSide * Z * list Trade) :=
  if is_bid then match_buy fuel (asks b) price quantity id trades
  else match_sell fuel (bids b) price quantity id trades.

(** The crossing test of the branch: a resting ask at or below an incoming
    bid, a resting bid at or above an incoming ask. *)
Definition crossing (is_bid : bool) (level_price incoming_price : Z) : bool :=
  if is_bid then level_price <=? incoming_price else level_price >=? incoming_price.

(** The rescan that follows the depletion of the best level of a side:
    downwards for the bid side, upwards for the ask side. *)
Definition rescan (dir : bool) : nat → OrderBookSide → result OrderBookSide :=
  if dir then update_best_bid_after_empty else update_best_ask_after_empty.

(** The cursor that [update_best_bid_after_order] ([dir] is [true]) or
    [update_best_ask_after_order] leaves, from the cursor [c] before. *)
Definition new_best (dir : bool) (idx c : nat) : nat :=
  if dir
  then (if (c =? NUM_LEVELS)%nat || (c <? idx)%nat then idx else c)
  else (if (c =? NUM_LEVELS)%nat || (idx <? c)%nat then idx else c).

(** The quantity a submission adds to the submitter's own side. *)
Definition newly_rested (is_bid : bool) (b b' : OrderBook) : Z :=
  resting_quantity (own_side is_bid b') - resting_quantity (own_side is_bid b).

(** ** Representation invariant

    The pointer structure of a side is described by ghost lists of handles:
    [qs !! i] is the FIFO queue of level [i], oldest first, and [fl] is the
    free list of the arena. *)

(** [chain pool h l]: following [next_] from [h] visits exactly the handles
    [l] and ends in [nullptr]. *)
Inductive chain (pool : list Order) : option nat → list nat → Prop :=
| chain_nil : chain pool None []
| chain_cons h o l :
    pool !! h = Some o → chain pool (next_ o) l → chain pool (Some h) (h :: l).

Definition orders_at (pool : list Order) (q : list nat) : list Order :=
  omap (λ h, pool !! h) q.

Definition order_ok (pool : list Order) (i h : nat) : Prop :=
  ∃ o, pool !! h = Some o ∧ 1 ≤ quantity_ o < SIZE_MOD ∧ price_ o = level_price_of i.

Record level_ok (pool : list Order) (i : nat) (lv : PriceLevel) (q : list nat) : Prop := {
  lv_price : level_price_ lv = level_price_of i;
  lv_chain : chain pool (first_ lv) q;
  lv_last : last_ lv = last q;
  lv_total : total_quantity_ lv = wrap (sum_quantities (orders_at pool q));
  lv_orders : Forall (order_ok pool i) q
}.

(** Level [i] is strictly better than level [c]: higher for bids ([dir] is
    [true]), lower for asks. *)
Definition better (dir : bool) (i c : nat) : Prop :=
  if dir then (c < i)%nat else (i < c)%nat.

#[global] Instance better_dec dir i c : Decision (better dir i c) :=
  match dir return Decision (better dir i c) with
  | true => decide (c < i)%nat
  | false => decide (i < c)%nat
  end.

Definition all_totals_zero (ls : list PriceLevel) : Prop :=
  ∀ i lv, ls !! i = Some lv → total_quantity_ lv = 0.

Definition better_totals_zero (dir : bool) (ls : list PriceLevel) (c : nat) : Prop :=
  ∀ i lv, better dir i c → ls !! i = Some lv → total_quantity_ lv = 0.

Definition cursor_ok (dir : bool) (qs : list (list nat)) (ls : list PriceLevel)
    (c : nat) : Prop :=
  (c = NUM_LEVELS ∧ all_totals_zero ls)
  ∨ ((c < NUM_LEVELS)%nat ∧ (∃ q, qs !! c = Some q ∧ q ≠ [])
     ∧ better_totals_zero dir ls c).

Record side_inv (qs : list (list nat)) (fl : list nat) (s : OrderBookSide) : Prop := {
  inv_levels : length (levels_ s) = NUM_LEVELS;
  inv_queues : length qs = NUM_LEVELS;
  inv_pool : length (pool_ (side_pool_ s)) = MAX_ORDERS;
  inv_free : chain (pool_ (side_pool_ s)) (next_free_ (side_pool_ s)) fl;
  inv_level : ∀ i lv q, levels_ s !! i = Some lv → qs !! i = Some q →
                        level_ok (pool_ (side_pool_ s)) i lv q;
  inv_perm : fl ++ mjoin qs ≡ₚ seq 0 MAX_ORDERS;
  inv_cursor : cursor_ok (is_bid_ s) qs (levels_ s) (best_price_index_ s)
}.

Definition side_wf (s : OrderBookSide) : Prop := ∃ qs fl, side_inv qs fl s.

Definition book_wf (b : OrderBook) : Prop :=
  side_wf (bids b) ∧ is_bid_ (bids b) = true ∧
  side_wf (asks b) ∧ is_bid_ (asks b) = false.

(** The books a caller can observe: the empty book and what a returning
    [submit_order] leaves. *)
Inductive reachable : OrderBook → Prop :=
| reachable_init : reachable OrderBook_init
| reachable_submit fuel b price quantity id is_bid trades0 b' trades :
    reachable b →
    is_size_t price → is_size_t quantity → is_size_t id →
    submit_order fuel b price quantity id is_bid trades0 = Ok (b', trades) →
    reachable b'.

(** [o] is an order resting at level [i] of [s], or what is left of one
    after partial fills: same identifier and price, no more quantity. *)
Definition rested_as (s : OrderBookSide) (i : nat) (o : Order) : Prop :=
  ∃ o0, o0 ∈ level_queue s i ∧ order_id_ o0 = order_id_ o ∧
        price_ o0 = price_ o ∧ quantity_ o ≤ quantity_ o0.

(** A trade of taker [id], submitted at price [p], against an order that
    rested on [s] when the call started: the trade carries the resting
    order's identifier and price, that price crosses [p], and the quantity
    is positive and within the resting quantity. *)
Definition trade_against (crosses : Z → Z → bool) (s : OrderBookSide) (p id : Z)
    (t : Trade) : Prop :=
  taker_order_id t = id ∧ 1 ≤ quantity t ∧ crosses (price t) p = true ∧
  ∃ i o, o ∈ level_queue s i ∧ order_id_ o = maker_order_id t ∧
         price_ o = price t ∧ quantity t ≤ quantity_ o.

(** ** Runs from the empty book *)

Definition run_submit (fuel : nat) (r : result (OrderBook * list Trade))
    (order : Z * Z * Z * bool) : result (OrderBook * list Trade) :=
  let* '(b, _) := r in
  let '(price, quantity, id, is_bid) := order in
  submit_order fuel b price quantity id is_bid [].

Definition valid_order (order : Z * Z * Z * bool) : bool :=
  let '(price, quantity, id, _) := order in
  (0 <=? price) && (price <? SIZE_MOD) && (0 <=? quantity) && (quantity <? SIZE_MOD)
  && (0 <=? id) && (id <? SIZE_MOD).

(** The book after the submissions [orders] (price, quantity, identifier,
    side), in order, from the empty book. *)
Definition run (orders : list (Z * Z * Z * bool)) : result (OrderBook * list Trade) :=
  foldl (run_submit FUEL) (Ok (OrderBook_init, [])) orders.

Definition book_of (orders : list (Z * Z * Z * bool)) : OrderBook :=
  match run orders with
  | Ok (b, _) => b
  | Err _ => OrderBook_init
  end.

(** [n] bids of quantity 1 at 900, identifiers 0 to [n - 1]. *)
Definition fill_orders (n : nat) : list (Z * Z * Z * bool) :=
  (λ i, (900, 1, Z.of_nat i, true)) <$> seq 0 n.

(** The bid arena filled to capacity, and one ask of 5 resting at 950. *)
Definition full_orders : list (Z * Z * Z * bool) :=
  fill_orders MAX_ORDERS ++ [(950, 5, 1000, false)].

(** Two bids at 900 whose quantities add up to [2^64]. *)
Definition overflow_orders : list (Z * Z * Z * bool) :=
  [(900, SIZE_MOD - 1, 0, true); (900, 1, 1, true)].

(** A bid at 850, the two bids of [overflow_orders], then a bid at 901 that
    an ask at 901 fills. *)
Definition hidden_orders : list (Z * Z * Z * bool) :=
  [(850, 1, 0, true); (900, SIZE_MOD - 1, 1, true); (900, 1, 2, true);
   (901, 1, 3, true); (901, 1, 4, false)].

(** The scenario of [order_test], first three submissions. *)
Definition scenario_orders : list (Z * Z * Z * bool) :=
  [(900, 20, 0, true); (901, 10, 1, true); (900, 15, 2, false)].

(** Two bids resting at 900, of 5 (identifier 0) then 7 (identifier 1). *)
Definition queue_orders : list (Z * Z * Z * bool) :=
  [(900, 5, 0, true); (900, 7, 1, true)].

(** ** Statements about a book *)

(** Conservation as a submission either rests or trades every unit: the
    incoming quantity is the traded quantity plus the newly rested one. *)
Definition conservation (fuel : nat) (b : OrderBook) (p q id : Z) (is_bid : bool)
  : Prop :=
  ∀ ts0 b' ts,
    submit_order fuel b p q id is_bid ts0 = Ok (b', ts) →
    q = sum_trades ts + newly_rested is_bid b b'.

(** [c] is the best level with a non-zero aggregate quantity. *)
Definition is_true_best (dir : bool) (ls : list PriceLevel) (c : nat) : Prop :=
  (c < NUM_LEVELS)%nat ∧ (∃ lv, ls !! c = Some lv ∧ total_quantity_ lv ≠ 0) ∧
  better_totals_zero dir ls c.

(** The cursor is the sentinel over an all-zero ladder, or the true best
    level. *)
Definition cursor_exact (dir : bool) (s : OrderBookSide) : Prop :=
  (best_price_index_ s = NUM_LEVELS ∧ all_totals_zero (levels_ s))
  ∨ is_true_best dir (levels_ s) (best_price_index_ s).

(** The same with a level taken as non-empty when its queue is: the cursor
    is on a queue that is not empty, and every better level has an empty
    queue. *)
Definition cursor_exact_queue (dir : bool) (s : OrderBookSide) : Prop :=
  (best_price_index_ s = NUM_LEVELS ∧ all_totals_zero (levels_ s))
  ∨ ((best_price_index_ s < NUM_LEVELS)%nat ∧
     level_queue s (best_price_index_ s) ≠ [] ∧
     ∀ i, better dir i (best_price_index_ s) → level_queue s i = []).

(** The cursor is the sentinel over an all-zero ladder, or a level with a
    queue that is not empty and nothing but zero aggregates at better
    prices. *)
Definition cursor_queued (dir : bool) (s : OrderBookSide) : Prop :=
  (best_price_index_ s = NUM_LEVELS ∧ all_totals_zero (levels_ s))
  ∨ ((best_price_index_ s < NUM_LEVELS)%nat ∧
     level_queue s (best_price_index_ s) ≠ [] ∧
     better_totals_zero dir (levels_ s) (best_price_index_ s)).

(** The aggregate of a level is the sum of its queue, and is zero exactly
    when the queue is empty. *)
Definition aggregate_exact (s : OrderBookSide) (i : nat) (lv : PriceLevel) : Prop :=
  total_quantity_ lv = sum_quantities (level_queue s i) ∧
  (total_quantity_ lv = 0 ↔ first_ lv = None).

(** The same up to the width of [size_t]. *)
Definition aggregate_wrapped (s : OrderBookSide) (i : nat) (lv : PriceLevel) : Prop :=
  total_quantity_ lv = wrap (sum_quantities (level_queue s i)) ∧
  (first_ lv = None ↔ level_queue s i = []) ∧
  (first_ lv = None → total_quantity_ lv = 0).

(** A trade of a submission at price [p] on side [is_bid]: it carries the
    identifier and the price of an order resting on the opposite side, and
    that price is within the limit [p]. *)
Definition maker_priced (is_bid : bool) (b : OrderBook) (p : Z) (t : Trade) : Prop :=
  (∃ i o, o ∈ level_queue (opposite_side is_bid b) i ∧
          order_id_ o = maker_order_id t ∧ price_ o = price t) ∧
  (if is_bid then price t ≤ p else p ≤ price t).

(** [q1] is what is left of the queue [q0] once orders were consumed from
    its head only: a suffix of [q0], whose first order may be filled in
    part. *)
Definition consumed_from_head (q0 q1 : list Order) : Prop :=
  ∃ k, q1 = drop k q0
       ∨ ∃ o rest left, drop k q0 = o :: rest ∧ 1 ≤ left < quantity_ o ∧
                        q1 = set_quantity o left :: rest.

(** [P], a property of the state of a matching loop (side, incoming
    quantity left, trades so far), is kept by one trade against the head of
    level [li] while [li] is the best level of a well-formed side. *)
Definition step_ok (dir : bool) (id : Z) (P : OrderBookSide → Z → list Trade → Prop)
    (li : nat) : Prop :=
  ∀ s q ts level m s' q' ts',
    side_wf s → is_bid_ s = dir → best_price_index_ s = li →
    0 < q < SIZE_MOD →
    levels_ s !! li = Some level → first_ level = Some m →
    P s q ts →
    fill_head (rescan dir) li level m s q id ts = Ok (s', q', ts') →
    P s' q' ts'.

(** ** Further statements about a book *)

(** The book is not crossed: where both cursors are on a level, the price of
    the best bid level is strictly below the price of the best ask level. *)
Definition uncrossed (b : OrderBook) : Prop :=
  ∀ lb la,
    levels_ (bids b) !! best_price_index_ (bids b) = Some lb →
    levels_ (asks b) !! best_price_index_ (asks b) = Some la →
    level_price_ lb < level_price_ la.

(** Prices in the order a matching call meets them: rising for an incoming
    bid (asks are consumed from the lowest level up), falling for an
    incoming ask. *)
Definition price_order (is_bid : bool) (a b : Z) : Prop :=
  if is_bid then a ≤ b else b ≤ a.

(** The trades [ts] are in price order: no trade is at a better price for
    the taker than an earlier one. *)
Definition trades_in_price_order (is_bid : bool) (ts : list Trade) : Prop :=
  ∀ i j ti tj, (i ≤ j)%nat → ts !! i = Some ti → ts !! j = Some tj →
               price_order is_bid (price ti) (price tj).

(** The free slots of the arena of a side, in the order [allocate] hands
    them out, and the orders resting on the side, level by level. *)
Definition free_slots (s : OrderBookSide) : list nat :=
  walk (pool_ (side_pool_ s)) (length (pool_ (side_pool_ s)))
       (next_free_ (side_pool_ s)).

Definition resting_orders (s : OrderBookSide) : list Order :=
  mjoin (level_queue s <$> seq 0 (length (levels_ s))).

(** Every order resting on [s] has a remaining quantity of at most [Q]. *)
Definition quantities_within (Q : Z) (s : OrderBookSide) : Prop :=
  ∀ i o, o ∈ level_queue s i → quantity_ o ≤ Q.

(** The books reached by submissions of at most [Q] units each (the driver's
    [performance_test] submits between 1 and 10). *)
Inductive reachable_within (Q : Z) : OrderBook → Prop :=
| within_init : reachable_within Q OrderBook_init
| within_submit fuel b price quantity id is_bid trades0 b' trades :
    reachable_within Q b →
    is_size_t price → is_size_t quantity → is_size_t id → quantity ≤ Q →
    submit_order fuel b price quantity id is_bid trades0 = Ok (b', trades) →
    reachable_within Q b'.

(** A submission of at most [Q] units at a price of the ladder. *)
Definition flow_order (Q : Z) (order : Z * Z * Z * bool) : bool :=
  let '(price, quantity, _, _) := order in
  valid_order order && (quantity <=? Q) && (PRICE_MIN <=? price) && (price <=? PRICE_MAX).

(** A bid of 20 resting at 900 and an ask of 5 resting at 950. *)
Definition two_sided_orders : list (Z * Z * Z * bool) :=
  [(900, 20, 0, true); (950, 5, 1, false)].

(** In-range prices, as [price_to_index] asserts them. *)
Definition price_in_range (p : Z) : Prop := PRICE_MIN ≤ p ≤ PRICE_MAX.

(** The best level of the side opposite to an incoming order is missing or
    does not cross the incoming price. *)
Definition nothing_crosses (is_bid : bool) (b : OrderBook) (p : Z) : Prop :=
  best_price_index_ (opposite_side is_bid b) = NUM_LEVELS
  ∨ ∃ level,
      levels_ (opposite_side is_bid b) !! best_price_index_ (opposite_side is_bid b)
        = Some level
      ∧ crossing is_bid (level_price_ level) p = false.

(** The trade [t] takes the whole quantity of an order resting on [s]. *)
Definition full_fill (s : OrderBookSide) (t : Trade) : Prop :=
  ∃ i o, o ∈ level_queue s i ∧ order_id_ o = maker_order_id t ∧
         price_ o = price t ∧ quantity_ o = quantity t.

(** ** Printing

    [print_side] writes one line per level with a non-zero aggregate, in
    index order: the price of the level, then identifier and quantity of
    each order reached from [first_]. The output is kept as data, a line
    being a price and the listed orders; the [while (cur)] loop takes fuel. *)
Fixpoint print_orders (fuel : nat) (pool : list Order) (cur : option nat)
  : result (list (Z * Z)) :=
  match cur with
  | None => Ok []
  | Some h =>
    match fuel with
    | O => Err OutOfFuel
    | S fuel' =>
      let* o := deref pool h in
      let* rest := print_orders fuel' pool (next_ o) in
      Ok ((order_id_ o, quantity_ o) :: rest)
    end
  end.

(** [for (size_t i = 0; i < NUM_LEVELS; ++i)]: [n] is the number of indices
    left. *)
Fixpoint print_levels (fuel : nat) (s : OrderBookSide) (i n : nat)
  : result (list (Z * list (Z * Z))) :=
  match n with
  | O => Ok []
  | S n' =>
    let* level := deref (levels_ s) i in
    if total_quantity_ level =? 0 then print_levels fuel s (S i) n' else
    let* os := print_orders fuel (pool_ (side_pool_ s)) (first_ level) in
    let* rest := print_levels fuel s (S i) n' in
    Ok ((level_price_ level, os) :: rest)
  end.

Definition print_side (fuel : nat) (s : OrderBookSide)
  : result (list (Z * list (Z * Z))) :=
  print_levels fuel s 0 NUM_LEVELS.

Definition print_book (fuel : nat) (b : OrderBook)
  : result (list (Z * list (Z * Z)) * list (Z * list (Z * Z))) :=
  let* bid_lines := print_side fuel (bids b) in
  let* ask_lines := print_side fuel (asks b) in
  Ok (bid_lines, ask_lines).

(** What a line of [print_side] shows of an order. *)
Definition order_line (o : Order) : Z * Z := (order_id_ o, quantity_ o).

(** The lines are in strictly increasing price order. *)
Definition increasing_prices (lines : list (Z * list (Z * Z))) : Prop :=
  ∀ j1 j2 l1 l2, (j1 < j2)%nat → lines !! j1 = Some l1 → lines !! j2 = Some l2 →
                 l1.1 < l2.1.

(** [lines] lists the levels of [s] with a non-zero aggregate, each with its
    price and its whole queue, oldest order first, by increasing price. *)
Definition lists_levels (s : OrderBookSide) (lines : list (Z * list (Z * Z))) : Prop :=
  (∀ line, line ∈ lines ↔
     ∃ i level, levels_ s !! i = Some level ∧ total_quantity_ level ≠ 0 ∧
                level_queue s i ≠ [] ∧
                line = (level_price_of i, order_line <$> level_queue s i)) ∧
  increasing_prices lines.

(** * Basic facts *)

Lemma wrap_small z : 0 ≤ z < SIZE_MOD → wrap z = z.
Proof. intros. unfold wrap. by apply Z.mod_small. Qed.

Lemma wrap_range z : 0 ≤ wrap z < SIZE_MOD.
Proof. unfold wrap. apply Z.mod_pos_bound. by unfold SIZE_MOD. Qed.

Lemma bind_Ok {A B} (r : result A) (k : A → result B) b :
  bind r k = Ok b ↔ ∃ a, r = Ok a ∧ k a = Ok b.
Proof.
  destruct r as [a|e]; simpl; split.
  - eauto.
  - by intros (? & [= <-] & ?).
  - done.
  - by intros (? & ? & ?).
Qed.

Lemma deref_Ok {A} (l : list A) i a : deref l i = Ok a ↔ l !! i = Some a.
Proof. unfold deref. destruct (l !! i); split; congruence. Qed.

(** ** Chains *)

Lemma chain_det pool h l1 l2 : chain pool h l1 → chain pool h l2 → l1 = l2.
Proof.
  intros H1. revert l2. induction H1 as [|h o l Ho _ IH]; intros l2 H2.
  - by inversion H2.
  - inversion H2 as [|h' o' l' Ho' Hc]; subst.
    rewrite Ho in Ho'. injection Ho' as <-. f_equal. by apply IH.
Qed.

Lemma chain_Some_inv pool h l :
  chain pool (Some h) l →
  ∃ o l', l = h :: l' ∧ pool !! h = Some o ∧ chain pool (next_ o) l'.
Proof. inversion 1; subst. eauto. Qed.

Lemma chain_cons_inv pool h x l :
  chain pool h (x :: l) →
  h = Some x ∧ ∃ o, pool !! x = Some o ∧ chain pool (next_ o) l.
Proof. inversion 1; subst. eauto. Qed.

Lemma chain_None_inv pool l : chain pool None l → l = [].
Proof. by inversion 1. Qed.

Lemma chain_nil_inv pool h : chain pool h [] → h = None.
Proof. by inversion 1. Qed.

Lemma chain_first pool h l : chain pool h l → h = head l.
Proof. by destruct 1. Qed.

Lemma chain_bound pool h l x : chain pool h l → x ∈ l → (x < length pool)%nat.
Proof.
  induction 1 as [|h o l Ho _ IH]; intros Hx.
  - by apply elem_of_nil in Hx.
  - apply elem_of_cons in Hx as [->|Hx]; [by eapply lookup_lt_Some|by apply IH].
Qed.

(** A chain only depends on the [next_] fields of its own nodes. *)
Lemma chain_frame pool pool' h l :
  chain pool h l →
  (∀ x o, x ∈ l → pool !! x = Some o →
          ∃ o', pool' !! x = Some o' ∧ next_ o' = next_ o) →
  chain pool' h l.
Proof.
  induction 1 as [|h o l Ho _ IH]; intros Hf; [constructor|].
  destruct (Hf h o) as (o' & Ho' & Hn); [by left|done|].
  econstructor; [done|]. rewrite Hn. apply IH.
  intros x ox Hx. apply Hf. by right.
Qed.

Lemma chain_insert_notin pool h l x o :
  chain pool h l → x ∉ l → chain (<[x := o]> pool) h l.
Proof.
  intros Hc Hx. eapply chain_frame; [done|].
  intros y oy Hy Hl. exists oy. split; [|done].
  rewrite list_lookup_insert_ne; [done|]. by intros ->.
Qed.

Lemma chain_insert_next pool h l x o o' :
  chain pool h l → pool !! x = Some o → next_ o' = next_ o →
  chain (<[x := o']> pool) h l.
Proof.
  intros Hc Ho Hn. eapply chain_frame; [done|].
  intros y oy Hy Hl. destruct (decide (x = y)) as [->|Hne].
  - exists o'. rewrite list_lookup_insert_eq by (by eapply lookup_lt_Some).
    split; congruence.
  - exists oy. by rewrite list_lookup_insert_ne.
Qed.

(** Linking a fresh node after the tail of a chain. *)
Lemma chain_snoc pool pool' h l t x :
  chain pool h l → last l = Some t → NoDup l → x ∉ l →
  (∀ y o, y ∈ l → y ≠ t → pool !! y = Some o →
          ∃ o', pool' !! y = Some o' ∧ next_ o' = next_ o) →
  (∃ ot, pool' !! t = Some ot ∧ next_ ot = Some x) →
  (∃ ox, pool' !! x = Some ox ∧ next_ ox = None) →
  chain pool' h (l ++ [x]).
Proof.
  intros Hc. revert t. induction Hc as [|h o l Ho Hc IH];
    intros t Hlast Hnd Hx Hf (ot & Hot & Hnt) (ox & Hox & Hnx); [done|].
  apply NoDup_cons in Hnd as [Hh Hnd].
  apply not_elem_of_cons in Hx as [Hxh Hx].
  destruct l as [|h2 l].
  - simpl in Hlast. injection Hlast as <-.
    apply chain_nil_inv in Hc. simpl.
    econstructor; [done|]. rewrite Hnt.
    econstructor; [done|]. rewrite Hnx. constructor.
  - rewrite last_cons_cons in Hlast.
    assert (h ≠ t) as Hne.
    { intros ->. apply Hh. apply last_Some_elem_of in Hlast. done. }
    destruct (Hf h o) as (o' & Ho' & Hn); [by left|done|done|].
    simpl. econstructor; [done|]. rewrite Hn.
    eapply (IH t); eauto.
    intros y oy Hy. apply Hf. by right.
Qed.

Lemma walk_chain pool h l n :
  chain pool h l → (length l ≤ n)%nat → walk pool n h = l.
Proof.
  intros Hc. revert n. induction Hc as [|h o l Ho _ IH]; intros n Hn.
  - by destruct n.
  - destruct n as [|n]; simpl in *; [lia|].
    rewrite Ho. f_equal. apply IH. lia.
Qed.

(** ** Orders behind a list of handles *)

Lemma orders_at_cons pool h q o :
  pool !! h = Some o → orders_at pool (h :: q) = o :: orders_at pool q.
Proof. intros Ho. unfold orders_at. simpl. by rewrite Ho. Qed.

Lemma sum_quantities_app q1 q2 :
  sum_quantities (q1 ++ q2) = sum_quantities q1 + sum_quantities q2.
Proof. induction q1 as [|o q1 IH]; simpl; [done|]. rewrite IH. lia. Qed.

Lemma orders_at_app pool q1 q2 :
  orders_at pool (q1 ++ q2) = orders_at pool q1 ++ orders_at pool q2.
Proof. apply omap_app. Qed.

Lemma orders_at_frame pool pool' q :
  (∀ x, x ∈ q → pool' !! x = pool !! x) → orders_at pool' q = orders_at pool q.
Proof.
  induction q as [|h q IH]; intros Hf; [done|].
  change (orders_at pool' (h :: q)) with
    (match pool' !! h with Some o => o :: orders_at pool' q | None => orders_at pool' q end).
  change (orders_at pool (h :: q)) with
    (match pool !! h with Some o => o :: orders_at pool q | None => orders_at pool q end).
  rewrite (Hf h) by (by left).
  rewrite IH; [done|]. intros x Hx. apply Hf. by right.
Qed.

(** The sum of the quantities only depends on the [quantity_] fields. *)
Lemma sum_at_frame pool pool' q :
  (∀ x o, x ∈ q → pool !! x = Some o →
          ∃ o', pool' !! x = Some o' ∧ quantity_ o' = quantity_ o) →
  Forall (λ x, is_Some (pool !! x)) q →
  sum_quantities (orders_at pool' q) = sum_quantities (orders_at pool q).
Proof.
  induction q as [|h q IH]; intros Hf Hall; [done|].
  apply Forall_cons in Hall as [[o Ho] Hall].
  destruct (Hf h o) as (o' & Ho' & Hq); [by left|done|].
  rewrite (orders_at_cons _ _ _ _ Ho), (orders_at_cons _ _ _ _ Ho'). simpl.
  rewrite Hq, IH; [done| |done]. intros x ox Hx. apply Hf. by right.
Qed.

Lemma order_ok_is_Some pool i q :
  Forall (order_ok pool i) q → Forall (λ x, is_Some (pool !! x)) q.
Proof. intros H. eapply Forall_impl; [done|]. intros x (o & Ho & _). eauto. Qed.

Lemma sum_quantities_pos pool i q :
  Forall (order_ok pool i) q → q ≠ [] → 0 < sum_quantities (orders_at pool q).
Proof.
  induction 1 as [|h q (o & Ho & Hq & _) Hall IH]; intros Hne; [done|].
  rewrite (orders_at_cons _ _ _ _ Ho). simpl.
  destruct q as [|h' q]; [simpl; lia|].
  assert (0 < sum_quantities (orders_at pool (h' :: q))) by (by apply IH). lia.
Qed.

Lemma sum_quantities_nonneg pool i q :
  Forall (order_ok pool i) q → 0 ≤ sum_quantities (orders_at pool q).
Proof.
  intros Hall. destruct q as [|h q]; [done|].
  assert (0 < sum_quantities (orders_at pool (h :: q)));
    [by eapply sum_quantities_pos|lia].
Qed.

(** ** Queues of all levels *)

Lemma join_lookup_split (qs : list (list nat)) i q :
  qs !! i = Some q →
  mjoin qs = mjoin (take i qs) ++ q ++ mjoin (drop (S i) qs).
Proof.
  intros Hq. rewrite <-(take_drop_middle qs i q Hq) at 1.
  by rewrite join_app.
Qed.

Lemma join_insert_split (qs : list (list nat)) i q q' :
  qs !! i = Some q →
  mjoin (<[i := q']> qs) = mjoin (take i qs) ++ q' ++ mjoin (drop (S i) qs).
Proof.
  intros Hq. rewrite insert_take_drop by (by eapply lookup_lt_Some).
  by rewrite join_app.
Qed.

Lemma join_elem_other (qs : list (list nat)) i j q x :
  qs !! j = Some q → x ∈ q → i ≠ j →
  x ∈ mjoin (take i qs) ++ mjoin (drop (S i) qs).
Proof.
  intros Hq Hx Hne. apply elem_of_app.
  destruct (decide (j < i)%nat) as [Hlt|Hge].
  - left. apply list_elem_of_join. exists q. split; [done|].
    apply list_elem_of_lookup. exists j. by rewrite lookup_take_lt.
  - right. apply list_elem_of_join. exists q. split; [done|].
    apply list_elem_of_lookup. exists (j - S i)%nat.
    rewrite lookup_drop. replace (S i + (j - S i))%nat with j by lia. done.
Qed.

Section Disjoint.
Context (qs : list (list nat)) (fl : list nat).
Hypothesis Hperm : fl ++ mjoin qs ≡ₚ seq 0 MAX_ORDERS.

Lemma handles_NoDup : NoDup (fl ++ mjoin qs).
Proof. rewrite Hperm. apply NoDup_seq. Qed.

Lemma free_NoDup : NoDup fl.
Proof. pose proof handles_NoDup as H. by apply NoDup_app in H as (? & _ & _). Qed.

Lemma queue_NoDup i q : qs !! i = Some q → NoDup q.
Proof.
  intros Hq. pose proof handles_NoDup as H.
  rewrite (join_lookup_split _ _ _ Hq) in H.
  apply NoDup_app in H as (_ & _ & H).
  apply NoDup_app in H as (_ & _ & H).
  by apply NoDup_app in H as (? & _ & _).
Qed.

Lemma queue_not_free i q x : qs !! i = Some q → x ∈ q → x ∉ fl.
Proof.
  intros Hq Hx Hfl. pose proof handles_NoDup as H.
  apply NoDup_app in H as (_ & H & _). apply (H x Hfl).
  apply list_elem_of_join. exists q. split; [done|].
  by eapply list_elem_of_lookup_2.
Qed.

Lemma queue_disjoint i j q q' x :
  qs !! i = Some q → qs !! j = Some q' → x ∈ q → x ∈ q' → i = j.
Proof.
  intros Hq Hq' Hx Hx'. destruct (decide (i = j)) as [|Hne]; [done|exfalso].
  pose proof handles_NoDup as H.
  apply NoDup_app in H as (_ & _ & H).
  rewrite (join_lookup_split _ _ _ Hq) in H.
  pose proof (join_elem_other qs i j q' x Hq' Hx' Hne) as Ho.
  apply NoDup_app in H as (_ & H1 & H).
  apply NoDup_app in H as (_ & H2 & _).
  apply elem_of_app in Ho as [Ho|Ho].
  - apply (H1 x Ho). apply elem_of_app. by left.
  - by apply (H2 x Hx).
Qed.

Lemma queue_length i q : qs !! i = Some q → (length q ≤ MAX_ORDERS)%nat.
Proof.
  intros Hq. pose proof (Permutation_length Hperm) as H.
  rewrite length_app, (join_lookup_split _ _ _ Hq), !length_app, length_seq in H.
  lia.
Qed.

Lemma handles_length : (length (mjoin qs) ≤ MAX_ORDERS)%nat.
Proof.
  pose proof (Permutation_length Hperm) as H.
  rewrite length_app, length_seq in H. lia.
Qed.
End Disjoint.

Lemma perm_release (qs : list (list nat)) fl i m q :
  qs !! i = Some (m :: q) →
  fl ++ mjoin qs ≡ₚ seq 0 MAX_ORDERS →
  (m :: fl) ++ mjoin (<[i := q]> qs) ≡ₚ seq 0 MAX_ORDERS.
Proof.
  intros Hq <-.
  rewrite (join_lookup_split _ _ _ Hq), (join_insert_split _ _ _ q Hq).
  simpl. rewrite <-!Permutation_middle. done.
Qed.

Lemma perm_acquire (qs : list (list nat)) fl i h q :
  qs !! i = Some q →
  (h :: fl) ++ mjoin qs ≡ₚ seq 0 MAX_ORDERS →
  fl ++ mjoin (<[i := q ++ [h]]> qs) ≡ₚ seq 0 MAX_ORDERS.
Proof.
  intros Hq <-.
  rewrite (join_lookup_split _ _ _ Hq), (join_insert_split _ _ _ (q ++ [h]) Hq).
  simpl. rewrite <-!app_assoc. simpl.
  rewrite <-!Permutation_middle. done.
Qed.

(** ** Rescans after a depletion *)

Lemma scan_down_spec ls i :
  (i ≤ length ls)%nat →
  ∃ j, scan_down ls i = Ok j ∧
    ((j = NUM_LEVELS ∧
      ∀ k lv, (k < i)%nat → ls !! k = Some lv → total_quantity_ lv ≤ 0)
     ∨ ((j < i)%nat ∧ (∃ lv, ls !! j = Some lv ∧ 0 < total_quantity_ lv) ∧
        ∀ k lv, (j < k < i)%nat → ls !! k = Some lv → total_quantity_ lv ≤ 0)).
Proof.
  induction i as [|i IH]; intros Hi; simpl.
  - exists NUM_LEVELS. split; [done|]. left. split; [done|]. intros; lia.
  - destruct (lookup_lt_is_Some_2 ls i) as [lv Hlv]; [lia|].
    unfold deref. rewrite Hlv. simpl.
    destruct (0 <? total_quantity_ lv) eqn:Ht.
    + exists i. split; [done|]. right. split; [lia|]. split.
      * exists lv. split; [done|]. lia.
      * intros; lia.
    + destruct IH as (j & -> & Hj); [lia|]. exists j. split; [done|].
      destruct Hj as [[-> Hz]|(Hlt & Hpos & Hz)]; [left|right].
      * split; [done|]. intros k lv' Hk Hlv'.
        destruct (decide (k = i)) as [->|]; [|apply (Hz k); [lia|done]].
        rewrite Hlv in Hlv'. injection Hlv' as <-. lia.
      * split; [lia|]. split; [done|]. intros k lv' Hk Hlv'.
        destruct (decide (k = i)) as [->|]; [|apply (Hz k); [lia|done]].
        rewrite Hlv in Hlv'. injection Hlv' as <-. lia.
Qed.

Lemma scan_up_spec ls i n :
  (i + n ≤ length ls)%nat →
  ∃ j, scan_up ls i n = Ok j ∧
    ((j = NUM_LEVELS ∧
      ∀ k lv, (i ≤ k < i + n)%nat → ls !! k = Some lv → total_quantity_ lv ≤ 0)
     ∨ ((i ≤ j < i + n)%nat ∧ (∃ lv, ls !! j = Some lv ∧ 0 < total_quantity_ lv) ∧
        ∀ k lv, (i ≤ k < j)%nat → ls !! k = Some lv → total_quantity_ lv ≤ 0)).
Proof.
  revert i. induction n as [|n IH]; intros i Hi; simpl.
  - exists NUM_LEVELS. split; [done|]. left. split; [done|]. intros; lia.
  - destruct (lookup_lt_is_Some_2 ls i) as [lv Hlv]; [lia|].
    unfold deref. rewrite Hlv. simpl.
    destruct (0 <? total_quantity_ lv) eqn:Ht.
    + exists i. split; [done|]. right. split; [lia|]. split.
      * exists lv. split; [done|]. lia.
      * intros; lia.
    + destruct (IH (S i)) as (j & -> & Hj); [lia|]. exists j. split; [done|].
      destruct Hj as [[-> Hz]|(Hlt & Hpos & Hz)]; [left|right].
      * split; [done|]. intros k lv' Hk Hlv'.
        destruct (decide (k = i)) as [->|]; [|apply (Hz k); [lia|done]].
        rewrite Hlv in Hlv'. injection Hlv' as <-. lia.
      * split; [lia|]. split; [done|]. intros k lv' Hk Hlv'.
        destruct (decide (k = i)) as [->|]; [|apply (Hz k); [lia|done]].
        rewrite Hlv in Hlv'. injection Hlv' as <-. lia.
Qed.

(** Both rescans only move the cursor: to the nearest worse level with a
    positive aggregate, or to the sentinel when there is none. *)
Lemma rescan_spec dir c s :
  length (levels_ s) = NUM_LEVELS → (c < NUM_LEVELS)%nat →
  ∃ c', rescan dir c s = Ok (set_best s c') ∧
    ((c' = NUM_LEVELS ∧
      ∀ k lv, better dir c k → levels_ s !! k = Some lv → total_quantity_ lv ≤ 0)
     ∨ ((c' < NUM_LEVELS)%nat ∧ better dir c c' ∧
        (∃ lv, levels_ s !! c' = Some lv ∧ 0 < total_quantity_ lv) ∧
        ∀ k lv, better dir c k → better dir k c' →
                levels_ s !! k = Some lv → total_quantity_ lv ≤ 0)).
Proof.
  intros Hlen Hc. destruct dir; simpl.
  - unfold update_best_bid_after_empty.
    destruct (scan_down_spec (levels_ s) c) as (j & -> & Hj); [lia|].
    exists j. split; [done|].
    destruct Hj as [[-> Hz]|(Hlt & Hpos & Hz)]; [left|right].
    + split; [done|]. intros k lv Hk. by apply Hz.
    + split; [lia|]. split; [done|]. split; [done|].
      intros k lv Hk1 Hk2. apply Hz. lia.
  - unfold update_best_ask_after_empty.
    destruct (scan_up_spec (levels_ s) (S c) (NUM_LEVELS - S c)) as (j & -> & Hj);
      [lia|].
    exists j. split; [done|].
    destruct Hj as [[-> Hz]|(Hlt & Hpos & Hz)]; [left|right].
    + split; [done|]. intros k lv Hk Hlv. apply (Hz k); [|done].
      apply lookup_lt_Some in Hlv. lia.
    + split; [lia|]. split; [lia|]. split; [done|].
      intros k lv Hk1 Hk2. apply Hz. lia.
Qed.

(** ** Preservation of the representation invariant *)

Lemma level_ok_frame pool pool' i lv q :
  level_ok pool i lv q → (∀ x, x ∈ q → pool' !! x = pool !! x) →
  level_ok pool' i lv q.
Proof.
  intros [Hp Hc Hl Ht Ho] Hf. split; [done| |done| |].
  - eapply chain_frame; [done|]. intros x o Hx Hpx. exists o.
    by rewrite Hf.
  - by rewrite (orders_at_frame _ _ _ Hf).
  - apply Forall_forall. intros x Hx.
    rewrite Forall_forall in Ho. destruct (Ho x Hx) as (o & Hox & ?).
    exists o. by rewrite Hf.
Qed.

Lemma insert_other_lookup (pool : list Order) m o (q : list nat) :
  m ∉ q → ∀ x, x ∈ q → <[m := o]> pool !! x = pool !! x.
Proof. intros Hm x Hx. apply list_lookup_insert_ne. by intros ->. Qed.

(** The head [m] of level [li] leaves its queue and joins the free list. *)
Lemma side_inv_release qs fl s li level m maker q' lvf c' o :
  side_inv qs fl s →
  levels_ s !! li = Some level → qs !! li = Some (m :: q') →
  pool_ (side_pool_ s) !! m = Some maker →
  level_price_ lvf = level_price_ level →
  first_ lvf = next_ maker → last_ lvf = last q' →
  total_quantity_ lvf = wrap (total_quantity_ level - quantity_ maker) →
  next_ o = next_free_ (side_pool_ s) →
  cursor_ok (is_bid_ s) (<[li := q']> qs) (<[li := lvf]> (levels_ s)) c' →
  side_inv (<[li := q']> qs) (m :: fl)
    (mkOrderBookSide (<[li := lvf]> (levels_ s))
       (mkOrderPool (<[m := o]> (pool_ (side_pool_ s))) (Some m))
       (is_bid_ s) c').
Proof.
  intros [Hll Hql Hpl Hfree Hlevel Hperm Hcur] Hlv Hq Hm Hprice Hfirst Hlast Htot Hnext Hc'.
  pose proof (queue_NoDup _ _ Hperm _ _ Hq) as Hnd.
  apply NoDup_cons in Hnd as [Hmq' Hnd'].
  assert (m ∉ fl) as Hmfl by (eapply queue_not_free; [done..|by left]).
  pose proof (Hlevel _ _ _ Hlv Hq) as [Hp Hch Hl Ht Ho].
  split; simpl; rewrite ?length_insert; try done.
  - econstructor.
    + apply list_lookup_insert_eq. by eapply lookup_lt_Some.
    + rewrite Hnext. by apply chain_insert_notin.
  - intros i lv q Hlvi Hqi. destruct (decide (i = li)) as [->|Hne].
    + rewrite list_lookup_insert_eq in Hlvi by (by eapply lookup_lt_Some).
      rewrite list_lookup_insert_eq in Hqi by (by eapply lookup_lt_Some).
      injection Hlvi as <-. injection Hqi as <-.
      apply chain_cons_inv in Hch as (_ & maker' & Hm' & Hch).
      rewrite Hm in Hm'. injection Hm' as <-.
      apply Forall_cons in Ho as [_ Ho].
      pose proof (insert_other_lookup (pool_ (side_pool_ s)) m o q' Hmq') as Hf.
      split.
      * by rewrite Hprice.
      * rewrite Hfirst. by apply chain_insert_notin.
      * done.
      * rewrite Htot, Ht, (orders_at_cons _ _ _ _ Hm), (orders_at_frame _ _ _ Hf).
        simpl. unfold wrap. rewrite Zminus_mod_idemp_l. f_equal. lia.
      * apply Forall_forall. intros x Hx.
        rewrite Forall_forall in Ho. destruct (Ho x Hx) as (ox & Hox & ?).
        exists ox. by rewrite Hf.
    + rewrite list_lookup_insert_ne in Hlvi by done.
      rewrite list_lookup_insert_ne in Hqi by done.
      eapply level_ok_frame; [by eapply Hlevel|].
      apply insert_other_lookup. intros Hmq.
      apply Hne.
      apply (queue_disjoint _ _ Hperm i li q (m :: q') m); [done..|by left].
  - by apply perm_release.
Qed.

(** The head [m] of level [li] is filled in part and stays where it is. *)
Lemma side_inv_partial qs fl s li level m maker q' lvf tq :
  side_inv qs fl s →
  levels_ s !! li = Some level → qs !! li = Some (m :: q') →
  pool_ (side_pool_ s) !! m = Some maker →
  0 ≤ tq < quantity_ maker →
  best_price_index_ s = li →
  lvf = set_total level (wrap (total_quantity_ level - tq)) →
  side_inv qs fl
    (mkOrderBookSide (<[li := lvf]> (levels_ s))
       (mkOrderPool (<[m := set_quantity maker (quantity_ maker - tq)]> (pool_ (side_pool_ s)))
                    (next_free_ (side_pool_ s)))
       (is_bid_ s) (best_price_index_ s)).
Proof.
  intros [Hll Hql Hpl Hfree Hlevel Hperm Hcur] Hlv Hq Hm Htq Hbest ->.
  pose proof (queue_NoDup _ _ Hperm _ _ Hq) as Hnd.
  apply NoDup_cons in Hnd as [Hmq' Hnd'].
  assert (m ∉ fl) as Hmfl by (eapply queue_not_free; [done..|by left]).
  pose proof (Hlevel _ _ _ Hlv Hq) as [Hp Hch Hl Ht Ho].
  set (maker' := set_quantity maker (quantity_ maker - tq)).
  assert (<[m := maker']> (pool_ (side_pool_ s)) !! m = Some maker') as Hm'.
  { apply list_lookup_insert_eq. by eapply lookup_lt_Some. }
  split; simpl; rewrite ?length_insert; try done.
  - by apply chain_insert_notin.
  - intros i lv q Hlvi Hqi. destruct (decide (i = li)) as [->|Hne].
    + rewrite list_lookup_insert_eq in Hlvi by (by eapply lookup_lt_Some).
      rewrite Hq in Hqi. injection Hlvi as <-. injection Hqi as <-.
      pose proof (insert_other_lookup (pool_ (side_pool_ s)) m maker' q' Hmq') as Hf.
      apply Forall_cons in Ho as [(o & Hom & Hoq & Hop) Ho].
      rewrite Hm in Hom. injection Hom as <-.
      split.
      * exact Hp.
      * eapply chain_insert_next; [exact Hch|done..].
      * exact Hl.
      * cbn [total_quantity_ set_total].
        rewrite Ht, (orders_at_cons _ _ _ _ Hm), (orders_at_cons _ _ _ _ Hm'),
          (orders_at_frame _ _ _ Hf).
        simpl. unfold wrap. rewrite Zminus_mod_idemp_l. f_equal. lia.
      * apply Forall_cons. split.
        -- exists maker'. split; [done|]. simpl. split; [lia|done].
        -- apply Forall_forall. intros x Hx.
           rewrite Forall_forall in Ho. destruct (Ho x Hx) as (ox & Hox & ?).
           exists ox. by rewrite Hf.
    + rewrite list_lookup_insert_ne in Hlvi by done.
      eapply level_ok_frame; [by eapply Hlevel|].
      apply insert_other_lookup. intros Hmq.
      apply Hne.
      apply (queue_disjoint _ _ Hperm i li q (m :: q') m); [done..|by left].
  - rewrite Hbest in *. right.
    pose proof (lookup_lt_Some _ _ _ Hlv) as Hlt.
    split; [lia|]. split; [by eauto|].
    destruct Hcur as [[Hc Hz]|(Hc & Hne & Hz)]; [lia|].
    intros i lv Hb Hlvi. rewrite list_lookup_insert_ne in Hlvi; [by eapply Hz|].
    intros <-. destruct (is_bid_ s); simpl in Hb; lia.
Qed.

Lemma better_trichotomy dir k c : better dir k c ∨ k = c ∨ better dir c k.
Proof. destruct dir; simpl; lia. Qed.

Lemma better_irrefl dir c : ¬ better dir c c.
Proof. destruct dir; simpl; lia. Qed.

Lemma side_inv_total_range qs fl s i lv :
  side_inv qs fl s → levels_ s !! i = Some lv → 0 ≤ total_quantity_ lv < SIZE_MOD.
Proof.
  intros Hinv Hlv.
  destruct (lookup_lt_is_Some_2 qs i) as [q Hq].
  { rewrite (inv_queues _ _ _ Hinv), <-(inv_levels _ _ _ Hinv). by eapply lookup_lt_Some. }
  rewrite (lv_total _ _ _ _ (inv_level _ _ _ Hinv _ _ _ Hlv Hq)). apply wrap_range.
Qed.

(** The cursor after the best level [li] lost its last order. *)
Lemma cursor_ok_rescan qs fl s li level lvf c' :
  side_inv qs fl s → best_price_index_ s = li →
  levels_ s !! li = Some level → total_quantity_ lvf = 0 →
  ((c' = NUM_LEVELS ∧
    ∀ k lv, better (is_bid_ s) li k → <[li := lvf]> (levels_ s) !! k = Some lv →
            total_quantity_ lv ≤ 0)
   ∨ ((c' < NUM_LEVELS)%nat ∧ better (is_bid_ s) li c' ∧
      (∃ lv, <[li := lvf]> (levels_ s) !! c' = Some lv ∧ 0 < total_quantity_ lv) ∧
      ∀ k lv, better (is_bid_ s) li k → better (is_bid_ s) k c' →
              <[li := lvf]> (levels_ s) !! k = Some lv → total_quantity_ lv ≤ 0)) →
  cursor_ok (is_bid_ s) (<[li := []]> qs) (<[li := lvf]> (levels_ s)) c'.
Proof.
  intros Hinv Hbest Hlv Hz0 Hscan.
  pose proof (lookup_lt_Some _ _ _ Hlv) as Hlt.
  pose proof (inv_levels _ _ _ Hinv) as Hll.
  assert (better_totals_zero (is_bid_ s) (levels_ s) li) as Hold.
  { destruct (inv_cursor _ _ _ Hinv) as [[Hc _]|(_ & _ & Hz)]; [lia|].
    by rewrite Hbest in Hz. }
  assert (∀ k lv, k ≠ li → <[li := lvf]> (levels_ s) !! k = Some lv →
                  0 ≤ total_quantity_ lv) as Hrange.
  { intros k lv Hk Hlk. rewrite list_lookup_insert_ne in Hlk by done.
    by eapply side_inv_total_range. }
  assert (∀ k lv, ¬ better (is_bid_ s) li k →
                  <[li := lvf]> (levels_ s) !! k = Some lv → total_quantity_ lv = 0)
    as Hnotworse.
  { intros k lv Hk Hlk.
    destruct (better_trichotomy (is_bid_ s) k li) as [Hb| [->|Hb]]; [|  |done].
    - rewrite list_lookup_insert_ne in Hlk; [by eapply Hold|].
      intros <-. by eapply better_irrefl.
    - rewrite list_lookup_insert_eq in Hlk by done. by injection Hlk as <-. }
  destruct Hscan as [[-> Hz]|(Hc' & Hb & (lv' & Hlv' & Hpos) & Hz)]; [left|right].
  - split; [done|]. intros k lv Hlk.
    destruct (better_trichotomy (is_bid_ s) k li) as [Hk| [->|Hk]].
    + apply Hnotworse in Hlk; [done|]. destruct (is_bid_ s); simpl in *; lia.
    + apply Hnotworse in Hlk; [done|]. apply better_irrefl.
    + assert (k ≠ li) by (intros ->; by eapply better_irrefl).
      pose proof (Hz _ _ Hk Hlk). pose proof (Hrange _ _ ltac:(done) Hlk). lia.
  - split; [done|].
    assert (c' ≠ li) as Hne by (intros ->; by eapply better_irrefl).
    split.
    + destruct (lookup_lt_is_Some_2 qs c') as [q Hq].
      { by rewrite (inv_queues _ _ _ Hinv). }
      exists q. rewrite list_lookup_insert_ne by done. split; [done|].
      intros ->. rewrite list_lookup_insert_ne in Hlv' by done.
      rewrite (lv_total _ _ _ _ (inv_level _ _ _ Hinv _ _ _ Hlv' Hq)) in Hpos.
      by compute in Hpos.
    + intros k lv Hk Hlk.
      destruct (better_trichotomy (is_bid_ s) k li) as [Hk'| [->|Hk']].
      * apply Hnotworse in Hlk; [done|]. destruct (is_bid_ s); simpl in *; lia.
      * apply Hnotworse in Hlk; [done|]. apply better_irrefl.
      * assert (k ≠ li) by (intros ->; by eapply better_irrefl).
        pose proof (Hz _ _ Hk' Hk Hlk). pose proof (Hrange _ _ ltac:(done) Hlk). lia.
Qed.

(** The cursor stays on the best level [li] as long as its queue is not
    empty. *)
Lemma cursor_ok_keep qs fl s li level lvf q' :
  side_inv qs fl s → best_price_index_ s = li →
  levels_ s !! li = Some level → q' ≠ [] →
  cursor_ok (is_bid_ s) (<[li := q']> qs) (<[li := lvf]> (levels_ s)) li.
Proof.
  intros Hinv Hbest Hlv Hne. right.
  pose proof (lookup_lt_Some _ _ _ Hlv) as Hlt.
  pose proof (inv_levels _ _ _ Hinv) as Hll.
  split; [lia|]. split.
  - exists q'. split; [|done]. apply list_lookup_insert_eq.
    rewrite (inv_queues _ _ _ Hinv). lia.
  - destruct (inv_cursor _ _ _ Hinv) as [[Hc _]|(_ & _ & Hz)]; [lia|].
    rewrite Hbest in Hz.
    intros i lv Hb Hlvi. rewrite list_lookup_insert_ne in Hlvi; [by eapply Hz|].
    intros <-. by eapply better_irrefl.
Qed.

(** ** One trade against the head of the best level *)

Lemma fill_head_spec qs fl s li level m iq id ts :
  side_inv qs fl s → best_price_index_ s = li →
  levels_ s !! li = Some level → first_ level = Some m → 0 < iq < SIZE_MOD →
  ∃ maker q' s',
    qs !! li = Some (m :: q') ∧ pool_ (side_pool_ s) !! m = Some maker ∧
    fill_head (rescan (is_bid_ s)) li level m s iq id ts
      = Ok (s', iq - Z.min (quantity_ maker) iq,
            ts ++ [mkTrade id (order_id_ maker) (price_ maker)
                           (Z.min (quantity_ maker) iq)]) ∧
    is_bid_ s' = is_bid_ s ∧
    (∀ i, i ≠ li → levels_ s' !! i = levels_ s !! i) ∧
    if decide (quantity_ maker ≤ iq) then
      side_inv (<[li := q']> qs) (m :: fl) s' ∧
      pool_ (side_pool_ s')
        = <[m := mkOrder (order_id_ maker) (price_ maker) 0 (next_free_ (side_pool_ s))]>
            (pool_ (side_pool_ s)) ∧
      (q' ≠ [] → best_price_index_ s' = li)
    else
      side_inv qs fl s' ∧
      pool_ (side_pool_ s')
        = <[m := set_quantity maker (quantity_ maker - iq)]> (pool_ (side_pool_ s)) ∧
      best_price_index_ s' = li.
Proof.
  intros Hinv Hbest Hlv Hfirst Hiq.
  pose proof (lookup_lt_Some _ _ _ Hlv) as Hlt.
  pose proof (inv_levels _ _ _ Hinv) as Hll.
  destruct (lookup_lt_is_Some_2 qs li) as [q Hq].
  { by rewrite (inv_queues _ _ _ Hinv), <-Hll. }
  pose proof (inv_level _ _ _ Hinv _ _ _ Hlv Hq) as [Hp Hch Hl Ht Ho].
  rewrite Hfirst in Hch.
  apply chain_Some_inv in Hch as (maker & q' & -> & Hm & Hch).
  apply Forall_cons in Ho as [(o & Hom & Hoq & Hop) Ho].
  rewrite Hm in Hom. injection Hom as <-.
  pose proof (lookup_lt_Some _ _ _ Hm) as Hmlt.
  exists maker, q'.
  unfold fill_head, deref. rewrite Hm. cbn [bind].
  destruct (decide (quantity_ maker ≤ iq)) as [Hle|Hgt].
  - rewrite Z.min_l by done. rewrite Z.sub_diag.
    change (wrap 0) with 0. cbn [set_quantity quantity_ next_]. cbn [Z.eqb].
    rewrite (wrap_small (iq - _)) by lia.
    set (lvf := set_first (set_total level (wrap (total_quantity_ level - quantity_ maker)))
                          (next_ maker)).
    unfold store_level, store_order, set_levels, set_pool.
    cbn [levels_ side_pool_ is_bid_ best_price_index_ pool_ next_free_].
    rewrite !list_insert_insert_eq.
    cbn [first_ set_first lvf]. fold lvf.
    set (o := mkOrder (order_id_ maker) (price_ maker) 0 (next_free_ (side_pool_ s))).
    assert (∀ c' lvf',
      level_price_ lvf' = level_price_ level → first_ lvf' = next_ maker →
      last_ lvf' = last q' →
      total_quantity_ lvf' = wrap (total_quantity_ level - quantity_ maker) →
      cursor_ok (is_bid_ s) (<[li := q']> qs) (<[li := lvf']> (levels_ s)) c' →
      (q' ≠ [] → c' = li) →
      ∃ s',
        (qs !! li = Some (m :: q') ∧ Some maker = Some maker ∧
        bind (deallocate
                (mkOrderPool (<[m := set_quantity maker 0]> (pool_ (side_pool_ s)))
                             (next_free_ (side_pool_ s))) m)
             (λ pool, Ok (mkOrderBookSide (<[li := lvf']> (levels_ s)) pool (is_bid_ s) c',
                          iq - quantity_ maker,
                          ts ++ [mkTrade id (order_id_ maker) (price_ maker) (quantity_ maker)]))
        = Ok (s', iq - quantity_ maker,
              ts ++ [mkTrade id (order_id_ maker) (price_ maker) (quantity_ maker)]) ∧
        is_bid_ s' = is_bid_ s ∧
        (∀ i, i ≠ li → levels_ s' !! i = levels_ s !! i) ∧
        side_inv (<[li := q']> qs) (m :: fl) s' ∧
        pool_ (side_pool_ s') = <[m := o]> (pool_ (side_pool_ s)) ∧
        (q' ≠ [] → best_price_index_ s' = li))) as Hfinish.
    { intros c' lvf' H1 H2 H3 H4 H5 H6.
      unfold deallocate, deref. cbn [pool_ next_free_].
      rewrite list_lookup_insert_eq by done. cbn [bind].
      rewrite list_insert_insert_eq.
      change (set_next (set_quantity maker 0) (next_free_ (side_pool_ s))) with o.
      eexists. split; [done|]. split; [done|]. split; [done|].
      cbn [is_bid_ levels_ side_pool_ pool_ best_price_index_].
      split; [done|]. split.
      { intros i Hi. by apply list_lookup_insert_ne. }
      split; [|done].
      by eapply side_inv_release. }
    destruct (next_ maker) as [n|] eqn:Hnext.
    + cbn [bind side_pool_ levels_ is_bid_ best_price_index_].
      apply chain_Some_inv in Hch as (on & q'' & -> & Hn & Hch).
      rewrite Hbest.
      apply (Hfinish li lvf); try done.
      eapply cursor_ok_keep; done.
    + apply chain_None_inv in Hch as ->.
      set (s4 := mkOrderBookSide (<[li := set_last lvf None]> _) _ _ _).
      destruct (rescan_spec (is_bid_ s) li s4) as (c' & Hc' & Hscan);
        [by unfold s4; cbn [levels_]; rewrite length_insert|lia|].
      rewrite Hbest, Hc'.
      cbn [bind set_best side_pool_ levels_ is_bid_ best_price_index_ s4].
      assert (total_quantity_ (set_last lvf None) = 0) as Hz0.
      { cbn. rewrite Ht, (orders_at_cons _ _ _ _ Hm). simpl.
        unfold wrap. rewrite Zminus_mod_idemp_l.
        replace (quantity_ maker + 0 - quantity_ maker) with 0 by lia. done. }
      apply (Hfinish c' (set_last lvf None)); try done.
      eapply cursor_ok_rescan; done.
  - rewrite Z.min_r by lia. rewrite Z.sub_diag.
    change (wrap 0) with 0.
    rewrite (wrap_small (quantity_ maker - iq)) by lia.
    cbn [set_quantity quantity_].
    destruct (Z.eqb_spec (quantity_ maker - iq) 0) as [|_]; [lia|].
    unfold store_level, store_order, set_levels, set_pool.
    cbn [levels_ side_pool_ is_bid_ best_price_index_ pool_ next_free_].
    eexists. split; [done|]. split; [done|]. split; [done|].
    cbn [is_bid_ levels_ side_pool_ pool_ best_price_index_].
    split; [done|]. split.
    { intros i Hi. by apply list_lookup_insert_ne. }
    split; [|done].
    eapply side_inv_partial; try done. lia.
Qed.

(** ** Resting a new order *)

Lemma update_after_order_eq idx s :
  (if is_bid_ s then update_best_bid_after_order idx s
   else update_best_ask_after_order idx s)
  = set_best s (new_best (is_bid_ s) idx (best_price_index_ s)).
Proof.
  destruct s as [ls p [] c];
    unfold update_best_bid_after_order, update_best_ask_after_order, new_best, set_best;
    cbn [is_bid_ best_price_index_ levels_ side_pool_];
    by destruct (_ || _).
Qed.

Lemma better_trans dir a b c : better dir a b → better dir b c → better dir a c.
Proof. destruct dir; simpl; lia. Qed.

Lemma cursor_ok_insert qs fl s idx level lvf q h :
  side_inv qs fl s → levels_ s !! idx = Some level → qs !! idx = Some q →
  cursor_ok (is_bid_ s) (<[idx := q ++ [h]]> qs) (<[idx := lvf]> (levels_ s))
            (new_best (is_bid_ s) idx (best_price_index_ s)).
Proof.
  intros Hinv Hlv Hq.
  pose proof (lookup_lt_Some _ _ _ Hlv) as Hlt.
  pose proof (lookup_lt_Some _ _ _ Hq) as Hqlt.
  pose proof (inv_levels _ _ _ Hinv) as Hll.
  assert (<[idx := q ++ [h]]> qs !! idx = Some (q ++ [h]) ∧ q ++ [h] ≠ []) as Hnew.
  { split; [by apply list_lookup_insert_eq|]. by destruct q. }
  assert (∀ c, (∀ i lv, better (is_bid_ s) i c → i ≠ idx → levels_ s !! i = Some lv →
                        total_quantity_ lv = 0) →
               ¬ better (is_bid_ s) idx c →
               better_totals_zero (is_bid_ s) (<[idx := lvf]> (levels_ s)) c) as Hz'.
  { intros c Hz Hnb i lv Hb Hlvi.
    assert (i ≠ idx) by (by intros ->).
    rewrite list_lookup_insert_ne in Hlvi by done. by eapply Hz. }
  right.
  destruct (inv_cursor _ _ _ Hinv) as [[Hc Hz]|(Hc & (qc & Hqc & Hne) & Hz)].
  - assert (new_best (is_bid_ s) idx (best_price_index_ s) = idx) as ->.
    { unfold new_best. rewrite Hc, Nat.eqb_refl. by destruct (is_bid_ s). }
    split; [lia|]. split; [by eauto|].
    apply Hz'; [|apply better_irrefl]. intros i lv _ _ Hlvi. by eapply Hz.
  - destruct (decide (better (is_bid_ s) idx (best_price_index_ s))) as [Hb|Hnb].
    + assert (new_best (is_bid_ s) idx (best_price_index_ s) = idx) as ->.
      { unfold new_best. destruct (is_bid_ s); simpl in Hb.
        - replace (best_price_index_ s <? idx)%nat with true
            by (symmetry; apply Nat.ltb_lt; lia).
          by rewrite orb_true_r.
        - replace (idx <? best_price_index_ s)%nat with true
            by (symmetry; apply Nat.ltb_lt; lia).
          by rewrite orb_true_r. }
      split; [lia|]. split; [by eauto|].
      apply Hz'; [|apply better_irrefl]. intros i lv Hbi _ Hlvi.
      eapply Hz; [|done]. by eapply better_trans.
    + assert (new_best (is_bid_ s) idx (best_price_index_ s) = best_price_index_ s) as ->.
      { unfold new_best. destruct (is_bid_ s); simpl in Hnb.
        - replace (best_price_index_ s =? NUM_LEVELS)%nat with false
            by (symmetry; apply Nat.eqb_neq; lia).
          replace (best_price_index_ s <? idx)%nat with false
            by (symmetry; apply Nat.ltb_ge; lia).
          done.
        - replace (best_price_index_ s =? NUM_LEVELS)%nat with false
            by (symmetry; apply Nat.eqb_neq; lia).
          replace (idx <? best_price_index_ s)%nat with false
            by (symmetry; apply Nat.ltb_ge; lia).
          done. }
      split; [done|]. split.
      * destruct (decide (best_price_index_ s = idx)) as [->|Hnc]; [by eauto|].
        exists qc. by rewrite list_lookup_insert_ne.
      * apply Hz'; [|done]. intros i lv Hbi _ Hlvi. by eapply Hz.
Qed.

(** The head [h] of the free list joins the tail of the queue of level
    [idx]; [pool'] is the pool after the slot is filled and linked. *)
Lemma side_inv_acquire qs fl s idx level q h oh onew pool' lvf c' :
  side_inv qs (h :: fl) s →
  levels_ s !! idx = Some level → qs !! idx = Some q →
  pool_ (side_pool_ s) !! h = Some oh →
  length pool' = length (pool_ (side_pool_ s)) →
  pool' !! h = Some onew →
  next_ onew = None → 1 ≤ quantity_ onew < SIZE_MOD → price_ onew = level_price_of idx →
  (∀ x, x ≠ h → last q ≠ Some x → pool' !! x = pool_ (side_pool_ s) !! x) →
  (∀ t ot, last q = Some t → pool_ (side_pool_ s) !! t = Some ot →
           pool' !! t = Some (set_next ot (Some h))) →
  level_price_ lvf = level_price_ level →
  first_ lvf = match first_ level with Some f => Some f | None => Some h end →
  last_ lvf = Some h →
  total_quantity_ lvf = wrap (total_quantity_ level + quantity_ onew) →
  cursor_ok (is_bid_ s) (<[idx := q ++ [h]]> qs) (<[idx := lvf]> (levels_ s)) c' →
  side_inv (<[idx := q ++ [h]]> qs) fl
    (mkOrderBookSide (<[idx := lvf]> (levels_ s)) (mkOrderPool pool' (next_ oh))
                     (is_bid_ s) c').
Proof.
  intros Hinv Hlv Hq Hh Hlen Hnew Hnn Hnq Hnp Hother Htail Hprice Hfirst Hlast Htot Hc'.
  destruct Hinv as [Hll Hql Hpl Hfree Hlevel Hperm Hcur].
  pose proof (queue_NoDup _ _ Hperm _ _ Hq) as Hnd.
  pose proof (free_NoDup _ _ Hperm) as Hfnd.
  apply NoDup_cons in Hfnd as [Hhfl Hfnd].
  assert (∀ i qi x, qs !! i = Some qi → x ∈ qi → x ≠ h) as Hqh.
  { intros i qi x Hqi Hx ->. eapply (queue_not_free _ _ Hperm); [done..|by left]. }
  assert (∀ x, x ∈ fl → pool' !! x = pool_ (side_pool_ s) !! x) as Hffl.
  { intros x Hx. apply Hother; [by intros ->|].
    intros Hl. apply last_Some_elem_of in Hl.
    eapply (queue_not_free _ _ Hperm); [done..|by right]. }
  pose proof (Hlevel _ _ _ Hlv Hq) as [Hp Hch Hl Ht Ho].
  split; simpl; rewrite ?length_insert; try done.
  - by rewrite Hlen.
  - apply chain_cons_inv in Hfree as (_ & oh' & Hh' & Hfree).
    rewrite Hh in Hh'. injection Hh' as <-.
    eapply chain_frame; [done|]. intros x o Hx Hpx. exists o. by rewrite Hffl.
  - intros i lv qi Hlvi Hqi. destruct (decide (i = idx)) as [->|Hne].
    + rewrite list_lookup_insert_eq in Hlvi by (by eapply lookup_lt_Some).
      rewrite list_lookup_insert_eq in Hqi by (by eapply lookup_lt_Some).
      injection Hlvi as <-. injection Hqi as <-.
      assert (∀ x o, x ∈ q → pool_ (side_pool_ s) !! x = Some o →
                ∃ o', pool' !! x = Some o' ∧ quantity_ o' = quantity_ o
                      ∧ price_ o' = price_ o
                      ∧ (last q ≠ Some x → next_ o' = next_ o)) as Hsame.
      { intros x o Hx Hpx. destruct (decide (last q = Some x)) as [Hlx|Hlx].
        - exists (set_next o (Some h)). split; [by eapply Htail|done].
        - exists o. rewrite Hother; [done| |done]. by eapply Hqh. }
      split.
      * by rewrite Hprice.
      * rewrite Hfirst. destruct q as [|x q].
        -- apply chain_nil_inv in Hch. rewrite Hch. simpl.
           econstructor; [done|]. rewrite Hnn. constructor.
        -- pose proof (chain_cons_inv _ _ _ _ Hch) as (Hf & _). rewrite Hf.
           destruct (last (x :: q)) as [t|] eqn:Hlt; [|by apply last_None in Hlt].
           destruct (lookup_lt_is_Some_2 (pool_ (side_pool_ s)) t) as [ot Hot].
           { eapply chain_bound; [done|]. by apply last_Some_elem_of. }
           rewrite <-Hf.
           eapply (chain_snoc _ pool' _ _ t h); [done..| | | |].
           ++ intros Hin. by eapply (Hqh idx (x :: q) h).
           ++ intros y o Hy Hyt Hpy.
              destruct (Hsame y o Hy Hpy) as (o' & Ho' & _ & _ & Hn).
              exists o'. split; [done|]. apply Hn. congruence.
           ++ exists (set_next ot (Some h)). split; [by apply Htail|done].
           ++ eauto.
      * by rewrite last_snoc.
      * rewrite Htot, Ht, orders_at_app, sum_quantities_app.
        rewrite (orders_at_cons _ _ _ _ Hnew). simpl.
        rewrite (sum_at_frame (pool_ (side_pool_ s)) pool').
        -- unfold wrap. rewrite Zplus_mod_idemp_l. f_equal. lia.
        -- intros x o Hx Hpx. destruct (Hsame x o Hx Hpx) as (o' & ? & ? & _). eauto.
        -- by eapply order_ok_is_Some.
      * apply Forall_app. split.
        -- apply Forall_forall. intros x Hx. rewrite Forall_forall in Ho.
           destruct (Ho x Hx) as (ox & Hox & Hqx & Hpx).
           destruct (Hsame x ox Hx Hox) as (o' & Ho' & Hq' & Hp' & _).
           exists o'. rewrite Hq', Hp'. done.
        -- apply Forall_singleton. exists onew. done.
    + rewrite list_lookup_insert_ne in Hlvi by done.
      rewrite list_lookup_insert_ne in Hqi by done.
      eapply level_ok_frame; [by eapply Hlevel|].
      intros x Hx. apply Hother; [by eapply Hqh|].
      intros Hl'. apply last_Some_elem_of in Hl'.
      apply Hne. by apply (queue_disjoint _ _ Hperm i idx qi q x).
  - by apply perm_acquire.
Qed.

Lemma NUM_LEVELS_eq : NUM_LEVELS = 401%nat.
Proof. reflexivity. Qed.

Lemma price_to_index_valid price :
  PRICE_MIN ≤ price ≤ PRICE_MAX →
  price_to_index price = Ok (Z.to_nat (price - PRICE_MIN))
  ∧ (Z.to_nat (price - PRICE_MIN) < NUM_LEVELS)%nat
  ∧ level_price_of (Z.to_nat (price - PRICE_MIN)) = price.
Proof.
  intros [Hlo Hhi]. unfold price_to_index, level_price_of, TICK_SIZE.
  rewrite Z.div_1_r, NUM_LEVELS_eq.
  destruct (Z.leb_spec PRICE_MIN price); [|lia].
  destruct (Z.leb_spec price PRICE_MAX); [|lia].
  unfold PRICE_MIN, PRICE_MAX in *. simpl. split; [done|]. lia.
Qed.

Lemma price_to_index_invalid price :
  ¬ (PRICE_MIN ≤ price ≤ PRICE_MAX) → price_to_index price = Err AssertionFailed.
Proof.
  intros Hp. unfold price_to_index.
  destruct (Z.leb_spec PRICE_MIN price); [|done].
  destruct (Z.leb_spec price PRICE_MAX); [lia|done].
Qed.

Lemma free_list_empty qs fl s :
  side_inv qs fl s → (next_free_ (side_pool_ s) = None ↔ fl = []).
Proof.
  intros Hinv. pose proof (inv_free _ _ _ Hinv) as Hc. split.
  - intros Hn. rewrite Hn in Hc. by apply chain_None_inv in Hc.
  - intros ->. by apply chain_nil_inv in Hc.
Qed.

Lemma update_after_order_mk ls p (b : bool) c idx :
  (if b then update_best_bid_after_order idx (mkOrderBookSide ls p b c)
   else update_best_ask_after_order idx (mkOrderBookSide ls p b c))
  = mkOrderBookSide ls p b (new_best b idx c).
Proof. apply (update_after_order_eq idx (mkOrderBookSide ls p b c)). Qed.

Lemma add_order_spec qs fl s price quantity id :
  side_inv qs fl s → PRICE_MIN ≤ price ≤ PRICE_MAX → 1 ≤ quantity < SIZE_MOD →
  match fl with
  | [] => add_order s price quantity id = Ok (s, None)
  | h :: fl' =>
    ∃ q s',
      qs !! Z.to_nat (price - PRICE_MIN) = Some q ∧
      add_order s price quantity id = Ok (s', Some h) ∧
      side_inv (<[Z.to_nat (price - PRICE_MIN) := q ++ [h]]> qs) fl' s' ∧
      is_bid_ s' = is_bid_ s ∧
      pool_ (side_pool_ s') !! h = Some (mkOrder id price quantity None) ∧
      (∀ x o, x ≠ h → pool_ (side_pool_ s) !! x = Some o →
         ∃ o', pool_ (side_pool_ s') !! x = Some o' ∧ order_id_ o' = order_id_ o ∧
               price_ o' = price_ o ∧ quantity_ o' = quantity_ o) ∧
      (∀ i, i ≠ Z.to_nat (price - PRICE_MIN) → levels_ s' !! i = levels_ s !! i)
  end.
Proof.
  intros Hinv Hprice Hquantity.
  destruct (price_to_index_valid price Hprice) as (Hidx & Hlt & Hlp).
  set (idx := Z.to_nat (price - PRICE_MIN)) in *.
  unfold add_order. rewrite Hidx. cbn [bind].
  replace (idx <? NUM_LEVELS)%nat with true by (symmetry; by apply Nat.ltb_lt).
  cbn [negb]. unfold allocate.
  pose proof (inv_free _ _ _ Hinv) as Hfree.
  destruct fl as [|h fl'].
  { apply chain_nil_inv in Hfree. by rewrite Hfree. }
  apply chain_cons_inv in Hfree as (Hnf & oh & Hh & Hfree).
  rewrite Hnf. unfold deref at 1. rewrite Hh. cbn [bind].
  pose proof (inv_levels _ _ _ Hinv) as Hll.
  destruct (lookup_lt_is_Some_2 (levels_ s) idx) as [level Hlv]; [lia|].
  destruct (lookup_lt_is_Some_2 qs idx) as [q Hq].
  { by rewrite (inv_queues _ _ _ Hinv). }
  pose proof (inv_level _ _ _ Hinv _ _ _ Hlv Hq) as [Hp Hch Hl Ht Ho].
  pose proof (lookup_lt_Some _ _ _ Hh) as Hhlt.
  exists q.
  unfold store_level, store_order, set_levels, set_pool.
  cbn [levels_ side_pool_ is_bid_ best_price_index_ pool_ next_free_].
  rewrite list_insert_insert_eq.
  unfold deref at 1. rewrite Hlv. cbn [bind].
  set (onew := mkOrder id price quantity None).
  assert (∀ pool' lv1,
    length pool' = length (pool_ (side_pool_ s)) →
    pool' !! h = Some onew →
    (∀ x, x ≠ h → last q ≠ Some x → pool' !! x = pool_ (side_pool_ s) !! x) →
    (∀ t ot, last q = Some t → pool_ (side_pool_ s) !! t = Some ot →
             pool' !! t = Some (set_next ot (Some h))) →
    level_price_ lv1 = level_price_ level →
    first_ lv1 = match first_ level with Some f => Some f | None => Some h end →
    last_ lv1 = Some h →
    total_quantity_ lv1 = total_quantity_ level →
    ∃ s',
      qs !! idx = Some q ∧
      bind (Ok (mkOrderBookSide (<[idx := lv1]> (levels_ s))
                  (mkOrderPool pool' (next_ oh)) (is_bid_ s) (best_price_index_ s)))
        (λ s0, bind (deref (levels_ s0) idx) (λ level0,
           Ok (if is_bid_ s0
               then update_best_bid_after_order idx
                      (mkOrderBookSide
                         (<[idx := set_total level0 (wrap (total_quantity_ level0 + quantity))]>
                            (levels_ s0))
                         (side_pool_ s0) (is_bid_ s0) (best_price_index_ s0))
               else update_best_ask_after_order idx
                      (mkOrderBookSide
                         (<[idx := set_total level0 (wrap (total_quantity_ level0 + quantity))]>
                            (levels_ s0))
                         (side_pool_ s0) (is_bid_ s0) (best_price_index_ s0)),
               Some h)))
      = Ok (s', Some h) ∧
      side_inv (<[idx := q ++ [h]]> qs) fl' s' ∧
      is_bid_ s' = is_bid_ s ∧
      pool_ (side_pool_ s') !! h = Some onew ∧
      (∀ x o, x ≠ h → pool_ (side_pool_ s) !! x = Some o →
         ∃ o', pool_ (side_pool_ s') !! x = Some o' ∧ order_id_ o' = order_id_ o ∧
               price_ o' = price_ o ∧ quantity_ o' = quantity_ o) ∧
      (∀ i, i ≠ idx → levels_ s' !! i = levels_ s !! i)) as Hfinish.
  { intros pool' lv1 Hlen Hnew Hother Htail H1 H2 H3 H4.
    cbn [bind levels_ side_pool_ is_bid_ best_price_index_].
    unfold deref. rewrite list_lookup_insert_eq by lia. cbn [bind].
    rewrite list_insert_insert_eq, update_after_order_mk.
    eexists. split; [done|]. split; [done|].
    cbn [levels_ side_pool_ is_bid_ best_price_index_ pool_].
    split; [|split; [done|split; [done|split]]].
    - eapply (side_inv_acquire _ _ _ _ _ _ _ _ onew); try done.
      + cbn. rewrite H4. done.
      + by eapply cursor_ok_insert.
    - intros x o Hx Hpx. destruct (decide (last q = Some x)) as [Hlx|Hlx].
      + exists (set_next o (Some h)). split; [by eapply Htail|done].
      + exists o. by rewrite Hother.
    - intros i Hi. by apply list_lookup_insert_ne. }
  destruct (first_ level) as [f|] eqn:Hfirst.
  - apply chain_Some_inv in Hch as (o_f & q' & -> & Hf & Hch).
    destruct (last (f :: q')) as [t|] eqn:Hlast; [|by apply last_None in Hlast].
    rewrite Hl.
    assert (t ∈ f :: q') as Ht_in by (by apply last_Some_elem_of).
    assert (t ≠ h) as Hth.
    { intros ->. eapply (queue_not_free _ _ (inv_perm _ _ _ Hinv)); [done..|by left]. }
    destruct (lookup_lt_is_Some_2 (pool_ (side_pool_ s)) t) as [ot Hot].
    { eapply chain_bound; [|done]. econstructor; done. }
    unfold deref at 1. rewrite list_lookup_insert_ne by done. rewrite Hot. cbn [bind].
    apply Hfinish; try done.
    + by rewrite !length_insert.
    + rewrite list_lookup_insert_ne by done. by apply list_lookup_insert_eq.
    + intros x Hx Hlx. rewrite !list_lookup_insert_ne; [done|done|congruence].
    + intros t' ot' [= <-] Hot'. rewrite Hot in Hot'. injection Hot' as <-.
      apply list_lookup_insert_eq. by rewrite length_insert; eapply lookup_lt_Some.
  - apply chain_None_inv in Hch as ->.
    apply Hfinish; try done.
    + by rewrite length_insert.
    + by apply list_lookup_insert_eq.
    + intros x Hx _. by rewrite list_lookup_insert_ne.
Qed.

(** ** The empty book *)

Lemma init_pool_chain n i :
  (i < n)%nat →
  chain (init_slot n <$> seq 0 n) (Some i) (seq i (n - i)).
Proof.
  intros Hi. remember (n - i)%nat as k eqn:Hk.
  revert i Hi Hk. induction k as [|k IH]; intros i Hi Hk; [lia|].
  assert ((init_slot n <$> seq 0 n) !! i = Some (init_slot n i)) as Hl.
  { by rewrite list_lookup_fmap, lookup_seq_lt by done. }
  simpl. eapply chain_cons; [exact Hl|].
  unfold init_slot at 2. cbn [next_]. destruct (decide (S i < n)%nat) as [Hlt|Hge].
    + apply IH; lia.
    + replace k with 0%nat by lia. constructor.
Qed.

Lemma join_replicate_nil (n : nat) : mjoin (replicate n ([] : list nat)) = [].
Proof. induction n as [|n IH]; [done|]. simpl. exact IH. Qed.

Lemma side_inv_init is_bid :
  side_inv (replicate NUM_LEVELS []) (seq 0 MAX_ORDERS) (OrderBookSide_init is_bid).
Proof.
  unfold OrderBookSide_init, OrderPool_init.
  split; cbn [levels_ side_pool_ pool_ next_free_ is_bid_ best_price_index_].
  - by rewrite length_fmap, length_seq.
  - by rewrite length_replicate.
  - by rewrite length_fmap, length_seq.
  - pose proof (init_pool_chain MAX_ORDERS 0) as H.
    rewrite Nat.sub_0_r in H. apply H. unfold MAX_ORDERS. lia.
  - intros i lv q Hlv Hq.
    apply lookup_replicate in Hq as [-> Hi].
    rewrite list_lookup_fmap, lookup_seq_lt in Hlv by done.
    injection Hlv as <-. split; try done. constructor.
  - by rewrite join_replicate_nil, app_nil_r.
  - left. split; [done|]. intros i lv Hlv.
    apply list_lookup_fmap_Some in Hlv as (j & -> & _). done.
Qed.

Lemma book_wf_init : book_wf OrderBook_init.
Proof.
  unfold book_wf, OrderBook_init. cbn [bids asks].
  split; [eexists _, _; apply side_inv_init|].
  split; [done|]. split; [eexists _, _; apply side_inv_init|done].
Qed.

(** ** The matching loops *)

Section Fuel.
Context (crosses : Z → Z → bool)
        (update_after_empty : nat → OrderBookSide → result OrderBookSide).

(** More fuel does not change a result. *)
Lemma drain_level_fuel_mono fuel fuel' li s q id ts r :
  (fuel ≤ fuel')%nat →
  drain_level update_after_empty fuel li s q id ts = Ok r →
  drain_level update_after_empty fuel' li s q id ts = Ok r.
Proof.
  revert fuel' s q ts. induction fuel as [|fuel IH]; intros fuel' s q ts Hle; [done|].
  destruct fuel' as [|fuel']; [lia|]. simpl.
  destruct (negb (0 <? q)); [done|].
  destruct (deref (levels_ s) li) as [level|]; [|done]. simpl.
  destruct (first_ level) as [m|]; [|done].
  destruct (fill_head update_after_empty li level m s q id ts) as [[[s1 q1] ts1]|];
    [|done].
  simpl. apply IH. lia.
Qed.

Lemma match_loop_fuel_mono fuel fuel' s p q id ts r :
  (fuel ≤ fuel')%nat →
  match_loop crosses update_after_empty fuel s p q id ts = Ok r →
  match_loop crosses update_after_empty fuel' s p q id ts = Ok r.
Proof.
  revert fuel' s q ts. induction fuel as [|fuel IH]; intros fuel' s q ts Hle; [done|].
  destruct fuel' as [|fuel']; [lia|].
  cbn [match_loop].
  destruct (negb (0 <? q)); [done|].
  destruct (best_price_index_ s =? NUM_LEVELS)%nat; [done|].
  destruct (deref (levels_ s) (best_price_index_ s)) as [level|]; [|done].
  cbn [bind].
  destruct (negb (crosses (level_price_ level) p)); [done|].
  destruct (drain_level update_after_empty (S fuel) (best_price_index_ s) s q id ts)
    as [[[s1 q1] ts1]|] eqn:Hd; [|done].
  rewrite (drain_level_fuel_mono (S fuel) (S fuel') _ _ _ _ _ _ ltac:(lia) Hd).
  cbn [bind]. apply IH. lia.
Qed.
End Fuel.

Lemma level_empty_queue qs fl s li q :
  side_inv qs fl s → qs !! li = Some q → (level_empty s li ↔ q = []).
Proof.
  intros Hinv Hq.
  destruct (lookup_lt_is_Some_2 (levels_ s) li) as [level Hlv].
  { rewrite (inv_levels _ _ _ Hinv), <-(inv_queues _ _ _ Hinv). by eapply lookup_lt_Some. }
  pose proof (lv_chain _ _ _ _ (inv_level _ _ _ Hinv _ _ _ Hlv Hq)) as Hch.
  split.
  - intros (level' & Hlv' & Hf). rewrite Hlv in Hlv'. injection Hlv' as <-.
    rewrite Hf in Hch. by apply chain_None_inv in Hch.
  - intros ->. exists level. split; [done|]. by apply chain_nil_inv in Hch.
Qed.

Section Loops.
Context (crosses : Z → Z → bool) (dir : bool) (id p : Z).
Context (P : OrderBookSide → Z → list Trade → Prop).

Lemma drain_level_rule li :
  step_ok dir id P li →
  ∀ fuel s q ts s' q' ts',
    side_wf s → is_bid_ s = dir →
    best_price_index_ s = li ∨ level_empty s li →
    is_size_t q → P s q ts →
    drain_level (rescan dir) fuel li s q id ts = Ok (s', q', ts') →
    P s' q' ts' ∧ side_wf s' ∧ is_bid_ s' = dir ∧ is_size_t q'.
Proof.
  intros Hstep. induction fuel as [|fuel IH];
    intros s q ts s' q' ts' Hwf Hdir Hli Hq HP Hrun; [done|].
  simpl in Hrun.
  destruct (Z.ltb_spec 0 q) as [Hpos|Hz]; simpl in Hrun;
    [|by injection Hrun as <- <- <-].
  apply bind_Ok in Hrun as (level & Hlv & Hrun). apply deref_Ok in Hlv.
  destruct (first_ level) as [m|] eqn:Hfirst;
    [|by injection Hrun as <- <- <-].
  apply bind_Ok in Hrun as ([[s1 q1] ts1] & Hfill & Hrun).
  destruct Hli as [Hli|(level' & Hlv' & Hf')]; [|congruence].
  destruct Hwf as (qs & fl & Hinv).
  destruct (fill_head_spec qs fl s li level m q id ts Hinv Hli Hlv Hfirst)
    as (maker & qt & s1' & Hqs & Hm & Hfill' & Hdir' & Hlevels & Hcase).
  { unfold is_size_t in Hq. lia. }
  pose proof (inv_level _ _ _ Hinv _ _ _ Hlv Hqs) as Hlok.
  pose proof (lv_orders _ _ _ _ Hlok) as Hord.
  apply Forall_cons in Hord as [(o & Hom & Hoq & _) _].
  rewrite Hm in Hom. injection Hom as <-.
  rewrite Hdir in Hfill'. rewrite Hfill in Hfill'.
  injection Hfill' as <- -> ->.
  assert (P s1 (q - quantity_ maker `min` q)
            (ts ++ [mkTrade id (order_id_ maker) (price_ maker) (quantity_ maker `min` q)]))
    as HP1.
  { eapply (Hstep s q ts level m); try done; [by eexists _, _|].
    unfold is_size_t in Hq. lia. }
  assert (side_wf s1 ∧ (best_price_index_ s1 = li ∨ level_empty s1 li))
    as [Hwf1 Hli1].
  { destruct (decide (quantity_ maker ≤ q)) as [Hle|Hgt].
    - destruct Hcase as (Hinv' & _ & Hbest). split; [by eexists _, _|].
      destruct (decide (qt = [])) as [->|Hne]; [right|by left; apply Hbest].
      eapply level_empty_queue; [done| |done].
      apply list_lookup_insert_eq. by eapply lookup_lt_Some.
    - destruct Hcase as (Hinv' & _ & Hbest). split; [by eexists _, _|by left]. }
  eapply IH; [exact Hwf1|congruence|exact Hli1| |exact HP1|exact Hrun].
  - unfold is_size_t in *. lia.
Qed.

Lemma match_loop_rule :
  (∀ li, (li < NUM_LEVELS)%nat → crosses (level_price_of li) p = true →
         step_ok dir id P li) →
  ∀ fuel s q ts s' q' ts',
    side_wf s → is_bid_ s = dir → is_size_t q → P s q ts →
    match_loop crosses (rescan dir) fuel s p q id ts = Ok (s', q', ts') →
    P s' q' ts' ∧ side_wf s' ∧ is_bid_ s' = dir ∧ is_size_t q'.
Proof.
  intros Hstep. induction fuel as [|fuel IH];
    intros s q ts s' q' ts' Hwf Hdir Hq HP Hrun; [done|].
  cbn [match_loop] in Hrun.
  destruct (negb (0 <? q)); [by injection Hrun as <- <- <-|].
  destruct (Nat.eqb_spec (best_price_index_ s) NUM_LEVELS) as [|Hbest];
    [by injection Hrun as <- <- <-|].
  apply bind_Ok in Hrun as (level & Hlv & Hrun). apply deref_Ok in Hlv.
  destruct (crosses (level_price_ level) p) eqn:Hcross; cbn [negb] in Hrun;
    [|by injection Hrun as <- <- <-].
  apply bind_Ok in Hrun as ([[s1 q1] ts1] & Hdrain & Hrun).
  assert (level_price_ level = level_price_of (best_price_index_ s)) as Hprice.
  { destruct Hwf as (qs & fl & Hinv).
    destruct (lookup_lt_is_Some_2 qs (best_price_index_ s)) as [qb Hqb].
    { rewrite (inv_queues _ _ _ Hinv), <-(inv_levels _ _ _ Hinv).
      by eapply lookup_lt_Some. }
    apply (lv_price _ _ _ _ (inv_level _ _ _ Hinv _ _ _ Hlv Hqb)). }
  assert (best_price_index_ s < NUM_LEVELS)%nat as Hlt.
  { destruct Hwf as (qs & fl & Hinv). rewrite <-(inv_levels _ _ _ Hinv).
    by eapply lookup_lt_Some. }
  rewrite Hprice in Hcross.
  destruct (drain_level_rule _ (Hstep _ Hlt Hcross) _ _ _ _ _ _ _
              Hwf Hdir (or_introl eq_refl) Hq HP Hdrain)
    as (HP1 & Hwf1 & Hdir1 & Hq1).
  by eapply IH.
Qed.
End Loops.

(** ** Termination of the matching loops *)

Lemma drain_level_done upd fuel li s id ts :
  drain_level upd (S fuel) li s 0 id ts = Ok (s, 0, ts).
Proof. done. Qed.

Lemma match_loop_done crosses upd fuel s p id ts :
  match_loop crosses upd (S fuel) s p 0 id ts = Ok (s, 0, ts).
Proof. done. Qed.

Lemma join_insert_length (qs : list (list nat)) i q q' :
  qs !! i = Some q →
  (length (mjoin (<[i := q']> qs)) + length q = length (mjoin qs) + length q')%nat.
Proof.
  intros Hq. rewrite (join_insert_split _ _ _ q' Hq), (join_lookup_split _ _ _ Hq).
  rewrite !length_app. lia.
Qed.

(** The inner loop returns as soon as its fuel exceeds the length of the
    queue it drains; it leaves the other queues alone and stops on a filled
    incoming order or an emptied level. *)
Lemma drain_level_total id li fuel :
  ∀ qs fl s q ts ql,
    side_inv qs fl s →
    best_price_index_ s = li ∨ ql = [] →
    qs !! li = Some ql → is_size_t q → (length ql < fuel)%nat →
    ∃ s' q' ts' fl' ql',
      drain_level (rescan (is_bid_ s)) fuel li s q id ts = Ok (s', q', ts') ∧
      side_inv (<[li := ql']> qs) fl' s' ∧ is_bid_ s' = is_bid_ s ∧
      is_size_t q' ∧ (q' = 0 ∨ ql' = []) ∧ (length ql' ≤ length ql)%nat.
Proof.
  induction fuel as [|fuel IH]; intros qs fl s q ts ql Hinv Hli Hql Hq Hfuel; [lia|].
  cbn [drain_level].
  destruct (Z.ltb_spec 0 q) as [Hpos|Hz]; cbn [negb].
  2:{ exists s, q, ts, fl, ql. rewrite list_insert_id by done.
      unfold is_size_t in Hq. split_and!; try done. left. lia. }
  destruct (lookup_lt_is_Some_2 (levels_ s) li) as [level Hlv].
  { rewrite (inv_levels _ _ _ Hinv), <-(inv_queues _ _ _ Hinv). by eapply lookup_lt_Some. }
  unfold deref. rewrite Hlv. cbn [bind].
  destruct (first_ level) as [m|] eqn:Hfirst.
  2:{ exists s, q, ts, fl, ql. rewrite list_insert_id by done.
      split_and!; try done. right.
      eapply level_empty_queue; [done..|]. by exists level. }
  assert (best_price_index_ s = li) as Hbest.
  { destruct Hli as [ | -> ]; [done|].
    pose proof (lv_chain _ _ _ _ (inv_level _ _ _ Hinv _ _ _ Hlv Hql)) as Hch.
    apply chain_nil_inv in Hch. congruence. }
  destruct (fill_head_spec qs fl s li level m q id ts Hinv Hbest Hlv Hfirst)
    as (maker & qt & s1 & Hqs & Hm & Hfill & Hdir & Hlevels & Hcase).
  { unfold is_size_t in Hq. lia. }
  rewrite Hql in Hqs. injection Hqs as ->.
  pose proof (lv_orders _ _ _ _ (inv_level _ _ _ Hinv _ _ _ Hlv Hql)) as Hord.
  apply Forall_cons in Hord as [(o & Hom & Hoq & _) _].
  rewrite Hm in Hom. injection Hom as <-.
  rewrite Hfill. cbn [bind].
  destruct (decide (quantity_ maker ≤ q)) as [Hle|Hgt].
  - destruct Hcase as (Hinv1 & _ & Hbest1).
    destruct (IH (<[li := qt]> qs) (m :: fl) s1 (q - quantity_ maker `min` q)
                 (ts ++ [mkTrade id (order_id_ maker) (price_ maker)
                                 (quantity_ maker `min` q)]) qt Hinv1)
      as (s' & q' & ts' & fl' & ql' & Hrun & Hinv' & Hdir' & Hq' & Hstop & Hlen).
    + destruct (decide (qt = [])); [by right|left; by apply Hbest1].
    + apply list_lookup_insert_eq. by eapply lookup_lt_Some.
    + unfold is_size_t in *. lia.
    + simpl in Hfuel. lia.
    + rewrite Hdir in Hrun. rewrite list_insert_insert_eq in Hinv'.
      exists s', q', ts', fl', ql'. split_and!; try done; [congruence|].
      simpl. lia.
  - destruct Hcase as (Hinv1 & _ & Hbest1).
    rewrite Z.min_r, Z.sub_diag by lia.
    destruct fuel as [|fuel]; [simpl in Hfuel; lia|].
    rewrite drain_level_done.
    exists s1, 0, (ts ++ [mkTrade id (order_id_ maker) (price_ maker) q]), fl, (m :: qt).
    rewrite list_insert_id by done.
    split_and!; try done. by left.
Qed.

Lemma match_loop_total crosses id p fuel :
  ∀ qs fl s q ts,
    side_inv qs fl s → is_size_t q → (length (mjoin qs) + 1 < fuel)%nat →
    ∃ r, match_loop crosses (rescan (is_bid_ s)) fuel s p q id ts = Ok r.
Proof.
  induction fuel as [|fuel IH]; intros qs fl s q ts Hinv Hq Hfuel; [lia|].
  cbn [match_loop].
  destruct (negb (0 <? q)); [by eauto|].
  destruct (Nat.eqb_spec (best_price_index_ s) NUM_LEVELS) as [|Hbest]; [by eauto|].
  destruct (inv_cursor _ _ _ Hinv) as [[Hc _]|(Hc & (ql & Hql & Hne) & _)]; [done|].
  destruct (lookup_lt_is_Some_2 (levels_ s) (best_price_index_ s)) as [level Hlv].
  { by rewrite (inv_levels _ _ _ Hinv). }
  unfold deref. rewrite Hlv. cbn [bind].
  destruct (negb (crosses (level_price_ level) p)); [by eauto|].
  destruct (drain_level_total id (best_price_index_ s) (S fuel) qs fl s q ts ql)
    as (s' & q' & ts' & fl' & ql' & Hrun & Hinv' & Hdir' & Hq' & Hstop & Hlen);
    try done; [by left| |].
  { pose proof (join_lookup_split _ _ _ Hql) as Hj.
    apply (f_equal length) in Hj. rewrite !length_app in Hj. lia. }
  rewrite Hrun. cbn [bind]. rewrite <-Hdir'.
  destruct (decide (q' = 0)) as [->|Hq0].
  - destruct fuel as [|fuel]; [lia|]. rewrite match_loop_done. eauto.
  - destruct Hstop as [ | -> ]; [done|].
    eapply IH; [done..|].
    pose proof (join_insert_length _ _ _ [] Hql) as Hj. simpl in Hj.
    destruct ql; [done|]. simpl in Hj. lia.
Qed.

(** The fuel [FUEL] is enough on every well-formed side. *)
Lemma match_loop_returns crosses s p q id ts fuel :
  side_wf s → is_size_t q → (FUEL ≤ fuel)%nat →
  ∃ r, match_loop crosses (rescan (is_bid_ s)) fuel s p q id ts = Ok r.
Proof.
  intros (qs & fl & Hinv) Hq Hfuel.
  eapply match_loop_total; [done..|].
  pose proof (handles_length _ _ (inv_perm _ _ _ Hinv)). unfold FUEL in Hfuel. lia.
Qed.

(** ** Queues as the caller sees them *)

Lemma level_queue_ghost qs fl s i q :
  side_inv qs fl s → qs !! i = Some q →
  level_queue s i = orders_at (pool_ (side_pool_ s)) q.
Proof.
  intros Hinv Hq.
  destruct (lookup_lt_is_Some_2 (levels_ s) i) as [level Hlv].
  { rewrite (inv_levels _ _ _ Hinv), <-(inv_queues _ _ _ Hinv). by eapply lookup_lt_Some. }
  unfold level_queue. rewrite Hlv. unfold orders_at. f_equal.
  apply walk_chain.
  - apply (lv_chain _ _ _ _ (inv_level _ _ _ Hinv _ _ _ Hlv Hq)).
  - rewrite (inv_pool _ _ _ Hinv). by eapply queue_length, Hq; apply (inv_perm _ _ _ Hinv).
Qed.

Lemma level_queue_out (s : OrderBookSide) i :
  (length (levels_ s) ≤ i)%nat → level_queue s i = [].
Proof. intros Hi. unfold level_queue. by rewrite lookup_ge_None_2. Qed.

Lemma orders_at_ok pool i q :
  Forall (order_ok pool i) q →
  Forall (λ o, 1 ≤ quantity_ o < SIZE_MOD ∧ price_ o = level_price_of i)
         (orders_at pool q).
Proof.
  induction 1 as [|h q (o & Ho & Hq & Hp) _ IH]; [constructor|].
  rewrite (orders_at_cons _ _ _ _ Ho). by constructor.
Qed.

Lemma level_queue_ok s i :
  side_wf s →
  Forall (λ o, 1 ≤ quantity_ o < SIZE_MOD ∧ price_ o = level_price_of i)
         (level_queue s i).
Proof.
  intros (qs & fl & Hinv).
  destruct (decide (i < NUM_LEVELS)%nat) as [Hi|Hi].
  - destruct (lookup_lt_is_Some_2 qs i) as [q Hq].
    { by rewrite (inv_queues _ _ _ Hinv). }
    destruct (lookup_lt_is_Some_2 (levels_ s) i) as [level Hlv].
    { by rewrite (inv_levels _ _ _ Hinv). }
    rewrite (level_queue_ghost _ _ _ _ _ Hinv Hq).
    apply orders_at_ok, (lv_orders _ _ _ _ (inv_level _ _ _ Hinv _ _ _ Hlv Hq)).
  - rewrite level_queue_out; [constructor|]. rewrite (inv_levels _ _ _ Hinv). lia.
Qed.

(** One iteration of the inner loop, on the queues: the head of the best
    level is traded against, for the smaller of the two quantities, and
    leaves the queue exactly when it is filled. *)
Lemma fill_head_queues dir li level m s q id ts s' q' ts' :
  side_wf s → is_bid_ s = dir → best_price_index_ s = li →
  0 < q < SIZE_MOD →
  levels_ s !! li = Some level → first_ level = Some m →
  fill_head (rescan dir) li level m s q id ts = Ok (s', q', ts') →
  ∃ maker rest,
    level_queue s li = maker :: rest ∧
    pool_ (side_pool_ s) !! m = Some maker ∧
    q' = q - quantity_ maker `min` q ∧
    ts' = ts ++ [mkTrade id (order_id_ maker) (price_ maker) (quantity_ maker `min` q)] ∧
    (∀ i, i ≠ li → level_queue s' i = level_queue s i) ∧
    level_queue s' li = (if decide (quantity_ maker ≤ q) then rest
                         else set_quantity maker (quantity_ maker - q) :: rest) ∧
    (quantity_ maker ≤ q →
       pool_ (side_pool_ s') !! m
         = Some (mkOrder (order_id_ maker) (price_ maker) 0 (next_free_ (side_pool_ s)))
       ∧ next_free_ (side_pool_ s') = Some m) ∧
    (rest ≠ [] ∨ q < quantity_ maker → best_price_index_ s' = li).
Proof.
  intros (qs & fl & Hinv) Hdir Hbest Hq Hlv Hfirst Hfill.
  destruct (fill_head_spec qs fl s li level m q id ts Hinv Hbest Hlv Hfirst Hq)
    as (maker & qt & s1 & Hqs & Hm & Hfill' & Hdir' & Hlevels & Hcase).
  rewrite Hdir, Hfill in Hfill'. injection Hfill' as <- -> ->.
  pose proof (inv_perm _ _ _ Hinv) as Hperm.
  pose proof (queue_NoDup _ _ Hperm _ _ Hqs) as Hnd.
  apply NoDup_cons in Hnd as [Hmqt _].
  pose proof (lookup_lt_Some _ _ _ Hm) as Hmlt.
  pose proof (lookup_lt_Some _ _ _ Hqs) as Hlilt.
  assert (∀ i qi o, i ≠ li → qs !! i = Some qi →
            orders_at (<[m := o]> (pool_ (side_pool_ s))) qi
            = orders_at (pool_ (side_pool_ s)) qi) as Hothers.
  { intros i qi o Hi Hqi. apply orders_at_frame, insert_other_lookup.
    intros Hmq. apply Hi.
    apply (queue_disjoint _ _ Hperm i li qi (m :: qt) m); [done..|by left]. }
  exists maker, (orders_at (pool_ (side_pool_ s)) qt).
  rewrite (level_queue_ghost _ _ _ _ _ Hinv Hqs), (orders_at_cons _ _ _ _ Hm).
  split_and!; try done.
  - intros i Hi.
    destruct (decide (i < NUM_LEVELS)%nat) as [Hlt|Hge].
    + destruct (lookup_lt_is_Some_2 qs i) as [qi Hqi].
      { by rewrite (inv_queues _ _ _ Hinv). }
      rewrite (level_queue_ghost _ _ _ _ _ Hinv Hqi).
      destruct (decide (quantity_ maker ≤ q)).
      * destruct Hcase as (Hinv' & Hpool & _).
        rewrite (level_queue_ghost _ _ _ i qi Hinv'), Hpool.
        -- by eapply Hothers.
        -- by rewrite list_lookup_insert_ne.
      * destruct Hcase as (Hinv' & Hpool & _).
        rewrite (level_queue_ghost _ _ _ _ _ Hinv' Hqi), Hpool. by eapply Hothers.
    + rewrite !level_queue_out; [done|..].
      * rewrite (inv_levels _ _ _ Hinv). lia.
      * destruct (decide (quantity_ maker ≤ q)); destruct Hcase as (Hinv' & _);
          rewrite (inv_levels _ _ _ Hinv'); lia.
  - destruct (decide (quantity_ maker ≤ q)).
    + destruct Hcase as (Hinv' & Hpool & _).
      rewrite (level_queue_ghost _ _ _ li qt Hinv'), Hpool.
      * by apply orders_at_frame, insert_other_lookup.
      * by apply list_lookup_insert_eq.
    + destruct Hcase as (Hinv' & Hpool & _).
      rewrite (level_queue_ghost _ _ _ _ _ Hinv' Hqs), Hpool.
      rewrite (orders_at_cons _ _ _ (set_quantity maker (quantity_ maker - q))).
      * f_equal. by apply orders_at_frame, insert_other_lookup.
      * by apply list_lookup_insert_eq.
  - intros Hle. destruct (decide (quantity_ maker ≤ q)); [|done].
    destruct Hcase as (Hinv' & Hpool & _). rewrite Hpool.
    split; [by apply list_lookup_insert_eq|].
    pose proof (inv_free _ _ _ Hinv') as Hch.
    by apply chain_cons_inv in Hch as (? & _).
  - intros Hkeep. destruct (decide (quantity_ maker ≤ q)).
    + destruct Hcase as (_ & _ & Hb). apply Hb. intros ->.
      destruct Hkeep as [Hne|?]; [done|lia].
    + by destruct Hcase as (_ & _ & ?).
Qed.

Lemma orders_at_view_frame pool pool' q :
  (∀ x o, x ∈ q → pool !! x = Some o →
          ∃ o', pool' !! x = Some o' ∧ order_view o' = order_view o) →
  Forall (λ x, is_Some (pool !! x)) q →
  order_view <$> orders_at pool' q = order_view <$> orders_at pool q.
Proof.
  induction q as [|h q IH]; intros Hf Hall; [done|].
  apply Forall_cons in Hall as [[o Ho] Hall].
  destruct (Hf h o) as (o' & Ho' & Hv); [by left|done|].
  rewrite (orders_at_cons _ _ _ _ Ho), (orders_at_cons _ _ _ _ Ho'), !fmap_cons.
  rewrite Hv, IH; [done| |done]. intros x ox Hx. apply Hf. by right.
Qed.

Lemma sum_quantities_view q1 q2 :
  order_view <$> q1 = order_view <$> q2 → sum_quantities q1 = sum_quantities q2.
Proof.
  revert q2. induction q1 as [|o1 q1 IH]; intros [|o2 q2] Hv; try done.
  simpl in Hv. injection Hv as Hid Hp Hq Hv. simpl. rewrite Hq. f_equal. by apply IH.
Qed.

Lemma sum_quantities_view_app q1 q2 a b c :
  order_view <$> q1 = (order_view <$> q2) ++ [(a, b, c)] →
  sum_quantities q1 = sum_quantities q2 + c.
Proof.
  revert q1. induction q2 as [|o2 q2 IH]; intros [|o1 q1] Hv; simpl in Hv; try done.
  - injection Hv as Hid Hp Hq Hv. apply fmap_nil_inv in Hv as ->. simpl. lia.
  - injection Hv as Hid Hp Hq Hv. simpl. rewrite Hq, (IH q1 Hv). lia.
Qed.

(** What a returning [add_order] does to the queues: nothing when the arena
    is exhausted, otherwise the order joins the tail of the queue at its
    price. *)
Lemma add_order_queues s price quantity id s' r :
  side_wf s → 1 ≤ quantity < SIZE_MOD →
  add_order s price quantity id = Ok (s', r) →
  PRICE_MIN ≤ price ≤ PRICE_MAX ∧ side_wf s' ∧ is_bid_ s' = is_bid_ s ∧
  match r with
  | None => s' = s ∧ next_free_ (side_pool_ s) = None
  | Some h =>
    next_free_ (side_pool_ s) = Some h ∧
    queue_view s' (Z.to_nat (price - PRICE_MIN))
      = queue_view s (Z.to_nat (price - PRICE_MIN)) ++ [(id, price, quantity)] ∧
    (∀ i, i ≠ Z.to_nat (price - PRICE_MIN) → queue_view s' i = queue_view s i)
  end.
Proof.
  intros (qs & fl & Hinv) Hq Hadd.
  assert (PRICE_MIN ≤ price ≤ PRICE_MAX) as Hprice.
  { destruct (decide (PRICE_MIN ≤ price ≤ PRICE_MAX)) as [|Hbad]; [done|].
    unfold add_order in Hadd. by rewrite (price_to_index_invalid _ Hbad) in Hadd. }
  split; [done|].
  pose proof (add_order_spec qs fl s price quantity id Hinv Hprice Hq) as Hspec.
  pose proof (inv_perm _ _ _ Hinv) as Hperm.
  destruct fl as [|h fl'].
  - rewrite Hadd in Hspec. injection Hspec as -> ->.
    split; [by eexists _, _|]. split; [done|]. split; [done|].
    by eapply free_list_empty.
  - destruct Hspec as (q & s1 & Hqs & Hadd' & Hinv' & Hdir & Hnew & Hframe & Hlevels).
    rewrite Hadd in Hadd'. injection Hadd' as <- ->.
    split; [by eexists _, _|]. split; [done|].
    pose proof (inv_free _ _ _ Hinv) as Hch.
    apply chain_cons_inv in Hch as (Hnf & _).
    split; [done|].
    assert (∀ i qi, qs !! i = Some qi →
              order_view <$> orders_at (pool_ (side_pool_ s')) qi
              = order_view <$> orders_at (pool_ (side_pool_ s)) qi) as Hsame.
    { intros i qi Hqi.
      destruct (lookup_lt_is_Some_2 (levels_ s) i) as [level Hlv].
      { rewrite (inv_levels _ _ _ Hinv), <-(inv_queues _ _ _ Hinv).
        by eapply lookup_lt_Some. }
      apply orders_at_view_frame.
      - intros x o Hx Hpx.
        destruct (Hframe x o) as (o' & Ho' & Hi1 & Hi2 & Hi3); [|done|].
        + intros ->. eapply (queue_not_free _ _ Hperm); [done..|by left].
        + exists o'. split; [done|]. unfold order_view. congruence.
      - eapply order_ok_is_Some, (lv_orders _ _ _ _ (inv_level _ _ _ Hinv _ _ _ Hlv Hqi)). }
    pose proof (lookup_lt_Some _ _ _ Hqs) as Hidx.
    split.
    + unfold queue_view.
      rewrite (level_queue_ghost _ _ _ _ _ Hinv Hqs).
      rewrite (level_queue_ghost _ _ _ _ (q ++ [h]) Hinv')
        by (by apply list_lookup_insert_eq).
      rewrite orders_at_app, fmap_app, (Hsame _ _ Hqs).
      by rewrite (orders_at_cons _ _ _ _ Hnew).
    + intros i Hi. unfold queue_view.
      destruct (decide (i < NUM_LEVELS)%nat) as [Hlt|Hge].
      * destruct (lookup_lt_is_Some_2 qs i) as [qi Hqi].
        { by rewrite (inv_queues _ _ _ Hinv). }
        rewrite (level_queue_ghost _ _ _ _ _ Hinv Hqi).
        rewrite (level_queue_ghost _ _ _ _ qi Hinv')
          by (by rewrite list_lookup_insert_ne).
        by eapply Hsame.
      * rewrite !level_queue_out; [done|..].
        -- rewrite (inv_levels _ _ _ Hinv). lia.
        -- rewrite (inv_levels _ _ _ Hinv'). lia.
Qed.

(** ** Well-formedness of the reachable books *)

Lemma match_buy_eq : match_buy = match_loop (λ lp ip, lp <=? ip) (rescan false).
Proof. reflexivity. Qed.

Lemma match_sell_eq : match_sell = match_loop (λ lp ip, lp >=? ip) (rescan true).
Proof. reflexivity. Qed.

Lemma match_loop_wf crosses fuel s p q id ts s' q' ts' :
  side_wf s → is_size_t q →
  match_loop crosses (rescan (is_bid_ s)) fuel s p q id ts = Ok (s', q', ts') →
  side_wf s' ∧ is_bid_ s' = is_bid_ s ∧ is_size_t q'.
Proof.
  intros Hwf Hq Hrun.
  destruct (match_loop_rule crosses (is_bid_ s) id p (λ _ _ _, True)
              ltac:(by intros li _ _ ?) _ _ _ _ _ _ _ Hwf eq_refl Hq I Hrun)
    as (_ & ? & ? & ?).
  done.
Qed.

Lemma submit_order_wf fuel b price quantity id is_bid ts0 b' ts :
  book_wf b → is_size_t quantity →
  submit_order fuel b price quantity id is_bid ts0 = Ok (b', ts) →
  book_wf b'.
Proof.
  intros (Hb & Hbd & Ha & Had) Hq Hrun. unfold submit_order in Hrun.
  destruct (quantity =? 0); [by injection Hrun as <- <-|].
  destruct is_bid.
  - apply bind_Ok in Hrun as ([[asks' rem] ts1] & Hm & Hrun).
    rewrite match_buy_eq, <-Had in Hm.
    apply match_loop_wf in Hm as (Ha' & Had' & Hrem); [|done..].
    destruct (Z.ltb_spec 0 rem) as [Hpos|_].
    + apply bind_Ok in Hrun as ([bids' r] & Hadd & Hrun). injection Hrun as <- <-.
      apply add_order_queues in Hadd as (_ & Hb' & Hbd' & _);
        [|done|unfold is_size_t in Hrem; lia].
      split_and!; cbn [bids asks]; [done|congruence|done|congruence].
    + injection Hrun as <- <-. split_and!; cbn [bids asks]; [done..|congruence].
  - apply bind_Ok in Hrun as ([[bids' rem] ts1] & Hm & Hrun).
    rewrite match_sell_eq, <-Hbd in Hm.
    apply match_loop_wf in Hm as (Hb' & Hbd' & Hrem); [|done..].
    destruct (Z.ltb_spec 0 rem) as [Hpos|_].
    + apply bind_Ok in Hrun as ([asks' r] & Hadd & Hrun). injection Hrun as <- <-.
      apply add_order_queues in Hadd as (_ & Ha' & Had' & _);
        [|done|unfold is_size_t in Hrem; lia].
      split_and!; cbn [bids asks]; [done|congruence|done|congruence].
    + injection Hrun as <- <-. split_and!; cbn [bids asks]; [done|congruence|done..].
Qed.

Lemma reachable_wf b : reachable b → book_wf b.
Proof.
  induction 1 as [|fuel b price quantity id is_bid ts0 b' ts Hb IH Hp Hq Hid Hrun].
  - apply book_wf_init.
  - exact (submit_order_wf _ _ _ _ _ _ _ _ _ IH Hq Hrun).
Qed.

(** ** The trades of one matching call *)

Lemma sum_trades_app ts1 ts2 : sum_trades (ts1 ++ ts2) = sum_trades ts1 + sum_trades ts2.
Proof. induction ts1 as [|t ts1 IH]; simpl; [done|]. rewrite IH. lia. Qed.

Lemma match_loop_trades crosses s p q id ts fuel s' q' ts' :
  side_wf s → is_size_t q →
  match_loop crosses (rescan (is_bid_ s)) fuel s p q id ts = Ok (s', q', ts') →
  ∃ new, ts' = ts ++ new ∧ q = sum_trades new + q' ∧ 0 ≤ q' ∧
         Forall (trade_against crosses s p id) new.
Proof.
  intros Hwf Hq Hrun.
  pose (P := λ (s1 : OrderBookSide) (q1 : Z) (ts1 : list Trade),
    ∃ new, ts1 = ts ++ new ∧ q = sum_trades new + q1 ∧
           Forall (trade_against crosses s p id) new ∧
           ∀ i o, o ∈ level_queue s1 i → rested_as s i o).
  assert (∀ li, (li < NUM_LEVELS)%nat → crosses (level_price_of li) p = true →
                step_ok (is_bid_ s) id P li) as Hstep.
  { intros li Hli Hcross s1 q1 ts1 level m s2 q2 ts2 Hwf1 Hdir1 Hbest1 Hq1 Hlv Hfirst
           (new & -> & Hsum & Hall & Hsub) Hfill.
    destruct (fill_head_queues _ _ _ _ _ _ _ _ _ _ _ Hwf1 Hdir1 Hbest1 Hq1 Hlv Hfirst Hfill)
      as (maker & rest & Hqueue & _ & -> & -> & Hothers & Hli' & _).
    pose proof (level_queue_ok s1 li Hwf1) as Hok. rewrite Hqueue in Hok.
    apply Forall_cons in Hok as [[Hmq Hmp] _].
    destruct (Hsub li maker) as (o0 & Ho0 & Hid0 & Hp0 & Hq0).
    { rewrite Hqueue. by left. }
    exists (new ++ [mkTrade id (order_id_ maker) (price_ maker) (quantity_ maker `min` q1)]).
    split_and!.
    - by rewrite <-app_assoc.
    - rewrite sum_trades_app. simpl. lia.
    - apply Forall_app. split; [done|]. apply Forall_singleton.
      unfold trade_against. cbn [taker_order_id quantity price maker_order_id].
      split_and!; [done|lia|by rewrite Hmp|].
      exists li, o0. split_and!; [done..|lia].
    - intros i o Ho. destruct (decide (i = li)) as [->|Hne].
      + rewrite Hli' in Ho. destruct (decide (quantity_ maker ≤ q1)).
        * apply Hsub. rewrite Hqueue. by right.
        * apply elem_of_cons in Ho as [->|Ho]; [|apply Hsub; rewrite Hqueue; by right].
          exists o0. cbn. split_and!; [done..|lia].
      + rewrite Hothers in Ho by done. by apply Hsub. }
  assert (P s q ts) as Hinit.
  { exists []. rewrite app_nil_r. split_and!; [done|simpl; lia|constructor|].
    intros i o Ho. exists o. split_and!; [done..|lia]. }
  destruct (match_loop_rule crosses (is_bid_ s) id p P Hstep _ _ _ _ _ _ _
              Hwf eq_refl Hq Hinit Hrun)
    as ((new & -> & Hsum & Hall & _) & _ & _ & Hq').
  exists new. unfold is_size_t in Hq'. split_and!; [done..|lia|done].
Qed.

(** ** Submissions *)

Lemma match_opposite_eq fuel is_bid b price quantity id ts :
  match_opposite fuel is_bid b price quantity id ts
  = match_loop (crossing is_bid) (rescan (negb is_bid)) fuel
               (opposite_side is_bid b) price quantity id ts.
Proof. by destruct is_bid. Qed.

Lemma submit_order_unfold fuel b price quantity id is_bid ts0 :
  quantity ≠ 0 →
  submit_order fuel b price quantity id is_bid ts0
  = let* '(opp', rem, ts) := match_opposite fuel is_bid b price quantity id [] in
    if 0 <? rem then
      let* '(own', _) := add_order (own_side is_bid b) price rem id in
      Ok (with_sides is_bid own' opp', ts)
    else Ok (with_sides is_bid (own_side is_bid b) opp', ts).
Proof.
  intros Hq. unfold submit_order.
  destruct (Z.eqb_spec quantity 0) as [|_]; [done|]. by destruct is_bid.
Qed.

Lemma book_wf_sides is_bid b :
  book_wf b →
  side_wf (own_side is_bid b) ∧ is_bid_ (own_side is_bid b) = is_bid ∧
  side_wf (opposite_side is_bid b) ∧ is_bid_ (opposite_side is_bid b) = negb is_bid.
Proof. intros (? & ? & ? & ?). by destruct is_bid. Qed.

(** A returning submission, taken apart: the matching call on the opposite
    side, then the remainder handed to [add_order] on the own side. *)
Lemma submit_order_inv fuel b price quantity id is_bid ts0 b' ts :
  book_wf b → is_size_t quantity → quantity ≠ 0 →
  submit_order fuel b price quantity id is_bid ts0 = Ok (b', ts) →
  ∃ opp' rem own',
    match_opposite fuel is_bid b price quantity id [] = Ok (opp', rem, ts) ∧
    b' = with_sides is_bid own' opp' ∧
    quantity = sum_trades ts + rem ∧
    Forall (trade_against (crossing is_bid) (opposite_side is_bid b) price id) ts ∧
    (rem = 0 ∧ own' = own_side is_bid b
     ∨ 0 < rem < SIZE_MOD ∧ ∃ r, add_order (own_side is_bid b) price rem id = Ok (own', r)).
Proof.
  intros Hwf Hq Hq0 Hrun. rewrite submit_order_unfold in Hrun by done.
  apply bind_Ok in Hrun as ([[opp' rem] ts1] & Hm & Hrun).
  destruct (book_wf_sides is_bid b Hwf) as (Hown & Hownd & Hopp & Hoppd).
  pose proof Hm as Hm'. rewrite match_opposite_eq, <-Hoppd in Hm'.
  pose proof (match_loop_wf _ _ _ _ _ _ _ _ _ _ Hopp Hq Hm') as (_ & _ & Hrem).
  apply match_loop_trades in Hm' as (new & -> & Hsum & Hrem0 & Hall); [|done..].
  simpl in Hrun. exists opp', rem.
  destruct (Z.ltb_spec 0 rem) as [Hpos|Hz].
  - apply bind_Ok in Hrun as ([own' r] & Hadd & Hrun). injection Hrun as <- <-.
    exists own'. split_and!; [done..|]. right. unfold is_size_t in Hrem.
    split; [lia|by exists r].
  - injection Hrun as <- <-. exists (own_side is_bid b).
    split_and!; [done..|]. left. split; [lia|done].
Qed.

Lemma submit_order_returns fuel b price quantity id is_bid ts0 :
  book_wf b → is_size_t quantity → PRICE_MIN ≤ price ≤ PRICE_MAX → (FUEL ≤ fuel)%nat →
  ∃ b' ts, submit_order fuel b price quantity id is_bid ts0 = Ok (b', ts).
Proof.
  intros Hwf Hq Hprice Hfuel.
  destruct (decide (quantity = 0)) as [->|Hq0]; [by eexists _, _|].
  rewrite submit_order_unfold by done.
  destruct (book_wf_sides is_bid b Hwf) as ((qs & fl & Hown) & Hownd & Hopp & Hoppd).
  rewrite match_opposite_eq, <-Hoppd.
  destruct (match_loop_returns (crossing is_bid) _ price quantity id [] fuel Hopp Hq Hfuel)
    as ([[opp' rem] ts] & Hm).
  rewrite Hm. cbn [bind].
  pose proof (match_loop_wf _ _ _ _ _ _ _ _ _ _ Hopp Hq Hm) as (_ & _ & Hrem).
  destruct (Z.ltb_spec 0 rem) as [Hpos|Hz]; [|by eexists _, _].
  pose proof (add_order_spec qs fl _ price rem id Hown Hprice) as Hadd.
  destruct fl as [|h fl'].
  - rewrite Hadd by (unfold is_size_t in Hrem; lia). by eexists _, _.
  - destruct Hadd as (q & own' & _ & -> & _); [unfold is_size_t in Hrem; lia|].
    by eexists _, _.
Qed.

(** ** The quantity resting on a side *)

Lemma sum_over_levels_update (f g : nat → Z) (l : list nat) idx d :
  NoDup l → (∀ i, i ≠ idx → g i = f i) → g idx = f idx + d →
  foldr (λ i acc, g i + acc) 0 l
  = foldr (λ i acc, f i + acc) 0 l + (if decide (idx ∈ l) then d else 0).
Proof.
  intros Hnd Hother Hidx. induction l as [|i l IH].
  - cbn [foldr]. case_decide as Hin; [by apply elem_of_nil in Hin|lia].
  - apply NoDup_cons in Hnd as [Hi Hnd]. cbn [foldr]. rewrite IH by done.
    destruct (decide (i = idx)) as [->|Hne].
    + rewrite Hidx.
      destruct (decide (idx ∈ l)) as [Hin|Hnin]; [done|].
      rewrite decide_True by (by left). lia.
    + rewrite Hother by done.
      destruct (decide (idx ∈ l)) as [Hin|Hnin].
      * rewrite decide_True by (by right). lia.
      * rewrite decide_False; [lia|]. intros [?|?]%elem_of_cons; done.
Qed.

Lemma resting_quantity_add s s' idx d :
  length (levels_ s') = length (levels_ s) → (idx < length (levels_ s))%nat →
  (∀ i, i ≠ idx → queue_view s' i = queue_view s i) →
  queue_view s' idx = queue_view s idx ++ [d] →
  resting_quantity s' = resting_quantity s + d.2.
Proof.
  intros Hlen Hidx Hother Hnew. unfold resting_quantity. rewrite Hlen.
  rewrite (sum_over_levels_update (λ i, sum_quantities (level_queue s i))
             (λ i, sum_quantities (level_queue s' i)) _ idx d.2).
  - rewrite decide_True; [done|]. apply elem_of_seq. lia.
  - apply NoDup_seq.
  - intros i Hi. by apply sum_quantities_view, Hother.
  - destruct d as [[a b] c]. by eapply sum_quantities_view_app.
Qed.

(** ** Runs from the empty book *)

Lemma submit_order_fuel_mono fuel fuel' b p q id is_bid ts0 r :
  (fuel ≤ fuel')%nat →
  submit_order fuel b p q id is_bid ts0 = Ok r →
  submit_order fuel' b p q id is_bid ts0 = Ok r.
Proof.
  intros Hle Hrun. destruct (decide (q = 0)) as [->|Hq]; [done|].
  rewrite submit_order_unfold in Hrun |- * by done.
  apply bind_Ok in Hrun as (r1 & Hm & Hrun).
  rewrite match_opposite_eq in Hm |- *.
  by rewrite (match_loop_fuel_mono _ _ _ _ _ _ _ _ _ _ Hle Hm).
Qed.

Lemma valid_order_spec p q id is_bid :
  valid_order (p, q, id, is_bid) = true → is_size_t p ∧ is_size_t q ∧ is_size_t id.
Proof. unfold valid_order, is_size_t. lia. Qed.

Lemma foldl_run_Err fuel e orders : foldl (run_submit fuel) (Err e) orders = Err e.
Proof. induction orders as [|o orders IH]; [done|]. exact IH. Qed.

Lemma foldl_run_reachable orders b0 ts0 b ts :
  reachable b0 → forallb valid_order orders = true →
  foldl (run_submit FUEL) (Ok (b0, ts0)) orders = Ok (b, ts) →
  reachable b.
Proof.
  revert b0 ts0. induction orders as [|[[[p q] id] is_bid] orders IH];
    intros b0 ts0 Hb0 Hvalid Hrun.
  - by injection Hrun as <- <-.
  - cbn [forallb] in Hvalid. apply andb_true_iff in Hvalid as [Hv Hvalid].
    apply (valid_order_spec p q id is_bid) in Hv as (Hp & Hq & Hid).
    cbn [foldl] in Hrun.
    destruct (run_submit FUEL (Ok (b0, ts0)) (p, q, id, is_bid)) as [[b1 ts1]|e] eqn:H1.
    + eapply IH; [|done|exact Hrun].
      exact (reachable_submit FUEL b0 p q id is_bid [] b1 ts1 Hb0 Hp Hq Hid H1).
    + by rewrite foldl_run_Err in Hrun.
Qed.

Lemma book_of_reachable orders :
  forallb valid_order orders = true →
  (if run orders is Ok _ then true else false) = true →
  reachable (book_of orders).
Proof.
  intros Hvalid Hok. unfold book_of.
  destruct (run orders) as [[b ts]|] eqn:Hrun; [|done].
  by eapply foldl_run_reachable; [apply reachable_init|..].
Qed.

(** * Properties of the book *)

(** ** C8: a submission of quantity 0 *)

(** C8. For every book, price, identifier and side (and whatever the
    caller's trade vector held), [submit_order] with quantity 0 returns with
    no trade and the book it was given, both sides included. *)
Theorem zero_quantity_is_noop fuel b p id is_bid ts0 :
  submit_order fuel b p 0 id is_bid ts0 = Ok (b, []).
Proof. reflexivity. Qed.

(** ** C9: the scenario of [order_test] *)

(** C9. From the empty book, bid(900, 20, id 0) and bid(901, 10, id 1)
    trade nothing and leave the bid ladder 900:20, 901:10 with the cursor on
    the level of 901; ask(900, 15, id 2) then trades 10 at 901 against id 1
    and 5 at 900 against id 0, in that order, after which id 0 rests with 15
    at 900 and the ask side is empty. *)
Theorem order_test_scenario :
  ∃ b1 b2 b3,
    submit_order FUEL OrderBook_init 900 20 0 true [] = Ok (b1, []) ∧
    depth (bids b1) = [(900, 20)] ∧
    submit_order FUEL b1 901 10 1 true [] = Ok (b2, []) ∧
    depth (bids b2) = [(900, 20); (901, 10)] ∧
    level_price_of (best_price_index_ (bids b2)) = 901 ∧
    submit_order FUEL b2 900 15 2 false []
      = Ok (b3, [mkTrade 2 1 901 10; mkTrade 2 0 900 5]) ∧
    queue_view (bids b3) 100 = [(0, 900, 15)] ∧
    depth (bids b3) = [(900, 15)] ∧
    level_price_of (best_price_index_ (bids b3)) = 900 ∧
    depth (asks b3) = [] ∧ resting_quantity (asks b3) = 0 ∧
    best_price_index_ (asks b3) = NUM_LEVELS.
Proof.
  exists (book_of (take 1 scenario_orders)), (book_of (take 2 scenario_orders)),
         (book_of scenario_orders).
  split_and!; vm_compute; reflexivity.
Qed.

(** ** C6: an exhausted arena *)

Lemma add_order_exhausted s p q id :
  PRICE_MIN ≤ p ≤ PRICE_MAX → exhausted s → add_order s p q id = Ok (s, None).
Proof.
  intros Hp Hfull. destruct (price_to_index_valid p Hp) as (Hidx & Hlt & _).
  unfold add_order. rewrite Hidx. cbn [bind].
  replace (Z.to_nat (p - PRICE_MIN) <? NUM_LEVELS)%nat with true
    by (symmetry; by apply Nat.ltb_lt).
  unfold allocate. by rewrite Hfull.
Qed.

(** C6. When the matching phase of a submission (at a price within the
    ladder) leaves a remainder and the arena of the submitter's side has no
    free slot, [add_order] returns [nullptr] and the side it was called on
    unchanged, and [submit_order] returns the trades of the matching phase
    as they are, with the opposite side as matching left it and the own side
    as it was: ladder, aggregates, queues and cursor. *)
Theorem exhausted_arena_drops_remainder fuel b p q id is_bid ts0 opp' rem ts :
  q ≠ 0 → PRICE_MIN ≤ p ≤ PRICE_MAX →
  exhausted (own_side is_bid b) →
  match_opposite fuel is_bid b p q id [] = Ok (opp', rem, ts) → 0 < rem →
  add_order (own_side is_bid b) p rem id = Ok (own_side is_bid b, None) ∧
  submit_order fuel b p q id is_bid ts0
    = Ok (with_sides is_bid (own_side is_bid b) opp', ts).
Proof.
  intros Hq Hp Hfull Hm Hrem.
  pose proof (add_order_exhausted _ p rem id Hp Hfull) as Hadd.
  split; [done|].
  rewrite submit_order_unfold by done. rewrite Hm. cbn [bind].
  destruct (Z.ltb_spec 0 rem); [|lia]. by rewrite Hadd.
Qed.

Lemma exhausted_arena_witness :
  submit_order FUEL (book_of full_orders) 950 8 1001 true []
  = Ok (with_sides true (own_side true (book_of full_orders))
                   (asks (book_of (full_orders ++ [(950, 8, 1001, true)]))),
        [mkTrade 1001 1000 950 5]).
Proof.
  refine (proj2 (exhausted_arena_drops_remainder FUEL (book_of full_orders) 950 8 1001 true []
            (asks (book_of (full_orders ++ [(950, 8, 1001, true)]))) 3
            [mkTrade 1001 1000 950 5] _ _ _ _ _)).
  - lia.
  - unfold PRICE_MIN, PRICE_MAX. lia.
  - vm_compute. reflexivity.
  - vm_compute. reflexivity.
  - lia.
Defined.

(** ** C5: a price outside the ladder *)

(** C5, evaluated. With an ask of 5 resting at 900, a bid of 5 at 1300 (above
    [PRICE_MAX]) returns normally with a trade of 5 at 900 and an ask side
    that lost the order; a bid of 10 at 1300 trades the same 5 and only then
    fails the assertion of [price_to_index], in [add_order]. *)
Theorem out_of_range_price_is_matched :
  let b := book_of [(900, 5, 0, false)] in
  (∃ b', submit_order FUEL b 1300 5 1 true [] = Ok (b', [mkTrade 1 0 900 5]) ∧
         resting_quantity (asks b) = 5 ∧ resting_quantity (asks b') = 0) ∧
  (∃ asks', match_buy FUEL (asks b) 1300 10 1 [] = Ok (asks', 5, [mkTrade 1 0 900 5]) ∧
            resting_quantity (asks') = 0 ∧
            add_order (bids b) 1300 5 1 = Err AssertionFailed ∧
            submit_order FUEL b 1300 10 1 true [] = Err AssertionFailed).
Proof.
  split.
  - eexists (mkOrderBook _ _). split_and!; vm_compute; reflexivity.
  - eexists (mkOrderBookSide _ _ _ _). split_and!; vm_compute; reflexivity.
Qed.

(** ** C1: conservation of the incoming quantity *)

Lemma full_orders_reachable : reachable (book_of full_orders).
Proof. apply book_of_reachable; vm_compute; reflexivity. Qed.

(** C1 as stated fails. With the bid arena full (1000 resting bids), a
    further bid of 1 at 900 finds no ask to trade with and no slot to rest
    in: it returns no trade and rests nothing, and 1 is not 0 + 0. *)
Lemma conservation_fails_on_full_arena :
  reachable (book_of full_orders) ∧
  ¬ conservation FUEL (book_of full_orders) 900 1 1001 true.
Proof.
  split; [apply full_orders_reachable|].
  intros H.
  specialize (H [] (book_of (full_orders ++ [(900, 1, 1001, true)])) []).
  assert (newly_rested true (book_of full_orders)
            (book_of (full_orders ++ [(900, 1, 1001, true)])) = 0) as Hn
    by (vm_compute; reflexivity).
  rewrite Hn in H. discriminate H. vm_compute. reflexivity.
Qed.

(** C1, amended. A returning submission of [q] on a reachable book trades
    [q - rem] in total, where [rem] is the remainder its matching phase
    returns. When the arena of the submitter's side has a free slot the
    newly rested quantity is [rem] (0 for a full fill) and the incoming
    quantity is the traded plus the newly rested quantity; when the arena is
    exhausted nothing is newly rested and [rem] is dropped. Submissions at
    a price within the ladder do return. *)
Theorem conservation_with_dropped_remainder fuel b p q id is_bid ts0 :
  reachable b → is_size_t q →
  (∀ b' ts,
     submit_order fuel b p q id is_bid ts0 = Ok (b', ts) →
     ∃ rem, 0 ≤ rem ∧ q = sum_trades ts + rem ∧
       (¬ exhausted (own_side is_bid b) →
          newly_rested is_bid b b' = rem ∧ q = sum_trades ts + newly_rested is_bid b b') ∧
       (exhausted (own_side is_bid b) → newly_rested is_bid b b' = 0)) ∧
  (PRICE_MIN ≤ p ≤ PRICE_MAX → (FUEL ≤ fuel)%nat →
   ∃ b' ts, submit_order fuel b p q id is_bid ts0 = Ok (b', ts)).
Proof.
  intros Hb Hq. apply reachable_wf in Hb as Hwf.
  split; [|by intros; apply submit_order_returns].
  intros b' ts Hrun.
  destruct (decide (q = 0)) as [->|Hq0].
  { injection Hrun as <- <-. exists 0. unfold newly_rested. simpl.
    split_and!; [done..| |]; intros; lia. }
  destruct (submit_order_inv _ _ _ _ _ _ _ _ _ Hwf Hq Hq0 Hrun)
    as (opp' & rem & own' & Hm & -> & Hsum & _ & Hown).
  exists rem.
  assert (own_side is_bid (with_sides is_bid own' opp') = own') as Heq
    by (by destruct is_bid).
  unfold newly_rested. rewrite Heq.
  destruct Hown as [[-> ->]|[Hrem (r & Hadd)]].
  { split_and!; [done..| |]; intros; lia. }
  destruct (book_wf_sides is_bid b Hwf) as (Hown & _).
  pose proof Hown as (qs & fl & Hinv).
  apply add_order_queues in Hadd as (Hprice & (qs' & fl' & Hinv') & _ & Hr); [|done|lia].
  destruct r as [h|].
  - destruct Hr as (Hfree & Hnew & Hother).
    destruct (price_to_index_valid p Hprice) as (_ & Hlt & _).
    rewrite (resting_quantity_add (own_side is_bid b) own' (Z.to_nat (p - PRICE_MIN))
               (id, p, rem));
      [|by rewrite (inv_levels _ _ _ Hinv), (inv_levels _ _ _ Hinv')
       |by rewrite (inv_levels _ _ _ Hinv)|done..].
    unfold exhausted. simpl. split_and!; [lia|done| |]; intros; [lia|congruence].
  - destruct Hr as (-> & Hfull). unfold exhausted.
    split_and!; [lia|done| |]; intros; [done|lia].
Qed.

Lemma conservation_witness :
  (∀ b' ts,
     submit_order FUEL (book_of full_orders) 950 8 1001 true [] = Ok (b', ts) →
     ∃ rem, 0 ≤ rem ∧ 8 = sum_trades ts + rem ∧
       (¬ exhausted (own_side true (book_of full_orders)) →
          newly_rested true (book_of full_orders) b' = rem ∧
          8 = sum_trades ts + newly_rested true (book_of full_orders) b') ∧
       (exhausted (own_side true (book_of full_orders)) →
          newly_rested true (book_of full_orders) b' = 0)) ∧
  (PRICE_MIN ≤ 950 ≤ PRICE_MAX → (FUEL ≤ FUEL)%nat →
   ∃ b' ts, submit_order FUEL (book_of full_orders) 950 8 1001 true [] = Ok (b', ts)).
Proof.
  apply (conservation_with_dropped_remainder FUEL (book_of full_orders) 950 8 1001 true []).
  - apply book_of_reachable; vm_compute; reflexivity.
  - unfold is_size_t, SIZE_MOD. lia.
Defined.

(** ** C7: the aggregate quantity of a level *)

Lemma overflow_orders_reachable : reachable (book_of overflow_orders).
Proof. apply book_of_reachable; vm_compute; reflexivity. Qed.

(** C7 as stated fails. After two bids at 900 of [2^64 - 1] and 1, the
    aggregate of the level has wrapped to 0 while its queue holds both
    orders. *)
Lemma aggregate_wraps_to_zero :
  reachable (book_of overflow_orders) ∧
  ¬ (∀ i lv, levels_ (bids (book_of overflow_orders)) !! i = Some lv →
             aggregate_exact (bids (book_of overflow_orders)) i lv).
Proof.
  split; [apply overflow_orders_reachable|].
  intros H.
  destruct (H 100%nat (mkPriceLevel 900 0 (Some 0%nat) (Some 1%nat))) as [_ [Hz _]].
  - vm_compute. reflexivity.
  - by specialize (Hz eq_refl).
Qed.

Lemma aggregate_wrapped_wf s i lv :
  side_wf s → levels_ s !! i = Some lv →
  aggregate_wrapped s i lv ∧
  (sum_quantities (level_queue s i) < SIZE_MOD → aggregate_exact s i lv).
Proof.
  intros (qs & fl & Hinv) Hlv.
  destruct (lookup_lt_is_Some_2 qs i) as [q Hq].
  { rewrite (inv_queues _ _ _ Hinv), <-(inv_levels _ _ _ Hinv). by eapply lookup_lt_Some. }
  pose proof (inv_level _ _ _ Hinv _ _ _ Hlv Hq) as [Hp Hch Hl Ht Ho].
  rewrite <-(level_queue_ghost _ _ _ _ _ Hinv Hq) in Ht.
  assert (first_ lv = None ↔ level_queue s i = []) as Hempty.
  { rewrite (level_queue_ghost _ _ _ _ _ Hinv Hq). split.
    - intros Hf. rewrite Hf in Hch. by apply chain_None_inv in Hch as ->.
    - intros Hnil. destruct q as [|h q]; [by apply chain_nil_inv in Hch|].
      apply Forall_cons in Ho as [(o & Hoh & _) _].
      by rewrite (orders_at_cons _ _ _ _ Hoh) in Hnil. }
  assert (first_ lv = None → total_quantity_ lv = 0) as Hzero.
  { intros Hf. apply Hempty in Hf. by rewrite Ht, Hf. }
  split; [done|]. intros Hsmall.
  pose proof (sum_quantities_nonneg _ _ _ Ho) as Hnn.
  rewrite <-(level_queue_ghost _ _ _ _ _ Hinv Hq) in Hnn.
  rewrite wrap_small in Ht by lia.
  split; [done|]. split; [|done]. intros Hz.
  destruct q as [|h q]; [by apply chain_nil_inv in Hch|].
  pose proof (sum_quantities_pos _ _ _ Ho ltac:(done)) as Hpos.
  rewrite <-(level_queue_ghost _ _ _ _ _ Hinv Hq) in Hpos. lia.
Qed.

(** C7, amended. In every reachable book and for every level of either
    side, [total_quantity_] is the sum of the remaining quantities of the
    queued orders reduced modulo [2^64]; the queue is empty exactly when
    [first_] is null, and then the aggregate is 0. Whenever the sum is below
    [2^64] the aggregate is the sum itself and is 0 exactly when the queue is
    empty. *)
Theorem aggregate_is_wrapped_sum b :
  reachable b →
  ∀ s, s = bids b ∨ s = asks b →
  ∀ i lv, levels_ s !! i = Some lv →
    aggregate_wrapped s i lv ∧
    (sum_quantities (level_queue s i) < SIZE_MOD → aggregate_exact s i lv).
Proof.
  intros Hb s Hs i lv Hlv. apply reachable_wf in Hb as (Hbids & _ & Hasks & _).
  apply aggregate_wrapped_wf; [|done]. by destruct Hs as [->| ->].
Qed.

Lemma aggregate_witness :
  aggregate_wrapped (bids (book_of scenario_orders)) 100
    (mkPriceLevel 900 15 (Some 0%nat) (Some 0%nat)) ∧
  (sum_quantities (level_queue (bids (book_of scenario_orders)) 100) < SIZE_MOD →
   aggregate_exact (bids (book_of scenario_orders)) 100
     (mkPriceLevel 900 15 (Some 0%nat) (Some 0%nat))).
Proof.
  apply (aggregate_is_wrapped_sum (book_of scenario_orders)).
  - apply book_of_reachable; vm_compute; reflexivity.
  - by left.
  - vm_compute. reflexivity.
Defined.

(** ** C2: the best-price cursor *)

Lemma hidden_orders_reachable : reachable (book_of hidden_orders).
Proof. apply book_of_reachable; vm_compute; reflexivity. Qed.

(** C2 as stated fails, whether a level counts as non-empty by its
    aggregate or by its queue. After two bids at 900 of [2^64 - 1] and 1 the
    bid cursor is on the level of 900, whose aggregate has wrapped to 0: the
    cursor is not the sentinel, and not a level with a non-zero aggregate.
    With a bid at 850 before them and a bid at 901 after, an ask that fills
    the bid at 901 sends the rescan past the level of 900 (aggregate 0, two
    orders queued) down to 850: the cursor is not the highest level with a
    queue. *)
Lemma cursor_on_wrapped_level :
  (reachable (book_of overflow_orders) ∧
   ¬ cursor_exact true (bids (book_of overflow_orders))) ∧
  (reachable (book_of hidden_orders) ∧
   ¬ cursor_exact_queue true (bids (book_of hidden_orders))).
Proof.
  split; (split; [first [apply overflow_orders_reachable|apply hidden_orders_reachable]|]).
  - intros [[Hc _]|(_ & (lv & Hlv & Hne) & _)].
    + vm_compute in Hc. discriminate Hc.
    + vm_compute in Hlv. injection Hlv as <-. by apply Hne.
  - intros [[Hc _]|(_ & _ & Hbetter)].
    + vm_compute in Hc. discriminate Hc.
    + specialize (Hbetter 100%nat). vm_compute in Hbetter.
      discriminate Hbetter. lia.
Qed.

(** The second book of [cursor_on_wrapped_level], observed. *)
Example cursor_skips_wrapped_level :
  let s := bids (book_of hidden_orders) in
  level_price_of (best_price_index_ s) = 850 ∧
  queue_view s 100 = [(1, 900, SIZE_MOD - 1); (2, 900, 1)] ∧
  depth s = [(850, 1)].
Proof. split_and!; vm_compute; reflexivity. Qed.

Lemma cursor_queued_wf s :
  side_wf s →
  cursor_queued (is_bid_ s) s ∧
  (sum_quantities (level_queue s (best_price_index_ s)) < SIZE_MOD →
   cursor_exact (is_bid_ s) s).
Proof.
  intros Hwf. pose proof Hwf as (qs & fl & Hinv).
  destruct (inv_cursor _ _ _ Hinv) as [[Hc Hz]|(Hc & (q & Hq & Hne) & Hz)].
  { split; [by left|]. intros _. by left. }
  destruct (lookup_lt_is_Some_2 (levels_ s) (best_price_index_ s)) as [lv Hlv].
  { by rewrite (inv_levels _ _ _ Hinv). }
  destruct (aggregate_wrapped_wf s _ lv Hwf Hlv) as [(Ht & Hempty & _) Hexact].
  pose proof (lv_chain _ _ _ _ (inv_level _ _ _ Hinv _ _ _ Hlv Hq)) as Hch.
  assert (level_queue s (best_price_index_ s) ≠ []) as Hqueue.
  { intros Hnil. apply Hempty in Hnil. rewrite Hnil in Hch.
    by apply chain_None_inv in Hch. }
  split; [by right|]. intros Hsmall. right. split; [done|]. split; [|done].
  exists lv. split; [done|]. intros Hz0.
  destruct (Hexact Hsmall) as [_ [Hf _]]. apply Hqueue, Hempty, Hf, Hz0.
Qed.

(** C2, amended. In every reachable book the cursor of a side is the
    sentinel [NUM_LEVELS] over a ladder of zero aggregates, or the index of
    a level whose queue is not empty, every better level (higher for bids,
    lower for asks) having a zero aggregate. It is the true best level with a
    non-zero aggregate whenever the quantities queued at the cursor add up
    to less than [2^64]. *)
Theorem cursor_is_best_queued_level b :
  reachable b →
  (cursor_queued true (bids b) ∧
   (sum_quantities (level_queue (bids b) (best_price_index_ (bids b))) < SIZE_MOD →
    cursor_exact true (bids b))) ∧
  (cursor_queued false (asks b) ∧
   (sum_quantities (level_queue (asks b) (best_price_index_ (asks b))) < SIZE_MOD →
    cursor_exact false (asks b))).
Proof.
  intros Hb. apply reachable_wf in Hb as (Hbids & Hbd & Hasks & Had).
  rewrite <-Hbd at 1 2. rewrite <-Had at 1 2.
  split; by apply cursor_queued_wf.
Qed.

Lemma cursor_witness :
  (cursor_queued true (bids (book_of scenario_orders)) ∧
   (sum_quantities (level_queue (bids (book_of scenario_orders))
                                (best_price_index_ (bids (book_of scenario_orders))))
    < SIZE_MOD →
    cursor_exact true (bids (book_of scenario_orders)))) ∧
  (cursor_queued false (asks (book_of scenario_orders)) ∧
   (sum_quantities (level_queue (asks (book_of scenario_orders))
                                (best_price_index_ (asks (book_of scenario_orders))))
    < SIZE_MOD →
    cursor_exact false (asks (book_of scenario_orders)))).
Proof.
  apply (cursor_is_best_queued_level (book_of scenario_orders)).
  apply book_of_reachable; vm_compute; reflexivity.
Defined.

(** ** C10: positive resting quantities and termination *)

Lemma match_loop_positive_trades crosses s p q id ts fuel :
  side_wf s → is_size_t q → (FUEL ≤ fuel)%nat →
  ∃ s' q' new,
    match_loop crosses (rescan (is_bid_ s)) fuel s p q id ts = Ok (s', q', ts ++ new) ∧
    Forall (λ t, 1 ≤ quantity t) new ∧ q = sum_trades new + q' ∧ 0 ≤ q'.
Proof.
  intros Hwf Hq Hfuel.
  destruct (match_loop_returns crosses s p q id ts fuel Hwf Hq Hfuel)
    as ([[s' q'] ts'] & Hrun).
  destruct (match_loop_trades _ _ _ _ _ _ _ _ _ _ Hwf Hq Hrun)
    as (new & -> & Hsum & Hq' & Hall).
  exists s', q', new. split_and!; [done| |done..].
  eapply Forall_impl; [done|]. by intros t (_ & ? & _).
Qed.

(** C10. In every reachable book every order queued at a level of either
    side has a remaining quantity of at least 1. On such a book [match_buy]
    (on the ask side) and [match_sell] (on the bid side) return for every
    incoming price, quantity and identifier once the fuel covers the arena
    ([FUEL] tests of a loop condition); every trade they append has a
    quantity of at least 1, and the incoming quantity is the traded quantity
    plus the returned remainder, so every trade strictly decreases it. *)
Theorem resting_positive_and_matching_returns b :
  reachable b →
  (∀ i, Forall (λ o, 1 ≤ quantity_ o) (level_queue (bids b) i)) ∧
  (∀ i, Forall (λ o, 1 ≤ quantity_ o) (level_queue (asks b) i)) ∧
  ∀ fuel p q id ts,
    is_size_t q → (FUEL ≤ fuel)%nat →
    (∃ s' q' new,
       match_buy fuel (asks b) p q id ts = Ok (s', q', ts ++ new) ∧
       Forall (λ t, 1 ≤ quantity t) new ∧ q = sum_trades new + q' ∧ 0 ≤ q') ∧
    (∃ s' q' new,
       match_sell fuel (bids b) p q id ts = Ok (s', q', ts ++ new) ∧
       Forall (λ t, 1 ≤ quantity t) new ∧ q = sum_trades new + q' ∧ 0 ≤ q').
Proof.
  intros Hb. apply reachable_wf in Hb as (Hbids & Hbd & Hasks & Had).
  split_and!.
  - intros i. eapply Forall_impl; [by apply level_queue_ok|]. by intros o [[? _] _].
  - intros i. eapply Forall_impl; [by apply level_queue_ok|]. by intros o [[? _] _].
  - intros fuel p q id ts Hq Hfuel. split.
    + rewrite match_buy_eq, <-Had. by apply match_loop_positive_trades.
    + rewrite match_sell_eq, <-Hbd. by apply match_loop_positive_trades.
Qed.

Lemma matching_returns_witness :
  ∃ s' q' new,
    match_sell FUEL (bids (book_of scenario_orders)) 900 15 7 [] = Ok (s', q', [] ++ new) ∧
    Forall (λ t, 1 ≤ quantity t) new ∧ 15 = sum_trades new + q' ∧ 0 ≤ q'.
Proof.
  refine (proj2 (proj2 (proj2 (resting_positive_and_matching_returns
            (book_of scenario_orders) _)) FUEL 900 15 7 [] _ _)).
  - apply book_of_reachable; vm_compute; reflexivity.
  - unfold is_size_t, SIZE_MOD. lia.
  - lia.
Defined.

(** ** C4: trades execute at the maker's price *)

Lemma trade_against_maker_priced is_bid b p id t :
  trade_against (crossing is_bid) (opposite_side is_bid b) p id t →
  maker_priced is_bid b p t.
Proof.
  intros (_ & _ & Hcross & i & o & Ho & Hid & Hp & _).
  split; [by eauto|]. unfold crossing in Hcross. destruct is_bid; lia.
Qed.

(** C4. On a reachable book every trade emitted by the matching phase of a
    submission, and so every trade a returning [submit_order] hands back,
    carries the identifier and the price of an order that rested on the
    opposite side when the call started (the maker), whatever the submitted
    price; that price is at most the price of an incoming bid and at least
    the price of an incoming ask. *)
Theorem trades_execute_at_maker_price fuel b p q id is_bid ts0 :
  reachable b → is_size_t q →
  (∀ opp' rem ts,
     match_opposite fuel is_bid b p q id [] = Ok (opp', rem, ts) →
     Forall (maker_priced is_bid b p) ts) ∧
  (∀ b' ts,
     submit_order fuel b p q id is_bid ts0 = Ok (b', ts) →
     Forall (maker_priced is_bid b p) ts).
Proof.
  intros Hb Hq. apply reachable_wf in Hb as Hwf.
  destruct (book_wf_sides is_bid b Hwf) as (_ & _ & Hopp & Hoppd).
  assert (∀ opp' rem ts,
            match_opposite fuel is_bid b p q id [] = Ok (opp', rem, ts) →
            Forall (maker_priced is_bid b p) ts) as Hmatch.
  { intros opp' rem ts Hm. rewrite match_opposite_eq, <-Hoppd in Hm.
    apply match_loop_trades in Hm as (new & -> & _ & _ & Hall); [|done..].
    eapply Forall_impl; [done|]. intros t. apply trade_against_maker_priced. }
  split; [done|]. intros b' ts Hrun.
  destruct (decide (q = 0)) as [->|Hq0]; [by injection Hrun as <- <-|].
  destruct (submit_order_inv _ _ _ _ _ _ _ _ _ Hwf Hq Hq0 Hrun)
    as (opp' & rem & own' & Hm & _). by eapply Hmatch.
Qed.

Lemma maker_price_witness :
  Forall (maker_priced false (book_of (take 2 scenario_orders)) 900)
         [mkTrade 2 1 901 10; mkTrade 2 0 900 5].
Proof.
  refine (proj2 (trades_execute_at_maker_price FUEL (book_of (take 2 scenario_orders))
                   900 15 2 false [] _ _)
                (book_of scenario_orders) [mkTrade 2 1 901 10; mkTrade 2 0 900 5] _).
  - apply book_of_reachable; vm_compute; reflexivity.
  - unfold is_size_t, SIZE_MOD. lia.
  - vm_compute. reflexivity.
Defined.

(** ** C3: price-time priority *)

Lemma match_side_eq is_bid fuel s p q id ts :
  match_side is_bid fuel s p q id ts
  = match_loop (crossing is_bid) (rescan (negb is_bid)) fuel s p q id ts.
Proof. by destruct is_bid. Qed.

Lemma level_queue_first qs fl s i lv o rest :
  side_inv qs fl s → levels_ s !! i = Some lv → level_queue s i = o :: rest →
  ∃ m, first_ lv = Some m ∧ pool_ (side_pool_ s) !! m = Some o.
Proof.
  intros Hinv Hlv Hqueue.
  destruct (lookup_lt_is_Some_2 qs i) as [q Hq].
  { rewrite (inv_queues _ _ _ Hinv), <-(inv_levels _ _ _ Hinv). by eapply lookup_lt_Some. }
  pose proof (inv_level _ _ _ Hinv _ _ _ Hlv Hq) as [_ Hch _ _ Ho].
  rewrite (level_queue_ghost _ _ _ _ _ Hinv Hq) in Hqueue.
  destruct q as [|m q]; [done|].
  apply chain_cons_inv in Hch as (Hf & om & Hm & _).
  rewrite (orders_at_cons _ _ _ _ Hm) in Hqueue. injection Hqueue as -> _.
  by exists m.
Qed.

(** The first thing a matching call does on a crossing best level whose
    head it can fill: trade the whole head, release it, and go on from
    there. *)
Lemma match_loop_fills_head crosses s p q id ts fuel A rest r :
  side_wf s → is_size_t q →
  level_queue s (best_price_index_ s) = A :: rest → rest ≠ [] →
  crosses (level_price_of (best_price_index_ s)) p = true →
  quantity_ A ≤ q →
  match_loop crosses (rescan (is_bid_ s)) fuel s p q id ts = Ok r →
  ∃ s1 a,
    level_queue s1 (best_price_index_ s) = rest ∧
    (∀ i, i ≠ best_price_index_ s → level_queue s1 i = level_queue s i) ∧
    pool_ (side_pool_ s) !! a = Some A ∧
    pool_ (side_pool_ s1) !! a
      = Some (mkOrder (order_id_ A) (price_ A) 0 (next_free_ (side_pool_ s))) ∧
    next_free_ (side_pool_ s1) = Some a ∧
    match_loop crosses (rescan (is_bid_ s)) fuel s1 p (q - quantity_ A) id
               (ts ++ [mkTrade id (order_id_ A) (price_ A) (quantity_ A)]) = Ok r.
Proof.
  intros Hwf Hq Hqueue Hrest Hcross HA Hrun.
  pose proof Hwf as (qs & fl & Hinv).
  pose proof (level_queue_ok s (best_price_index_ s) Hwf) as Hok.
  rewrite Hqueue in Hok. apply Forall_cons in Hok as [[HAq _] _].
  assert (0 < q < SIZE_MOD) as Hq' by (unfold is_size_t in Hq; lia).
  destruct (lookup_lt_is_Some_2 (levels_ s) (best_price_index_ s)) as [lv Hlv].
  { destruct (decide (best_price_index_ s < length (levels_ s))%nat); [done|].
    rewrite level_queue_out in Hqueue; [done|lia]. }
  pose proof (lookup_lt_Some _ _ _ Hlv) as Hlt.
  rewrite (inv_levels _ _ _ Hinv) in Hlt.
  destruct (level_queue_first _ _ _ _ _ _ _ Hinv Hlv Hqueue) as (a & Hfirst & Ha).
  assert (∀ s0 lv0, side_wf s0 → levels_ s0 !! best_price_index_ s = Some lv0 →
                    level_price_ lv0 = level_price_of (best_price_index_ s)) as Hprice.
  { intros s0 lv0 (qs0 & fl0 & Hinv0) Hlv0.
    destruct (lookup_lt_is_Some_2 qs0 (best_price_index_ s)) as [q0 Hq0].
    { by rewrite (inv_queues _ _ _ Hinv0). }
    apply (lv_price _ _ _ _ (inv_level _ _ _ Hinv0 _ _ _ Hlv0 Hq0)). }
  destruct fuel as [|fuel]; [done|].
  cbn [match_loop] in Hrun.
  destruct (Z.ltb_spec 0 q) as [_|]; [|lia]. cbn [negb] in Hrun.
  destruct (Nat.eqb_spec (best_price_index_ s) NUM_LEVELS) as [|_]; [lia|].
  unfold deref in Hrun. rewrite Hlv in Hrun. cbn [bind] in Hrun.
  rewrite (Hprice s lv Hwf Hlv), Hcross in Hrun. cbn [negb] in Hrun.
  apply bind_Ok in Hrun as ([[s2 q2] ts2] & Hdrain & Hrun).
  cbn [drain_level] in Hdrain.
  destruct (Z.ltb_spec 0 q) as [_|]; [|lia]. cbn [negb] in Hdrain.
  unfold deref in Hdrain. rewrite Hlv in Hdrain. cbn [bind] in Hdrain.
  rewrite Hfirst in Hdrain.
  apply bind_Ok in Hdrain as ([[s1 q1] ts1] & Hfill & Hdrain).
  pose proof (fill_head_spec qs fl s _ lv a q id ts Hinv eq_refl Hlv Hfirst Hq')
    as (maker & qt & s1' & _ & Hm & Hfill' & Hdir1 & _ & Hcase).
  rewrite Ha in Hm. injection Hm as <-.
  rewrite Hfill in Hfill'. injection Hfill' as <- -> ->.
  destruct (decide (quantity_ A ≤ q)) as [_|]; [|done].
  destruct Hcase as (Hinv1 & _ & _).
  assert (side_wf s1) as Hwf1 by (by eexists _, _).
  destruct (fill_head_queues _ _ _ _ _ _ _ _ _ _ _ Hwf eq_refl eq_refl Hq' Hlv Hfirst Hfill)
    as (maker & rest' & Hqueue' & Hm & _ & _ & Hothers & Hli & Hfree & Hbest).
  rewrite Hqueue in Hqueue'. injection Hqueue' as <- <-.
  rewrite decide_True in Hli by done.
  destruct (Hfree HA) as (Ha1 & Hnf1).
  specialize (Hbest (or_introl Hrest)).
  rewrite Z.min_l in Hdrain by done.
  exists s1, a. split_and!; [done..|].
  destruct (Z.ltb_spec 0 (q - quantity_ A)) as [Hpos|Hzero].
  - cbn [match_loop].
    destruct (Z.ltb_spec 0 (q - quantity_ A)) as [_|]; [|lia]. cbn [negb].
    rewrite Hbest.
    destruct (Nat.eqb_spec (best_price_index_ s) NUM_LEVELS) as [|_]; [lia|].
    destruct (lookup_lt_is_Some_2 (levels_ s1) (best_price_index_ s)) as [lv1 Hlv1].
    { by rewrite (inv_levels _ _ _ Hinv1). }
    unfold deref. rewrite Hlv1. cbn [bind].
    rewrite (Hprice s1 lv1 Hwf1 Hlv1), Hcross. cbn [negb].
    rewrite <-Hdir1 in Hdrain.
    rewrite <-Hdir1.
    rewrite (drain_level_fuel_mono _ fuel (S fuel) _ _ _ _ _ _ ltac:(lia) Hdrain).
    cbn [bind]. by rewrite Hdir1.
  - assert (q - quantity_ A = 0) as Hz by lia. rewrite Hz in *.
    destruct fuel as [|fuel]; [done|].
    rewrite drain_level_done in Hdrain. injection Hdrain as <- <- <-.
    by rewrite match_loop_done in Hrun |- *.
Qed.

Lemma drop_cons_inv {A} (l : list A) k x rest :
  drop k l = x :: rest → drop (S k) l = rest.
Proof.
  intros H. replace (S k) with (k + 1)%nat by lia.
  by rewrite <-drop_drop, H.
Qed.

(** Over a whole matching call every queue is consumed from its head. *)
Lemma match_loop_fifo crosses s p q id ts fuel s' q' ts' :
  side_wf s → is_size_t q →
  match_loop crosses (rescan (is_bid_ s)) fuel s p q id ts = Ok (s', q', ts') →
  ∀ i, consumed_from_head (level_queue s i) (level_queue s' i).
Proof.
  intros Hwf Hq Hrun.
  pose (P := λ (s1 : OrderBookSide) (q1 : Z) (ts1 : list Trade),
    ∀ i, (∃ k, level_queue s1 i = drop k (level_queue s i))
         ∨ (q1 = 0 ∧ ∃ k o rest left,
              drop k (level_queue s i) = o :: rest ∧ 1 ≤ left < quantity_ o ∧
              level_queue s1 i = set_quantity o left :: rest)).
  assert (∀ li, (li < NUM_LEVELS)%nat → crosses (level_price_of li) p = true →
                step_ok (is_bid_ s) id P li) as Hstep.
  { intros li Hli Hcross s1 q1 ts1 level m s2 q2 ts2 Hwf1 Hdir1 Hbest1 Hq1 Hlv Hfirst
           HP Hfill.
    destruct (fill_head_queues _ _ _ _ _ _ _ _ _ _ _ Hwf1 Hdir1 Hbest1 Hq1 Hlv Hfirst Hfill)
      as (maker & rest & Hqueue & _ & -> & _ & Hothers & Hli' & _).
    pose proof (level_queue_ok s1 li Hwf1) as Hok. rewrite Hqueue in Hok.
    apply Forall_cons in Hok as [[Hmq _] _].
    intros i. destruct (HP i) as [(k & Hk)|[Hz _]]; [|lia].
    destruct (decide (i = li)) as [->|Hne].
    - rewrite Hqueue in Hk. rewrite Hli'.
      destruct (decide (quantity_ maker ≤ q1)) as [Hle|Hgt].
      + left. exists (S k). symmetry. by eapply drop_cons_inv.
      + right. split; [lia|]. exists k, maker, rest, (quantity_ maker - q1).
        split_and!; [done | lia .. | done].
    - left. exists k. by rewrite Hothers. }
  assert (P s q ts) as Hinit.
  { intros i. left. by exists 0%nat. }
  destruct (match_loop_rule crosses (is_bid_ s) id p P Hstep _ _ _ _ _ _ _
              Hwf eq_refl Hq Hinit Hrun) as (HP & _).
  intros i. destruct (HP i) as [(k & Hk)|(_ & k & o & rest & part & Hk & Hpart & Hq1)];
    exists k; [by left|right]. by exists o, rest, part.
Qed.

(** C3. Let a matching call start on a reachable book whose best resting
    level holds, in this order, A then B (then any others), let that level
    cross the incoming price and let the incoming quantity be at least A's.
    Then the call first trades the whole of A, at A's price: it emits that
    trade, takes A out of the queue and releases A's slot with quantity 0 to
    the free list, which leaves B and the orders behind it as they were, B
    now at the head; whatever else the call does, it does from that state
    on. Over a whole call, the queue of every level is consumed from its
    head only: what is left is a suffix of the queue, whose first order may
    be filled in part. *)
Theorem price_time_priority fuel b is_bid p q id ts A B rest r :
  reachable b → is_size_t q →
  (level_queue (opposite_side is_bid b)
               (best_price_index_ (opposite_side is_bid b)) = A :: B :: rest →
   crossing is_bid (level_price_of (best_price_index_ (opposite_side is_bid b))) p = true →
   quantity_ A ≤ q →
   match_side is_bid fuel (opposite_side is_bid b) p q id ts = Ok r →
   ∃ s1 a,
     level_queue s1 (best_price_index_ (opposite_side is_bid b)) = B :: rest ∧
     (∀ i, i ≠ best_price_index_ (opposite_side is_bid b) →
           level_queue s1 i = level_queue (opposite_side is_bid b) i) ∧
     pool_ (side_pool_ (opposite_side is_bid b)) !! a = Some A ∧
     pool_ (side_pool_ s1) !! a
       = Some (mkOrder (order_id_ A) (price_ A) 0
                       (next_free_ (side_pool_ (opposite_side is_bid b)))) ∧
     next_free_ (side_pool_ s1) = Some a ∧
     match_side is_bid fuel s1 p (q - quantity_ A) id
                (ts ++ [mkTrade id (order_id_ A) (price_ A) (quantity_ A)]) = Ok r) ∧
  (∀ s' q' ts',
     match_side is_bid fuel (opposite_side is_bid b) p q id ts = Ok (s', q', ts') →
     ∀ i, consumed_from_head (level_queue (opposite_side is_bid b) i) (level_queue s' i)).
Proof.
  intros Hb Hq. apply reachable_wf in Hb as Hwf.
  destruct (book_wf_sides is_bid b Hwf) as (_ & _ & Hopp & Hoppd).
  split.
  - intros Hqueue Hcross HA Hrun. rewrite match_side_eq, <-Hoppd in Hrun.
    destruct (match_loop_fills_head _ _ _ _ _ _ _ _ _ _ Hopp Hq Hqueue ltac:(done)
                Hcross HA Hrun) as (s1 & a & H1 & H2 & H3 & H4 & H5 & H6).
    exists s1, a. rewrite match_side_eq, <-Hoppd. done.
  - intros s' q' ts' Hrun. rewrite match_side_eq, <-Hoppd in Hrun.
    by eapply match_loop_fifo.
Qed.

Lemma price_time_priority_witness :
  ∃ s1 a,
    level_queue s1 (best_price_index_ (opposite_side false (book_of queue_orders)))
      = [mkOrder 1 900 7 None] ∧
    (∀ i, i ≠ best_price_index_ (opposite_side false (book_of queue_orders)) →
          level_queue s1 i = level_queue (opposite_side false (book_of queue_orders)) i) ∧
    pool_ (side_pool_ (opposite_side false (book_of queue_orders))) !! a
      = Some (mkOrder 0 900 5 (Some 1%nat)) ∧
    pool_ (side_pool_ s1) !! a
      = Some (mkOrder (order_id_ (mkOrder 0 900 5 (Some 1%nat)))
                      (price_ (mkOrder 0 900 5 (Some 1%nat))) 0
                      (next_free_ (side_pool_ (opposite_side false (book_of queue_orders))))) ∧
    next_free_ (side_pool_ s1) = Some a ∧
    match_side false FUEL s1 900 (6 - quantity_ (mkOrder 0 900 5 (Some 1%nat))) 2
               ([] ++ [mkTrade 2 (order_id_ (mkOrder 0 900 5 (Some 1%nat)))
                               (price_ (mkOrder 0 900 5 (Some 1%nat)))
                               (quantity_ (mkOrder 0 900 5 (Some 1%nat)))])
      = Ok (bids (book_of (queue_orders ++ [(900, 6, 2, false)])), 0,
            [mkTrade 2 0 900 5; mkTrade 2 1 900 1]).
Proof.
  refine (proj1 (price_time_priority FUEL (book_of queue_orders) false 900 6 2 []
                   (mkOrder 0 900 5 (Some 1%nat)) (mkOrder 1 900 7 None) []
                   (bids (book_of (queue_orders ++ [(900, 6, 2, false)])), 0,
                    [mkTrade 2 0 900 5; mkTrade 2 1 900 1]) _ _) _ _ _ _).
  - apply book_of_reachable; vm_compute; reflexivity.
  - unfold is_size_t, SIZE_MOD. lia.
  - vm_compute. reflexivity.
  - vm_compute. reflexivity.
  - simpl. lia.
  - vm_compute. reflexivity.
Defined.

(** * Further properties *)

(** ** The sides never cross *)

Lemma fill_head_cursor dir li level m s q id ts s' q' ts' :
  fill_head (rescan dir) li level m s q id ts = Ok (s', q', ts') →
  length (levels_ s) = NUM_LEVELS → (best_price_index_ s < NUM_LEVELS)%nat →
  best_price_index_ s' = best_price_index_ s
  ∨ best_price_index_ s' = NUM_LEVELS
  ∨ better dir (best_price_index_ s) (best_price_index_ s').
Proof.
  intros Hfill Hlen Hbest. unfold fill_head in Hfill.
  apply bind_Ok in Hfill as (maker & _ & Hfill).
  destruct (quantity_ _ =? 0).
  - apply bind_Ok in Hfill as (s4 & Hs4 & Hfill).
    apply bind_Ok in Hfill as (pool & _ & Hfill). injection Hfill as <- _ _.
    cbn [best_price_index_ set_pool].
    destruct (first_ _).
    + injection Hs4 as <-. by left.
    + match type of Hs4 with rescan _ _ ?X = _ =>
        destruct (rescan_spec dir (best_price_index_ s) X) as (c' & Hc' & Hscan)
      end.
      * unfold store_level, set_levels. cbn [levels_]. by rewrite !length_insert.
      * done.
      * cbn [best_price_index_ store_level store_order set_levels set_pool] in Hs4.
        rewrite Hc' in Hs4. injection Hs4 as <-. cbn [best_price_index_ set_best].
        right. destruct Hscan as [[-> _]|(_ & Hb & _)]; [by left|by right].
  - injection Hfill as <- _ _. by left.
Qed.

Lemma match_loop_exit crosses upd fuel s p q id ts s' q' ts' :
  match_loop crosses upd fuel s p q id ts = Ok (s', q', ts') →
  q' ≤ 0 ∨ best_price_index_ s' = NUM_LEVELS
  ∨ ∃ level, levels_ s' !! best_price_index_ s' = Some level ∧
             crosses (level_price_ level) p = false.
Proof.
  revert s q ts. induction fuel as [|fuel IH]; intros s q ts Hrun; [done|].
  cbn [match_loop] in Hrun.
  destruct (Z.ltb_spec 0 q) as [Hpos|Hz]; cbn [negb] in Hrun;
    [|injection Hrun as <- <- <-; by left].
  destruct (Nat.eqb_spec (best_price_index_ s) NUM_LEVELS) as [Hn|Hn];
    [injection Hrun as <- <- <-; by right; left|].
  apply bind_Ok in Hrun as (level & Hlv & Hrun). apply deref_Ok in Hlv.
  destruct (crosses (level_price_ level) p) eqn:Hcross; cbn [negb] in Hrun.
  - apply bind_Ok in Hrun as ([[s1 q1] ts1] & _ & Hrun). by eapply IH.
  - injection Hrun as <- <- <-. right. right. by exists level.
Qed.

Lemma match_loop_cursor crosses s p q id ts fuel s' q' ts' :
  side_wf s → is_size_t q →
  match_loop crosses (rescan (is_bid_ s)) fuel s p q id ts = Ok (s', q', ts') →
  best_price_index_ s' = best_price_index_ s
  ∨ (best_price_index_ s < NUM_LEVELS)%nat ∧
    (best_price_index_ s' = NUM_LEVELS
     ∨ better (is_bid_ s) (best_price_index_ s) (best_price_index_ s')).
Proof.
  intros Hwf Hq Hrun.
  pose (P := λ (s1 : OrderBookSide) (q1 : Z) (ts1 : list Trade),
    best_price_index_ s1 = best_price_index_ s
    ∨ (best_price_index_ s < NUM_LEVELS)%nat ∧
      (best_price_index_ s1 = NUM_LEVELS
       ∨ better (is_bid_ s) (best_price_index_ s) (best_price_index_ s1))).
  assert (∀ li, (li < NUM_LEVELS)%nat → crosses (level_price_of li) p = true →
                step_ok (is_bid_ s) id P li) as Hstep.
  { intros li Hli _ s1 q1 ts1 level m s2 q2 ts2 (qs1 & fl1 & Hinv1) Hdir1 Hbest1 Hq1
           Hlv Hfirst HP Hfill.
    destruct (fill_head_cursor _ _ _ _ _ _ _ _ _ _ _ Hfill (inv_levels _ _ _ Hinv1))
      as [H2|[H2|H2]]; [lia| | |]; unfold P; rewrite ?H2.
    - done.
    - destruct HP as [H1|[H1 _]]; right; (split; [lia|by left]).
    - destruct HP as [H1|[H1 [H3|H3]]].
      + right. split; [lia|]. right. by rewrite <-H1.
      + lia.
      + right. split; [done|]. right. by eapply better_trans. }
  destruct (match_loop_rule crosses (is_bid_ s) id p P Hstep _ _ _ _ _ _ _
              Hwf eq_refl Hq (or_introl eq_refl) Hrun) as (HP & _).
  exact HP.
Qed.

Lemma add_order_cursor s p q id s' h :
  add_order s p q id = Ok (s', Some h) →
  PRICE_MIN ≤ p ≤ PRICE_MAX ∧
  best_price_index_ s'
  = new_best (is_bid_ s) (Z.to_nat (p - PRICE_MIN)) (best_price_index_ s).
Proof.
  intros Hadd.
  assert (PRICE_MIN ≤ p ≤ PRICE_MAX) as Hprice.
  { destruct (decide (PRICE_MIN ≤ p ≤ PRICE_MAX)) as [|Hbad]; [done|].
    unfold add_order in Hadd. by rewrite (price_to_index_invalid _ Hbad) in Hadd. }
  split; [done|].
  destruct (price_to_index_valid p Hprice) as (Hidx & Hlt & _).
  unfold add_order in Hadd. rewrite Hidx in Hadd. cbn [bind] in Hadd.
  destruct (negb _); [done|].
  apply bind_Ok in Hadd as ([pool r] & _ & Hadd).
  destruct r as [order|]; [|done].
  apply bind_Ok in Hadd as (level & _ & Hadd).
  apply bind_Ok in Hadd as (s3 & Hs3 & Hadd).
  apply bind_Ok in Hadd as (level2 & _ & Hadd).
  assert (is_bid_ s3 = is_bid_ s ∧ best_price_index_ s3 = best_price_index_ s) as [Hd Hb].
  { destruct (first_ level).
    - destruct (last_ level); [|done].
      apply bind_Ok in Hs3 as (tail & _ & Hs3). by injection Hs3 as <-.
    - by injection Hs3 as <-. }
  injection Hadd as <- _.
  cbn [is_bid_ store_level set_levels].
  rewrite (update_after_order_eq _ (store_level s3 _ _)).
  cbn [best_price_index_ set_best is_bid_ store_level set_levels]. by rewrite Hd, Hb.
Qed.

Lemma side_wf_level_price s i lv :
  side_wf s → levels_ s !! i = Some lv → level_price_ lv = level_price_of i.
Proof.
  intros (qs & fl & Hinv) Hlv.
  destruct (lookup_lt_is_Some_2 qs i) as [q Hq].
  { rewrite (inv_queues _ _ _ Hinv), <-(inv_levels _ _ _ Hinv). by eapply lookup_lt_Some. }
  apply (lv_price _ _ _ _ (inv_level _ _ _ Hinv _ _ _ Hlv Hq)).
Qed.

Lemma side_wf_lookup s i :
  side_wf s → (i < NUM_LEVELS)%nat → ∃ lv, levels_ s !! i = Some lv.
Proof.
  intros (qs & fl & Hinv) Hi. apply lookup_lt_is_Some_2.
  by rewrite (inv_levels _ _ _ Hinv).
Qed.

Lemma side_wf_cursor_bound s :
  side_wf s → (best_price_index_ s ≤ NUM_LEVELS)%nat.
Proof.
  intros (qs & fl & Hinv).
  destruct (inv_cursor _ _ _ Hinv) as [[-> _]|(? & _)]; lia.
Qed.

(** The cursors of a well-formed book, as indices. *)
Lemma uncrossed_indices b :
  book_wf b →
  (uncrossed b ↔
   best_price_index_ (bids b) = NUM_LEVELS ∨ best_price_index_ (asks b) = NUM_LEVELS
   ∨ (best_price_index_ (bids b) < best_price_index_ (asks b))%nat).
Proof.
  intros (Hb & _ & Ha & _).
  pose proof (side_wf_cursor_bound _ Hb) as Hcb.
  pose proof (side_wf_cursor_bound _ Ha) as Hca.
  unfold uncrossed. split.
  - intros H.
    destruct (decide (best_price_index_ (bids b) = NUM_LEVELS)) as [|Hnb]; [by left|].
    destruct (decide (best_price_index_ (asks b) = NUM_LEVELS)) as [|Hna]; [by right; left|].
    destruct (side_wf_lookup _ (best_price_index_ (bids b)) Hb) as [lb Hlb]; [lia|].
    destruct (side_wf_lookup _ (best_price_index_ (asks b)) Ha) as [la Hla]; [lia|].
    specialize (H lb la Hlb Hla).
    rewrite (side_wf_level_price _ _ _ Hb Hlb), (side_wf_level_price _ _ _ Ha Hla) in H.
    unfold level_price_of, TICK_SIZE in H. right. right. lia.
  - intros H lb la Hlb Hla.
    pose proof (lookup_lt_Some _ _ _ Hlb) as H1.
    pose proof (lookup_lt_Some _ _ _ Hla) as H2.
    destruct Hb as (qb & fb & Hib). destruct Ha as (qa & fa & Hia).
    rewrite (inv_levels _ _ _ Hib) in H1. rewrite (inv_levels _ _ _ Hia) in H2.
    rewrite (side_wf_level_price (bids b) _ _ ltac:(by eexists _, _) Hlb),
            (side_wf_level_price (asks b) _ _ ltac:(by eexists _, _) Hla).
    unfold level_price_of, TICK_SIZE. lia.
Qed.

Lemma submit_order_uncrossed fuel b p q id is_bid ts0 b' ts :
  book_wf b → is_size_t q → uncrossed b →
  submit_order fuel b p q id is_bid ts0 = Ok (b', ts) →
  uncrossed b'.
Proof.
  intros Hwf Hq Hun Hrun.
  pose proof (submit_order_wf _ _ _ _ _ _ _ _ _ Hwf Hq Hrun) as Hwf'.
  destruct (decide (q = 0)) as [->|Hq0]; [by injection Hrun as <- _|].
  destruct (submit_order_inv _ _ _ _ _ _ _ _ _ Hwf Hq Hq0 Hrun)
    as (opp' & rem & own' & Hm & -> & _ & _ & Hown).
  apply (uncrossed_indices _ Hwf) in Hun. apply (uncrossed_indices _ Hwf').
  destruct (book_wf_sides is_bid b Hwf) as (Hownwf & Hownd & Hopp & Hoppd).
  rewrite match_opposite_eq, <-Hoppd in Hm.
  pose proof (match_loop_cursor _ _ _ _ _ _ _ _ _ _ Hopp Hq Hm) as Hcur.
  pose proof (match_loop_exit _ _ _ _ _ _ _ _ _ _ _ Hm) as Hexit.
  pose proof (match_loop_wf _ _ _ _ _ _ _ _ _ _ Hopp Hq Hm) as (Hopp' & _ & _).
  assert (0 < rem → best_price_index_ opp' = NUM_LEVELS
                    ∨ crossing is_bid (level_price_of (best_price_index_ opp')) p = false)
    as Hexit'.
  { intros Hrem. destruct Hexit as [?|[?|(lv & Hlv & Hc)]]; [lia|by left|right].
    by rewrite <-(side_wf_level_price _ _ _ Hopp' Hlv). }
  assert (own' = own_side is_bid b
          ∨ (0 < rem ∧ PRICE_MIN ≤ p ≤ PRICE_MAX ∧
             best_price_index_ own'
             = new_best is_bid (Z.to_nat (p - PRICE_MIN))
                        (best_price_index_ (own_side is_bid b)))) as Hcases.
  { destruct Hown as [[_ ->]|[Hrem ([h|] & Hadd)]]; [by left| |].
    - right. apply add_order_cursor in Hadd as (? & Hb).
      rewrite Hownd in Hb. split; [lia|]. by split.
    - left. apply add_order_queues in Hadd as (_ & _ & _ & -> & _); [done|done|lia]. }
  rewrite Hoppd in Hcur. clear Hm Hexit Hown Hrun.
  unfold new_best, crossing, level_price_of, TICK_SIZE, PRICE_MIN, PRICE_MAX in *.
  pose proof (side_wf_cursor_bound _ Hopp') as Hb1.
  destruct is_bid; cbn [own_side opposite_side with_sides bids asks negb better] in *.
  - destruct Hcases as [->|(Hrem & Hp & Hb)]; [clear Hexit'; lia|].
    rewrite Hb. destruct (Hexit' Hrem) as [?|Hc]; clear Hexit'.
    + destruct (_ || _); lia.
    + apply Z.leb_gt in Hc.
      destruct (_ || _) eqn:Hor; [|apply orb_false_iff in Hor as [? ?]]; lia.
  - destruct Hcases as [->|(Hrem & Hp & Hb)]; [clear Hexit'; lia|].
    rewrite Hb. destruct (Hexit' Hrem) as [?|Hc]; clear Hexit'.
    + destruct (_ || _); lia.
    + rewrite Z.geb_leb in Hc. apply Z.leb_gt in Hc.
      destruct (_ || _) eqn:Hor; [|apply orb_false_iff in Hor as [? ?]]; lia.
Qed.

Lemma uncrossed_init : uncrossed OrderBook_init.
Proof. intros lb la Hlb _. vm_compute in Hlb. discriminate Hlb. Qed.

(** X1. In every reachable book the best bid level is priced strictly below
    the best ask level whenever both cursors are on a level: a submission
    never leaves the book crossed or locked. *)
Theorem reachable_book_is_uncrossed b : reachable b → uncrossed b.
Proof.
  induction 1 as [|fuel b price quantity id is_bid ts0 b' ts Hb IH Hp Hq Hid Hrun].
  - apply uncrossed_init.
  - exact (submit_order_uncrossed _ _ _ _ _ _ _ _ _ (reachable_wf _ Hb) Hq IH Hrun).
Qed.

Lemma uncrossed_witness : uncrossed (book_of two_sided_orders).
Proof.
  apply (reachable_book_is_uncrossed (book_of two_sided_orders)).
  apply book_of_reachable; vm_compute; reflexivity.
Defined.

(** X2. A matching call that returns with a remainder has left nothing
    marketable at the cursor of the side it matched against: that cursor is
    the sentinel, or the price of its level is beyond the incoming limit
    (above an incoming bid, below an incoming ask). *)
Theorem remainder_means_nothing_crosses is_bid fuel s p q id ts s' q' ts' :
  match_side is_bid fuel s p q id ts = Ok (s', q', ts') → 0 < q' →
  best_price_index_ s' = NUM_LEVELS
  ∨ ∃ level, levels_ s' !! best_price_index_ s' = Some level ∧
             (if is_bid then p < level_price_ level else level_price_ level < p).
Proof.
  intros Hrun Hq'. rewrite match_side_eq in Hrun.
  apply match_loop_exit in Hrun as [?|[?|(level & Hlv & Hc)]]; [lia|by left|right].
  exists level. split; [done|]. unfold crossing in Hc. destruct is_bid; lia.
Qed.

Lemma remainder_witness :
  ∃ s', best_price_index_ s' = NUM_LEVELS
        ∨ ∃ level, levels_ s' !! best_price_index_ s' = Some level ∧
                   960 < level_price_ level.
Proof.
  eexists.
  eapply (remainder_means_nothing_crosses true FUEL (asks (book_of two_sided_orders))
            960 8 2 []).
  - vm_compute. reflexivity.
  - lia.
Defined.

(** ** The quantity matching takes *)

Lemma fill_head_wf dir li level m s q id ts s' q' ts' :
  side_wf s → is_bid_ s = dir → best_price_index_ s = li →
  0 < q < SIZE_MOD →
  levels_ s !! li = Some level → first_ level = Some m →
  fill_head (rescan dir) li level m s q id ts = Ok (s', q', ts') →
  side_wf s'.
Proof.
  intros (qs & fl & Hinv) Hdir Hbest Hq Hlv Hfirst Hfill.
  destruct (fill_head_spec qs fl s li level m q id ts Hinv Hbest Hlv Hfirst Hq)
    as (maker & qt & s1 & _ & _ & Hfill' & _ & _ & Hcase).
  rewrite Hdir, Hfill in Hfill'. injection Hfill' as <- _ _.
  destruct (decide (quantity_ maker ≤ q)); destruct Hcase as (Hinv' & _);
    by eexists _, _.
Qed.

Lemma side_wf_levels_length s : side_wf s → length (levels_ s) = NUM_LEVELS.
Proof. intros (qs & fl & Hinv). apply (inv_levels _ _ _ Hinv). Qed.

(** The matched side loses what is traded, no more and no less. *)
Lemma match_loop_resting crosses s p q id ts fuel s' q' ts' :
  side_wf s → is_size_t q →
  match_loop crosses (rescan (is_bid_ s)) fuel s p q id ts = Ok (s', q', ts') →
  resting_quantity s' + (q - q') = resting_quantity s.
Proof.
  intros Hwf Hq Hrun.
  pose (P := λ (s1 : OrderBookSide) (q1 : Z) (ts1 : list Trade),
    resting_quantity s1 + (q - q1) = resting_quantity s).
  assert (∀ li, (li < NUM_LEVELS)%nat → crosses (level_price_of li) p = true →
                step_ok (is_bid_ s) id P li) as Hstep.
  { intros li Hli _ s1 q1 ts1 level m s2 q2 ts2 Hwf1 Hdir1 Hbest1 Hq1 Hlv Hfirst HP Hfill.
    pose proof (fill_head_wf _ _ _ _ _ _ _ _ _ _ _ Hwf1 Hdir1 Hbest1 Hq1 Hlv Hfirst Hfill)
      as Hwf2.
    destruct (fill_head_queues _ _ _ _ _ _ _ _ _ _ _ Hwf1 Hdir1 Hbest1 Hq1 Hlv Hfirst Hfill)
      as (maker & rest & Hqueue & _ & -> & _ & Hothers & Hli' & _).
    unfold P in *. rewrite <-HP. unfold resting_quantity.
    rewrite (side_wf_levels_length _ Hwf1), (side_wf_levels_length _ Hwf2).
    rewrite (sum_over_levels_update (λ i, sum_quantities (level_queue s1 i))
               (λ i, sum_quantities (level_queue s2 i)) _ li
               (- (quantity_ maker `min` q1))).
    - rewrite decide_True; [lia|]. apply elem_of_seq. lia.
    - apply NoDup_seq.
    - intros i Hi. by rewrite Hothers.
    - rewrite Hli', Hqueue. destruct (decide (quantity_ maker ≤ q1)); simpl; lia. }
  assert (P s q ts) as Hinit by (unfold P; lia).
  destruct (match_loop_rule crosses (is_bid_ s) id p P Hstep _ _ _ _ _ _ _
              Hwf eq_refl Hq Hinit Hrun) as (HP & _).
  exact HP.
Qed.

(** X3. A returning submission on a reachable book takes from the opposite
    side exactly the quantity it trades: the quantity resting there
    afterwards is the quantity resting before minus the sum of the trade
    quantities. *)
Theorem opposite_side_loses_traded_quantity fuel b p q id is_bid ts0 b' ts :
  reachable b → is_size_t q →
  submit_order fuel b p q id is_bid ts0 = Ok (b', ts) →
  resting_quantity (opposite_side is_bid b')
  = resting_quantity (opposite_side is_bid b) - sum_trades ts.
Proof.
  intros Hb Hq Hrun. apply reachable_wf in Hb as Hwf.
  destruct (decide (q = 0)) as [->|Hq0].
  { injection Hrun as <- <-. simpl. lia. }
  destruct (submit_order_inv _ _ _ _ _ _ _ _ _ Hwf Hq Hq0 Hrun)
    as (opp' & rem & own' & Hm & -> & Hsum & _ & _).
  destruct (book_wf_sides is_bid b Hwf) as (_ & _ & Hopp & Hoppd).
  rewrite match_opposite_eq, <-Hoppd in Hm.
  pose proof (match_loop_resting _ _ _ _ _ _ _ _ _ _ Hopp Hq Hm) as Hrest.
  assert (opposite_side is_bid (with_sides is_bid own' opp') = opp') as ->
    by (by destruct is_bid).
  lia.
Qed.

Lemma traded_quantity_witness :
  resting_quantity (opposite_side false (book_of scenario_orders))
  = resting_quantity (opposite_side false (book_of (take 2 scenario_orders)))
    - sum_trades [mkTrade 2 1 901 10; mkTrade 2 0 900 5].
Proof.
  refine (opposite_side_loses_traded_quantity FUEL (book_of (take 2 scenario_orders))
            900 15 2 false [] (book_of scenario_orders)
            [mkTrade 2 1 901 10; mkTrade 2 0 900 5] _ _ _).
  - apply book_of_reachable; vm_compute; reflexivity.
  - unfold is_size_t, SIZE_MOD. lia.
  - vm_compute. reflexivity.
Defined.

(** ** The order of the trades *)

Lemma price_order_refl is_bid a : price_order is_bid a a.
Proof. destruct is_bid; simpl; lia. Qed.

Lemma price_order_trans is_bid a b c :
  price_order is_bid a b → price_order is_bid b c → price_order is_bid a c.
Proof. destruct is_bid; simpl; lia. Qed.

Lemma better_price_order dir a b :
  better dir a b → price_order (negb dir) (level_price_of a) (level_price_of b).
Proof. unfold level_price_of, TICK_SIZE. destruct dir; simpl; lia. Qed.

Lemma trades_in_price_order_snoc is_bid ts t :
  trades_in_price_order is_bid ts →
  Forall (λ t', price_order is_bid (price t') (price t)) ts →
  trades_in_price_order is_bid (ts ++ [t]).
Proof.
  intros Hts Hall i j ti tj Hij Hi Hj.
  apply lookup_app_Some in Hj as [Hj|[Hlen Hj]].
  - pose proof (lookup_lt_Some _ _ _ Hj).
    rewrite lookup_app_l in Hi by lia. exact (Hts i j ti tj Hij Hi Hj).
  - apply list_lookup_singleton_Some in Hj as [_ <-].
    apply lookup_app_Some in Hi as [Hi|[_ Hi]].
    + rewrite Forall_forall in Hall. apply Hall. by eapply list_elem_of_lookup_2.
    + apply list_lookup_singleton_Some in Hi as [_ <-]. apply price_order_refl.
Qed.

Lemma match_loop_price_order crosses s p q id fuel s' q' ts' :
  side_wf s → is_size_t q →
  match_loop crosses (rescan (is_bid_ s)) fuel s p q id [] = Ok (s', q', ts') →
  trades_in_price_order (negb (is_bid_ s)) ts'.
Proof.
  intros Hwf Hq Hrun.
  pose (P := λ (s1 : OrderBookSide) (q1 : Z) (ts1 : list Trade),
    trades_in_price_order (negb (is_bid_ s)) ts1 ∧
    (best_price_index_ s1 = NUM_LEVELS
     ∨ Forall (λ t, price_order (negb (is_bid_ s)) (price t)
                                (level_price_of (best_price_index_ s1))) ts1)).
  assert (∀ li, (li < NUM_LEVELS)%nat → crosses (level_price_of li) p = true →
                step_ok (is_bid_ s) id P li) as Hstep.
  { intros li Hli _ s1 q1 ts1 level m s2 q2 ts2 Hwf1 Hdir1 Hbest1 Hq1 Hlv Hfirst
           [Hsorted Hcur] Hfill.
    destruct Hcur as [?|Hall]; [lia|]. rewrite Hbest1 in Hall.
    destruct (fill_head_queues _ _ _ _ _ _ _ _ _ _ _ Hwf1 Hdir1 Hbest1 Hq1 Hlv Hfirst Hfill)
      as (maker & rest & Hqueue & _ & _ & -> & _).
    pose proof (level_queue_ok s1 li Hwf1) as Hok. rewrite Hqueue in Hok.
    apply Forall_cons in Hok as [[_ Hmp] _].
    set (t := mkTrade id (order_id_ maker) (price_ maker) (quantity_ maker `min` q1)).
    assert (price t = level_price_of li) as Hpt by done.
    split.
    - apply trades_in_price_order_snoc; [done|]. by rewrite Hpt.
    - destruct (fill_head_cursor _ _ _ _ _ _ _ _ _ _ _ Hfill
                  (side_wf_levels_length _ Hwf1)) as [H2|[H2|H2]]; [lia| | |].
      + right. rewrite H2, Hbest1. apply Forall_app. split; [done|].
        apply Forall_singleton. rewrite Hpt. apply price_order_refl.
      + by left.
      + right. rewrite Hbest1 in H2.
        apply better_price_order in H2.
        apply Forall_app. split.
        * eapply Forall_impl; [done|]. intros t' Ht'. exact (price_order_trans _ _ _ _ Ht' H2).
        * apply Forall_singleton. by rewrite Hpt. }
  assert (P s q []) as Hinit.
  { split; [|right; constructor]. intros i j ti tj _ Hi. by rewrite lookup_nil in Hi. }
  destruct (match_loop_rule crosses (is_bid_ s) id p P Hstep _ _ _ _ _ _ _
              Hwf eq_refl Hq Hinit Hrun) as ((HP & _) & _).
  exact HP.
Qed.

(** X4. The trades of a returning submission on a reachable book come in
    price order, best level first: for an incoming bid no trade is at a
    lower price than an earlier one, for an incoming ask none is at a higher
    price. *)
Theorem trades_come_best_price_first fuel b p q id is_bid ts0 b' ts :
  reachable b → is_size_t q →
  submit_order fuel b p q id is_bid ts0 = Ok (b', ts) →
  trades_in_price_order is_bid ts.
Proof.
  intros Hb Hq Hrun. apply reachable_wf in Hb as Hwf.
  destruct (decide (q = 0)) as [->|Hq0].
  { injection Hrun as <- <-. intros i j ti tj _ Hi. by rewrite lookup_nil in Hi. }
  destruct (submit_order_inv _ _ _ _ _ _ _ _ _ Hwf Hq Hq0 Hrun)
    as (opp' & rem & own' & Hm & _).
  destruct (book_wf_sides is_bid b Hwf) as (_ & _ & Hopp & Hoppd).
  rewrite match_opposite_eq, <-Hoppd in Hm.
  apply match_loop_price_order in Hm; [|done..].
  by rewrite Hoppd, negb_involutive in Hm.
Qed.

Lemma price_order_witness :
  trades_in_price_order false [mkTrade 2 1 901 10; mkTrade 2 0 900 5].
Proof.
  refine (trades_come_best_price_first FUEL (book_of (take 2 scenario_orders))
            900 15 2 false [] (book_of scenario_orders)
            [mkTrade 2 1 901 10; mkTrade 2 0 900 5] _ _ _).
  - apply book_of_reachable; vm_compute; reflexivity.
  - unfold is_size_t, SIZE_MOD. lia.
  - vm_compute. reflexivity.
Defined.

(** ** The remainder at the back of its queue *)

Lemma own_side_with_sides is_bid own opp :
  own_side is_bid (with_sides is_bid own opp) = own.
Proof. by destruct is_bid. Qed.

Lemma opposite_side_with_sides is_bid own opp :
  opposite_side is_bid (with_sides is_bid own opp) = opp.
Proof. by destruct is_bid. Qed.

(** X5. A returning submission on a reachable book changes the queues of the
    submitter's own side in one place at most: when a remainder is left
    after matching and the arena of that side has a free slot, the order
    [(id, price, remainder)] joins the back of the queue of its price level;
    every order already resting on that side keeps its place and its
    quantity. *)
Theorem remainder_joins_back_of_queue fuel b p q id is_bid ts0 b' ts :
  reachable b → is_size_t q →
  submit_order fuel b p q id is_bid ts0 = Ok (b', ts) →
  (∀ i, i ≠ Z.to_nat (p - PRICE_MIN) →
        queue_view (own_side is_bid b') i = queue_view (own_side is_bid b) i) ∧
  queue_view (own_side is_bid b') (Z.to_nat (p - PRICE_MIN))
    = queue_view (own_side is_bid b) (Z.to_nat (p - PRICE_MIN))
      ++ (if decide (0 < q - sum_trades ts
                     ∧ next_free_ (side_pool_ (own_side is_bid b)) ≠ None)
          then [(id, p, q - sum_trades ts)] else []).
Proof.
  intros Hb Hq Hrun. apply reachable_wf in Hb as Hwf.
  destruct (decide (q = 0)) as [->|Hq0].
  { injection Hrun as <- <-. split; [done|].
    rewrite decide_False by (simpl; lia). by rewrite app_nil_r. }
  destruct (submit_order_inv _ _ _ _ _ _ _ _ _ Hwf Hq Hq0 Hrun)
    as (opp' & rem & own' & _ & -> & Hsum & _ & Hown).
  rewrite own_side_with_sides.
  destruct (book_wf_sides is_bid b Hwf) as (Hown_wf & _).
  replace (q - sum_trades ts) with rem by lia.
  destruct Hown as [[-> ->]|[Hrem [r Hadd]]].
  { split; [done|]. rewrite decide_False by lia. by rewrite app_nil_r. }
  assert (1 ≤ rem < SIZE_MOD) as Hrem1 by lia.
  destruct (add_order_queues _ _ _ _ _ _ Hown_wf Hrem1 Hadd) as (_ & _ & _ & Hr).
  destruct r as [h|].
  - destruct Hr as (Hfree & Hat & Hother). split; [done|].
    rewrite decide_True; [done|]. split; [lia|]. by rewrite Hfree.
  - destruct Hr as [-> Hfree]. split; [done|].
    rewrite decide_False; [by rewrite app_nil_r|]. intros [_ Hne]. by apply Hne.
Qed.

Lemma back_of_queue_witness :
  (∀ i, i ≠ Z.to_nat (900 - PRICE_MIN) →
        queue_view (own_side true (book_of queue_orders)) i
        = queue_view (own_side true (book_of (take 1 queue_orders))) i) ∧
  queue_view (own_side true (book_of queue_orders)) (Z.to_nat (900 - PRICE_MIN))
    = queue_view (own_side true (book_of (take 1 queue_orders))) (Z.to_nat (900 - PRICE_MIN))
      ++ (if decide (0 < 7 - sum_trades []
                     ∧ next_free_ (side_pool_ (own_side true (book_of (take 1 queue_orders))))
                       ≠ None)
          then [(1, 900, 7 - sum_trades [])] else []).
Proof.
  refine (remainder_joins_back_of_queue FUEL (book_of (take 1 queue_orders))
            900 7 1 true [] (book_of queue_orders) [] _ _ _).
  - apply book_of_reachable; vm_compute; reflexivity.
  - unfold is_size_t, SIZE_MOD. lia.
  - vm_compute. reflexivity.
Defined.

(** ** The slots of an arena *)

Lemma orders_at_length pool h q : chain pool h q → length (orders_at pool q) = length q.
Proof.
  induction 1 as [|h o l Ho _ IH]; [done|].
  rewrite (orders_at_cons _ _ _ _ Ho). simpl. by rewrite IH.
Qed.

Lemma join_length_pointwise {A B} (f : nat → list A) (qs : list (list B)) k :
  (∀ i q, qs !! i = Some q → length (f (k + i)%nat) = length q) →
  length (mjoin (f <$> seq k (length qs))) = length (mjoin qs).
Proof.
  revert k. induction qs as [|q qs IH]; intros k Hf; [done|].
  simpl. rewrite !length_app. f_equal.
  - rewrite <-(Hf 0%nat q eq_refl). f_equal. f_equal. lia.
  - apply IH. intros i q' Hq'. rewrite <-(Hf (S i) q' Hq'). f_equal. f_equal. lia.
Qed.

Lemma side_wf_accounting s :
  side_wf s →
  (length (free_slots s) + length (resting_orders s) = MAX_ORDERS)%nat ∧
  (exhausted s ↔ length (resting_orders s) = MAX_ORDERS).
Proof.
  intros (qs & fl & Hinv).
  pose proof (Permutation_length (inv_perm _ _ _ Hinv)) as Hlen.
  rewrite length_app, length_seq in Hlen.
  assert (free_slots s = fl) as Hfree.
  { apply walk_chain; [apply (inv_free _ _ _ Hinv)|].
    rewrite (inv_pool _ _ _ Hinv). lia. }
  assert (length (resting_orders s) = length (mjoin qs)) as Hrest.
  { unfold resting_orders.
    rewrite (inv_levels _ _ _ Hinv), <-(inv_queues _ _ _ Hinv).
    apply join_length_pointwise. intros i q Hq. simpl.
    rewrite (level_queue_ghost _ _ _ _ _ Hinv Hq).
    destruct (lookup_lt_is_Some_2 (levels_ s) i) as [lv Hlv].
    { rewrite (inv_levels _ _ _ Hinv), <-(inv_queues _ _ _ Hinv).
      by eapply lookup_lt_Some. }
    eapply orders_at_length, (lv_chain _ _ _ _ (inv_level _ _ _ Hinv _ _ _ Hlv Hq)). }
  rewrite Hfree, Hrest. split; [done|].
  unfold exhausted. pose proof (inv_free _ _ _ Hinv) as Hch. split.
  - intros Hnone. rewrite Hnone in Hch. apply chain_None_inv in Hch.
    rewrite Hch in Hlen. exact Hlen.
  - intros Hfull. destruct fl; [by apply chain_nil_inv in Hch|cbn [length] in Hlen; lia].
Qed.

(** X6. In every reachable book the slots of each arena are all accounted
    for: the free slots and the orders resting on the side are [MAX_ORDERS]
    together, and the arena has no free slot exactly when [MAX_ORDERS]
    orders rest on the side. *)
Theorem arena_slots_accounted_for b :
  reachable b →
  ((length (free_slots (bids b)) + length (resting_orders (bids b)) = MAX_ORDERS)%nat ∧
   (exhausted (bids b) ↔ length (resting_orders (bids b)) = MAX_ORDERS)) ∧
  ((length (free_slots (asks b)) + length (resting_orders (asks b)) = MAX_ORDERS)%nat ∧
   (exhausted (asks b) ↔ length (resting_orders (asks b)) = MAX_ORDERS)).
Proof.
  intros Hb. apply reachable_wf in Hb as (Hbids & _ & Hasks & _).
  split; by apply side_wf_accounting.
Qed.

Lemma arena_slots_witness :
  ((length (free_slots (bids (book_of two_sided_orders)))
    + length (resting_orders (bids (book_of two_sided_orders))) = MAX_ORDERS)%nat ∧
   (exhausted (bids (book_of two_sided_orders))
    ↔ length (resting_orders (bids (book_of two_sided_orders))) = MAX_ORDERS)) ∧
  ((length (free_slots (asks (book_of two_sided_orders)))
    + length (resting_orders (asks (book_of two_sided_orders))) = MAX_ORDERS)%nat ∧
   (exhausted (asks (book_of two_sided_orders))
    ↔ length (resting_orders (asks (book_of two_sided_orders))) = MAX_ORDERS)).
Proof.
  apply (arena_slots_accounted_for (book_of two_sided_orders)).
  apply book_of_reachable; vm_compute; reflexivity.
Defined.

(** ** Prices of resting orders *)

(** X7. In every reachable book an order queued at level [i] of a side
    carries the price of that level, [PRICE_MIN + i], which lies between
    [PRICE_MIN] and [PRICE_MAX] and is the [price] field of the level. *)
Theorem resting_orders_carry_level_price b is_bid i o :
  reachable b → o ∈ level_queue (own_side is_bid b) i →
  price_ o = level_price_of i ∧ PRICE_MIN ≤ price_ o ≤ PRICE_MAX ∧
  ∃ level, levels_ (own_side is_bid b) !! i = Some level ∧
           level_price_ level = price_ o.
Proof.
  intros Hb Ho. apply reachable_wf in Hb as Hwf.
  destruct (book_wf_sides is_bid b Hwf) as (Hown & _).
  pose proof (level_queue_ok _ i Hown) as Hok.
  rewrite Forall_forall in Hok. destruct (Hok o Ho) as [_ Hp].
  unfold level_queue in Ho.
  destruct (levels_ (own_side is_bid b) !! i) as [level|] eqn:Hlv;
    [|by apply elem_of_nil in Ho].
  pose proof (lookup_lt_Some _ _ _ Hlv) as Hi.
  rewrite (side_wf_levels_length _ Hown) in Hi.
  split; [done|]. split.
  - rewrite Hp. assert (NUM_LEVELS = 401%nat) as HN by reflexivity.
    unfold level_price_of, PRICE_MIN, PRICE_MAX, TICK_SIZE. lia.
  - exists level. split; [done|]. rewrite Hp. by eapply side_wf_level_price.
Qed.

Lemma level_price_witness :
  price_ (mkOrder 1 900 7 None) = level_price_of 100 ∧
  PRICE_MIN ≤ price_ (mkOrder 1 900 7 None) ≤ PRICE_MAX ∧
  ∃ level, levels_ (own_side true (book_of queue_orders)) !! 100%nat = Some level ∧
           level_price_ level = price_ (mkOrder 1 900 7 None).
Proof.
  refine (resting_orders_carry_level_price (book_of queue_orders) true 100
            (mkOrder 1 900 7 None) _ _).
  - apply book_of_reachable; vm_compute; reflexivity.
  - vm_compute. right. left.
Defined.

(** ** Flows of bounded quantities *)

Lemma reachable_within_reachable Q b : reachable_within Q b → reachable b.
Proof.
  induction 1 as [|fuel b p q id is_bid ts0 b' ts _ IH Hp Hq Hid _ Hrun];
    [apply reachable_init|].
  exact (reachable_submit fuel b p q id is_bid ts0 b' ts IH Hp Hq Hid Hrun).
Qed.

Lemma flow_order_spec Q p q id is_bid :
  flow_order Q (p, q, id, is_bid) = true →
  is_size_t p ∧ is_size_t q ∧ is_size_t id ∧ q ≤ Q ∧ price_in_range p.
Proof. unfold flow_order, valid_order, is_size_t, price_in_range. lia. Qed.

Lemma foldl_run_within Q orders b0 ts0 :
  reachable_within Q b0 → forallb (flow_order Q) orders = true →
  ∃ b ts, foldl (run_submit FUEL) (Ok (b0, ts0)) orders = Ok (b, ts) ∧
          reachable_within Q b.
Proof.
  revert b0 ts0. induction orders as [|[[[p q] id] is_bid] orders IH];
    intros b0 ts0 Hb0 Hflow.
  - by exists b0, ts0.
  - cbn [forallb] in Hflow. apply andb_true_iff in Hflow as [Hv Hflow].
    apply (flow_order_spec Q p q id is_bid) in Hv as (Hp & Hq & Hid & HqQ & Hrange).
    pose proof (reachable_wf _ (reachable_within_reachable _ _ Hb0)) as Hwf.
    destruct (submit_order_returns FUEL b0 p q id is_bid [] Hwf Hq Hrange (le_n _))
      as (b1 & ts1 & H1).
    cbn [foldl run_submit bind]. rewrite H1. apply IH; [|done].
    exact (within_submit Q FUEL b0 p q id is_bid [] b1 ts1 Hb0 Hp Hq Hid HqQ H1).
Qed.

Lemma book_of_within Q orders :
  forallb (flow_order Q) orders = true → reachable_within Q (book_of orders).
Proof.
  intros Hflow.
  destruct (foldl_run_within Q orders OrderBook_init [] (within_init Q) Hflow)
    as (b & ts & Hrun & Hb).
  unfold book_of, run. by rewrite Hrun.
Qed.

Lemma level_queue_init is_bid i : level_queue (OrderBookSide_init is_bid) i = [].
Proof.
  destruct (decide (i < NUM_LEVELS)%nat) as [Hi|Hi].
  - rewrite (level_queue_ghost _ _ _ i [] (side_inv_init is_bid)); [done|].
    by apply lookup_replicate_2.
  - unfold level_queue. rewrite lookup_ge_None_2; [done|].
    rewrite (inv_levels _ _ _ (side_inv_init is_bid)). lia.
Qed.

Lemma sum_trades_nonneg ts : Forall (λ t, 1 ≤ quantity t) ts → 0 ≤ sum_trades ts.
Proof. induction 1 as [|t ts Ht _ IH]; simpl; lia. Qed.

Lemma consumed_from_head_within Q q0 q1 :
  consumed_from_head q0 q1 →
  (∀ o, o ∈ q0 → quantity_ o ≤ Q) → ∀ o, o ∈ q1 → quantity_ o ≤ Q.
Proof.
  intros [k [->|(o' & rest & lft & Hdrop & Hlft & ->)]] Hall o Ho.
  - by apply Hall, (subseteq_drop k q0).
  - assert (o' ∈ q0) as Ho'.
    { apply (subseteq_drop k q0). rewrite Hdrop. by left. }
    apply elem_of_cons in Ho as [->|Ho].
    + specialize (Hall o' Ho'). cbn [quantity_ set_quantity]. lia.
    + apply Hall, (subseteq_drop k q0). rewrite Hdrop. by right.
Qed.

Lemma submit_order_within Q fuel b p q id is_bid ts0 b' ts :
  book_wf b → is_size_t q → q ≤ Q →
  submit_order fuel b p q id is_bid ts0 = Ok (b', ts) →
  quantities_within Q (own_side is_bid b) →
  quantities_within Q (opposite_side is_bid b) →
  quantities_within Q (own_side is_bid b') ∧
  quantities_within Q (opposite_side is_bid b').
Proof.
  intros Hwf Hq HqQ Hrun Hown Hopp.
  destruct (decide (q = 0)) as [->|Hq0]; [by injection Hrun as <- <-|].
  destruct (submit_order_inv _ _ _ _ _ _ _ _ _ Hwf Hq Hq0 Hrun)
    as (opp' & rem & own' & Hm & -> & Hsum & Hall & Hadd).
  rewrite own_side_with_sides, opposite_side_with_sides.
  destruct (book_wf_sides is_bid b Hwf) as (Hown_wf & _ & Hopp_wf & Hoppd).
  assert (rem ≤ Q) as HremQ.
  { assert (0 ≤ sum_trades ts); [|lia]. apply sum_trades_nonneg.
    eapply Forall_impl; [done|]. by intros t (_ & ? & _). }
  split.
  - destruct Hadd as [[_ ->]|[Hrem [r Hadd]]]; [done|].
    assert (1 ≤ rem < SIZE_MOD) as Hrem1 by lia.
    destruct (add_order_queues _ _ _ _ _ _ Hown_wf Hrem1 Hadd) as (_ & _ & _ & Hr).
    destruct r as [h|]; [|by destruct Hr as [-> _]].
    destruct Hr as (_ & Hat & Hother). intros i o Ho.
    assert (order_view o ∈ queue_view own' i) as Hv by (by apply list_elem_of_fmap_2).
    destruct (decide (i = Z.to_nat (p - PRICE_MIN))) as [->|Hne].
    + rewrite Hat in Hv. apply elem_of_app in Hv as [Hv|Hv].
      * apply list_elem_of_fmap in Hv as (o0 & Heq & Ho0).
        apply Hown in Ho0. injection Heq as _ _ ->. done.
      * apply list_elem_of_singleton in Hv. injection Hv as _ _ ->. done.
    + rewrite (Hother i Hne) in Hv.
      apply list_elem_of_fmap in Hv as (o0 & Heq & Ho0).
      apply Hown in Ho0. injection Heq as _ _ ->. done.
  - rewrite match_opposite_eq, <-Hoppd in Hm.
    pose proof (match_loop_fifo _ _ _ _ _ _ _ _ _ _ Hopp_wf Hq Hm) as Hfifo.
    intros i. eapply consumed_from_head_within; [apply Hfifo|apply Hopp].
Qed.

Lemma reachable_within_quantities Q b :
  reachable_within Q b →
  ∀ is_bid, quantities_within Q (own_side is_bid b).
Proof.
  induction 1 as [|fuel b p q id is_bid ts0 b' ts Hb IH Hp Hq Hid HqQ Hrun].
  - intros is_bid i o Ho. destruct is_bid; cbn in Ho;
      rewrite level_queue_init in Ho; by apply elem_of_nil in Ho.
  - pose proof (reachable_wf _ (reachable_within_reachable _ _ Hb)) as Hwf.
    destruct (submit_order_within Q _ _ _ _ _ _ _ _ _ Hwf Hq HqQ Hrun
                (IH is_bid) ltac:(destruct is_bid; [apply (IH false)|apply (IH true)]))
      as [Hown Hopp].
    intros d. destruct is_bid, d; done.
Qed.

Lemma walk_length pool n h : (length (walk pool n h) ≤ n)%nat.
Proof.
  revert h. induction n as [|n IH]; intros [h|]; simpl; try lia.
  destruct (pool !! h) as [o|]; simpl; [|lia]. specialize (IH (next_ o)). lia.
Qed.

Lemma omap_length_le {A B} (f : A → option B) l : (length (omap f l) ≤ length l)%nat.
Proof.
  induction l as [|x l IH]; [done|].
  change (omap f (x :: l))
    with (match f x with Some y => y :: omap f l | None => omap f l end).
  destruct (f x); cbn [length]; lia.
Qed.

Lemma sum_quantities_within Q q :
  (∀ o, o ∈ q → quantity_ o ≤ Q) → 0 ≤ Q →
  sum_quantities q ≤ Z.of_nat (length q) * Q.
Proof.
  intros Hall HQ. induction q as [|o q IH]; [simpl; lia|].
  assert (quantity_ o ≤ Q) by (apply Hall; by left).
  assert (sum_quantities q ≤ Z.of_nat (length q) * Q).
  { apply IH. intros o' Ho'. apply Hall. by right. }
  cbn [sum_quantities foldr length] in *.
  fold (sum_quantities q). lia.
Qed.

Lemma quantities_within_no_wrap Q s i :
  side_wf s → quantities_within Q s → Z.of_nat MAX_ORDERS * Q < SIZE_MOD →
  sum_quantities (level_queue s i) < SIZE_MOD.
Proof.
  intros Hwf HQ Hbound.
  destruct (level_queue s i) as [|o q] eqn:Hqueue; [done|].
  assert (1 ≤ Q) as HQ1.
  { pose proof (level_queue_ok s i Hwf) as Hok. rewrite Hqueue in Hok.
    apply Forall_cons in Hok as [[[? _] _] _].
    assert (quantity_ o ≤ Q); [|lia]. apply (HQ i). rewrite Hqueue. by left. }
  assert (length (level_queue s i) ≤ MAX_ORDERS)%nat as Hlen.
  { destruct Hwf as (qs & fl & Hinv). unfold level_queue.
    destruct (levels_ s !! i); [|simpl; lia].
    etrans; [apply omap_length_le|]. rewrite <-(inv_pool _ _ _ Hinv).
    apply walk_length. }
  rewrite <-Hqueue.
  pose proof (sum_quantities_within Q (level_queue s i) (HQ i) ltac:(lia)). nia.
Qed.

(** X8. A flow of submissions of at most [Q] units each, with
    [MAX_ORDERS * Q] below [2^64], never wraps an aggregate: in every book it
    reaches no resting order exceeds [Q], the aggregate of every level of
    either side is the sum of its queue and is zero exactly when the queue
    is empty, and the cursor of either side is the sentinel over an all-zero
    ladder or the best level with a non-zero aggregate. *)
Theorem bounded_flow_never_wraps Q b :
  reachable_within Q b → Z.of_nat MAX_ORDERS * Q < SIZE_MOD →
  ∀ is_bid,
    quantities_within Q (own_side is_bid b) ∧
    (∀ i level, levels_ (own_side is_bid b) !! i = Some level →
                aggregate_exact (own_side is_bid b) i level) ∧
    cursor_exact is_bid (own_side is_bid b).
Proof.
  intros Hb Hbound is_bid.
  pose proof (reachable_within_quantities Q b Hb is_bid) as HQ.
  pose proof (reachable_wf _ (reachable_within_reachable _ _ Hb)) as Hwf.
  destruct (book_wf_sides is_bid b Hwf) as (Hown & Hdir & _).
  split; [done|]. split.
  - intros i level Hlv.
    by apply (aggregate_wrapped_wf _ _ _ Hown Hlv), quantities_within_no_wrap with Q.
  - rewrite <-Hdir at 1.
    by apply (cursor_queued_wf _ Hown), quantities_within_no_wrap with Q.
Qed.

Lemma bounded_flow_witness :
  quantities_within 20 (own_side true (book_of scenario_orders)) ∧
  (∀ i level, levels_ (own_side true (book_of scenario_orders)) !! i = Some level →
              aggregate_exact (own_side true (book_of scenario_orders)) i level) ∧
  cursor_exact true (own_side true (book_of scenario_orders)).
Proof.
  refine (bounded_flow_never_wraps 20 (book_of scenario_orders) _ _ true).
  - apply book_of_within. vm_compute. reflexivity.
  - unfold MAX_ORDERS, SIZE_MOD. lia.
Defined.

(** ** Failures of a submission *)

Lemma add_order_invalid s p q id :
  ¬ price_in_range p → add_order s p q id = Err AssertionFailed.
Proof. intros Hp. unfold add_order. by rewrite (price_to_index_invalid _ Hp). Qed.

Lemma match_loop_zero crosses upd fuel s p id ts :
  match_loop crosses upd (S fuel) s p 0 id ts = Ok (s, 0, ts).
Proof. done. Qed.

(** X9. On a reachable book, with a fuel that covers the arena,
    [submit_order] fails in one way only: the assertion of [price_to_index],
    for a price outside the ladder, once matching has left a remainder. It
    never reads outside the arena or the ladder and its loops end; with a
    price inside the ladder it always returns. *)
Theorem submit_order_fails_only_on_late_assert fuel b p q id is_bid ts0 e :
  reachable b → is_size_t q → (FUEL ≤ fuel)%nat →
  (price_in_range p → ∃ b' ts, submit_order fuel b p q id is_bid ts0 = Ok (b', ts)) ∧
  (submit_order fuel b p q id is_bid ts0 = Err e ↔
     e = AssertionFailed ∧ ¬ price_in_range p ∧
     ∃ opp' rem ts, match_opposite fuel is_bid b p q id [] = Ok (opp', rem, ts) ∧ 0 < rem).
Proof.
  intros Hb Hq Hfuel. apply reachable_wf in Hb as Hwf.
  assert (price_in_range p → ∃ b' ts, submit_order fuel b p q id is_bid ts0 = Ok (b', ts))
    as Hret by (intros Hp; by apply submit_order_returns).
  split; [done|].
  destruct (book_wf_sides is_bid b Hwf) as (_ & _ & Hopp & Hoppd).
  destruct (match_loop_returns (crossing is_bid) _ p q id [] fuel Hopp Hq Hfuel)
    as ([[opp' rem] ts] & Hm).
  rewrite Hoppd, <-match_opposite_eq in Hm.
  destruct (decide (q = 0)) as [->|Hq0].
  { split; [done|]. intros (_ & _ & opp1 & rem1 & ts1 & Hm1 & Hrem1).
    rewrite match_opposite_eq in Hm1. destruct fuel; [done|].
    rewrite match_loop_zero in Hm1. injection Hm1 as _ <- _. lia. }
  rewrite submit_order_unfold, Hm by done. cbn [bind].
  destruct (Z.ltb_spec 0 rem) as [Hrem|Hrem].
  - destruct (decide (price_in_range p)) as [Hp|Hp].
    + destruct (Hret Hp) as (b' & ts' & Hok).
      rewrite submit_order_unfold, Hm in Hok by done. cbn [bind] in Hok.
      destruct (Z.ltb_spec 0 rem); [|lia]. rewrite Hok.
      split; [done|]. by intros (_ & ? & _).
    + rewrite (add_order_invalid _ _ _ _ Hp). cbn [bind]. split.
      * intros [= <-]. split; [done|]. split; [done|]. by exists opp', rem, ts.
      * by intros (-> & _).
  - split; [done|]. intros (_ & _ & opp1 & rem1 & ts1 & [= _ <- _] & Hrem1). lia.
Qed.

Lemma late_assert_witness :
  (price_in_range 1300 →
   ∃ b' ts, submit_order FUEL (book_of [(900, 5, 0, false)]) 1300 10 1 true []
            = Ok (b', ts)) ∧
  (submit_order FUEL (book_of [(900, 5, 0, false)]) 1300 10 1 true []
   = Err AssertionFailed ↔
     AssertionFailed = AssertionFailed ∧ ¬ price_in_range 1300 ∧
     ∃ opp' rem ts,
       match_opposite FUEL true (book_of [(900, 5, 0, false)]) 1300 10 1 []
       = Ok (opp', rem, ts) ∧ 0 < rem).
Proof.
  refine (submit_order_fails_only_on_late_assert FUEL (book_of [(900, 5, 0, false)])
            1300 10 1 true [] AssertionFailed _ _ _).
  - apply book_of_reachable; vm_compute; reflexivity.
  - unfold is_size_t, SIZE_MOD. lia.
  - lia.
Defined.

(** ** Passive orders *)

(** X10. A submission that returns while the best level of the opposite
    side is missing or does not cross the incoming price trades nothing and
    leaves the opposite side as it was. *)
Theorem passive_order_trades_nothing fuel b p q id is_bid ts0 b' ts :
  submit_order fuel b p q id is_bid ts0 = Ok (b', ts) →
  nothing_crosses is_bid b p →
  ts = [] ∧ opposite_side is_bid b' = opposite_side is_bid b.
Proof.
  intros Hrun Hpassive.
  destruct (decide (q = 0)) as [->|Hq0]; [by injection Hrun as <- <-|].
  rewrite submit_order_unfold in Hrun by done.
  apply bind_Ok in Hrun as ([[opp' rem] ts1] & Hm & Hrun).
  assert (opp' = opposite_side is_bid b ∧ ts1 = []) as [-> ->].
  { rewrite match_opposite_eq in Hm. destruct fuel as [|fuel]; [done|].
    cbn [match_loop] in Hm.
    destruct (negb (0 <? q)); [by injection Hm as <- _ <-|].
    destruct Hpassive as [Hnone|(level & Hlv & Hcross)].
    - rewrite Hnone, Nat.eqb_refl in Hm. by injection Hm as <- _ <-.
    - destruct (_ =? _)%nat; [by injection Hm as <- _ <-|].
      unfold deref in Hm. rewrite Hlv in Hm. cbn [bind] in Hm.
      rewrite Hcross in Hm. cbn [negb] in Hm. by injection Hm as <- _ <-. }
  cbn beta iota in Hrun. destruct (0 <? rem).
  - apply bind_Ok in Hrun as ([own' r] & _ & Hrun). injection Hrun as <- <-.
    by rewrite opposite_side_with_sides.
  - injection Hrun as <- <-. by rewrite opposite_side_with_sides.
Qed.

Lemma passive_order_witness :
  @nil Trade = [] ∧
  opposite_side true (book_of (two_sided_orders ++ [(940, 3, 2, true)]))
  = opposite_side true (book_of two_sided_orders).
Proof.
  refine (passive_order_trades_nothing FUEL (book_of two_sided_orders) 940 3 2 true []
            (book_of (two_sided_orders ++ [(940, 3, 2, true)])) [] _ _).
  - vm_compute. reflexivity.
  - right. eexists. split; vm_compute; reflexivity.
Defined.

(** ** Full and partial fills *)

Lemma drop_cons_elem {A} (l : list A) k x rest :
  drop k l = x :: rest → x ∈ l ∧ rest = drop (S k) l.
Proof.
  intros Hd. split.
  - apply (subseteq_drop k l). rewrite Hd. by left.
  - revert l Hd. induction k as [|k IH]; intros [|y l] Hd; try done.
    + by injection Hd as _ <-.
    + by apply IH.
Qed.

Lemma match_loop_full_fills crosses s p q id fuel s' q' ts' :
  side_wf s → is_size_t q →
  match_loop crosses (rescan (is_bid_ s)) fuel s p q id [] = Ok (s', q', ts') →
  ∀ i t, ts' !! i = Some t → (S i < length ts')%nat → full_fill s t.
Proof.
  intros Hwf Hq Hrun.
  pose (P := λ (s1 : OrderBookSide) (q1 : Z) (ts1 : list Trade),
    ((∀ i, ∃ k, level_queue s1 i = drop k (level_queue s i)) ∧ Forall (full_fill s) ts1)
    ∨ (q1 = 0 ∧ ∃ front t, ts1 = front ++ [t] ∧ Forall (full_fill s) front)).
  assert (∀ li, (li < NUM_LEVELS)%nat → crosses (level_price_of li) p = true →
                step_ok (is_bid_ s) id P li) as Hstep.
  { intros li Hli _ s1 q1 ts1 level m s2 q2 ts2 Hwf1 Hdir1 Hbest1 Hq1 Hlv Hfirst
           HP Hfill.
    destruct HP as [[Hsuffix Hfull]|[? _]]; [|lia].
    destruct (fill_head_queues _ _ _ _ _ _ _ _ _ _ _ Hwf1 Hdir1 Hbest1 Hq1 Hlv Hfirst Hfill)
      as (maker & rest & Hqueue & _ & -> & -> & Hothers & Hli' & _).
    destruct (Hsuffix li) as [k Hk]. rewrite Hqueue in Hk. symmetry in Hk.
    apply drop_cons_elem in Hk as [Hin Hrest].
    destruct (decide (quantity_ maker ≤ q1)) as [Hle|Hgt].
    - left. split.
      + intros i. destruct (decide (i = li)) as [->|Hne].
        * exists (S k). by rewrite Hli'.
        * rewrite (Hothers i Hne). apply Hsuffix.
      + apply Forall_app. split; [done|]. apply Forall_singleton.
        exists li, maker. cbn [maker_order_id price quantity].
        split_and!; [done..|lia].
    - right. split; [lia|]. by eexists _, _. }
  assert (P s q []) as Hinit.
  { left. split; [|constructor]. intros i. by exists 0%nat. }
  destruct (match_loop_rule crosses (is_bid_ s) id p P Hstep _ _ _ _ _ _ _
              Hwf eq_refl Hq Hinit Hrun) as (HP & _).
  intros i t Hi Hlen. destruct HP as [[_ Hfull]|(_ & front & lst & -> & Hfull)].
  - rewrite Forall_forall in Hfull. apply Hfull. by eapply list_elem_of_lookup_2.
  - rewrite length_app in Hlen. cbn [length] in Hlen.
    rewrite lookup_app_l in Hi by lia.
    rewrite Forall_forall in Hfull. apply Hfull. by eapply list_elem_of_lookup_2.
Qed.

(** X11. Among the trades of a returning submission on a reachable book
    every one but the last takes the whole quantity of an order that rested
    on the opposite side when the call started: only the last trade can
    leave its maker in the book. *)
Theorem only_last_trade_is_partial fuel b p q id is_bid ts0 b' ts :
  reachable b → is_size_t q →
  submit_order fuel b p q id is_bid ts0 = Ok (b', ts) →
  ∀ i t, ts !! i = Some t → (S i < length ts)%nat →
         full_fill (opposite_side is_bid b) t.
Proof.
  intros Hb Hq Hrun. apply reachable_wf in Hb as Hwf.
  destruct (decide (q = 0)) as [->|Hq0].
  { injection Hrun as <- <-. intros i t Hi. by rewrite lookup_nil in Hi. }
  destruct (submit_order_inv _ _ _ _ _ _ _ _ _ Hwf Hq Hq0 Hrun)
    as (opp' & rem & own' & Hm & _).
  destruct (book_wf_sides is_bid b Hwf) as (_ & _ & Hopp & Hoppd).
  rewrite match_opposite_eq, <-Hoppd in Hm.
  by eapply match_loop_full_fills.
Qed.

Lemma full_fill_witness :
  full_fill (opposite_side false (book_of (take 2 scenario_orders))) (mkTrade 2 1 901 10).
Proof.
  refine (only_last_trade_is_partial FUEL (book_of (take 2 scenario_orders))
            900 15 2 false [] (book_of scenario_orders)
            [mkTrade 2 1 901 10; mkTrade 2 0 900 5] _ _ _
            0%nat (mkTrade 2 1 901 10) _ _).
  - apply book_of_reachable; vm_compute; reflexivity.
  - unfold is_size_t, SIZE_MOD. lia.
  - vm_compute. reflexivity.
  - reflexivity.
  - simpl. lia.
Defined.

(** ** The free list *)

(** X12. The free list of an arena is a stack. Over a free list [fl] without
    repetition, [allocate] hands out the first slot of [fl] (or [nullptr]
    when [fl] is empty), with its link cleared, and leaves the rest of [fl];
    [deallocate] of a slot outside [fl] puts it in front of [fl], so that the
    next [allocate] hands the same slot out again. *)
Theorem free_list_is_a_stack p fl :
  chain (pool_ p) (next_free_ p) fl → NoDup fl →
  (∃ p', allocate p = Ok (p', head fl) ∧
         chain (pool_ p') (next_free_ p') (tail fl) ∧
         ∀ h, head fl = Some h → ∃ o, pool_ p' !! h = Some o ∧ next_ o = None) ∧
  (∀ h, (h < length (pool_ p))%nat → h ∉ fl →
        ∃ p1 p2, deallocate p h = Ok p1 ∧
                 chain (pool_ p1) (next_free_ p1) (h :: fl) ∧
                 allocate p1 = Ok (p2, Some h) ∧
                 chain (pool_ p2) (next_free_ p2) fl).
Proof.
  intros Hch Hnd. split.
  - unfold allocate. destruct fl as [|h fl'].
    + apply chain_nil_inv in Hch. rewrite Hch. exists p. split; [done|].
      rewrite Hch. split; [constructor|done].
    + apply chain_cons_inv in Hch as (Hnf & o & Ho & Hch). rewrite Hnf.
      unfold deref. rewrite Ho. cbn [bind]. eexists. split; [done|].
      cbn [pool_ next_free_ tail head]. apply NoDup_cons in Hnd as [Hh _]. split.
      * by apply chain_insert_notin.
      * intros h' [= <-]. exists (set_next o None). split; [|done].
        apply list_lookup_insert_eq. by eapply lookup_lt_Some.
  - intros h Hh Hnotin.
    destruct (lookup_lt_is_Some_2 _ _ Hh) as [o Ho].
    unfold deallocate, allocate, deref. rewrite Ho. cbn [bind].
    eexists _, _. split; [done|]. cbn [pool_ next_free_].
    rewrite list_lookup_insert_eq by done. cbn [bind next_ set_next].
    split_and!; [|done|].
    + econstructor; [by apply list_lookup_insert_eq|].
      cbn [next_ set_next]. by apply chain_insert_notin.
    + rewrite list_insert_insert_eq. by apply chain_insert_notin.
Qed.

Lemma free_list_witness :
  (∃ p', allocate OrderPool_init = Ok (p', head (seq 0 MAX_ORDERS)) ∧
         chain (pool_ p') (next_free_ p') (tail (seq 0 MAX_ORDERS)) ∧
         ∀ h, head (seq 0 MAX_ORDERS) = Some h →
              ∃ o, pool_ p' !! h = Some o ∧ next_ o = None) ∧
  (∀ h, (h < length (pool_ OrderPool_init))%nat → h ∉ seq 0 MAX_ORDERS →
        ∃ p1 p2, deallocate OrderPool_init h = Ok p1 ∧
                 chain (pool_ p1) (next_free_ p1) (h :: seq 0 MAX_ORDERS) ∧
                 allocate p1 = Ok (p2, Some h) ∧
                 chain (pool_ p2) (next_free_ p2) (seq 0 MAX_ORDERS)).
Proof.
  refine (free_list_is_a_stack OrderPool_init (seq 0 MAX_ORDERS) _ _).
  - apply (inv_free _ _ _ (side_inv_init true)).
  - apply NoDup_seq.
Defined.

(** ** Prices and indices *)

(** X13. [price_to_index] is the inverse of the price of a level: it returns
    the index [i] for a price exactly when [i] is a level of the ladder whose
    price is that price; for every other price it fails its assertion. *)
Theorem price_to_index_inverts_level_price p i :
  (price_to_index p = Ok i ↔ (i < NUM_LEVELS)%nat ∧ level_price_of i = p) ∧
  (price_to_index p = Err AssertionFailed ↔ ¬ price_in_range p).
Proof.
  destruct (decide (price_in_range p)) as [Hp|Hp].
  - destruct (price_to_index_valid p Hp) as (Hidx & Hlt & Hprice).
    rewrite Hidx. split; split.
    + by intros [= <-].
    + intros [Hi <-]. f_equal. unfold level_price_of, PRICE_MIN, TICK_SIZE. lia.
    + done.
    + done.
  - rewrite (price_to_index_invalid p Hp). split; split; [done| |done..].
    intros [Hi <-]. exfalso. apply Hp.
    assert (NUM_LEVELS = 401%nat) as HN by reflexivity.
    unfold price_in_range, level_price_of, PRICE_MIN, PRICE_MAX, TICK_SIZE. lia.
Qed.

(** ** The rescan *)

(** X14. After the best level [c] of a side is depleted, the rescan
    ([update_best_bid_after_empty] downwards, [update_best_ask_after_empty]
    upwards) changes the cursor only, and sets it to the nearest level past
    [c] with a positive aggregate, or to the sentinel [NUM_LEVELS] when
    every level past [c] has a zero aggregate. *)
Theorem rescan_finds_nearest_quoted_level c s :
  length (levels_ s) = NUM_LEVELS → (c < NUM_LEVELS)%nat →
  (∃ c', update_best_bid_after_empty c s = Ok (set_best s c') ∧
     ((c' = NUM_LEVELS ∧
       ∀ k level, (k < c)%nat → levels_ s !! k = Some level → total_quantity_ level ≤ 0)
      ∨ ((c' < c)%nat ∧
         (∃ level, levels_ s !! c' = Some level ∧ 0 < total_quantity_ level) ∧
         ∀ k level, (c' < k < c)%nat → levels_ s !! k = Some level →
                    total_quantity_ level ≤ 0))) ∧
  (∃ c', update_best_ask_after_empty c s = Ok (set_best s c') ∧
     ((c' = NUM_LEVELS ∧
       ∀ k level, (c < k)%nat → levels_ s !! k = Some level → total_quantity_ level ≤ 0)
      ∨ ((c < c' < NUM_LEVELS)%nat ∧
         (∃ level, levels_ s !! c' = Some level ∧ 0 < total_quantity_ level) ∧
         ∀ k level, (c < k < c')%nat → levels_ s !! k = Some level →
                    total_quantity_ level ≤ 0))).
Proof.
  intros Hlen Hc. split.
  - destruct (rescan_spec true c s Hlen Hc) as (c' & Hrun & Hc').
    exists c'. split; [done|]. unfold better in Hc'.
    destruct Hc' as [[-> Hz]|(Hlt & Hb & Hlv & Hz)].
    + left. split; [done|]. intros k level Hk. by apply Hz.
    + right. split; [done|]. split; [done|]. intros k level [Hk1 Hk2]. by apply Hz.
  - destruct (rescan_spec false c s Hlen Hc) as (c' & Hrun & Hc').
    exists c'. split; [done|]. unfold better in Hc'.
    destruct Hc' as [[-> Hz]|(Hlt & Hb & Hlv & Hz)].
    + left. split; [done|]. intros k level Hk. by apply Hz.
    + right. split; [done|]. split; [done|]. intros k level [Hk1 Hk2]. by apply Hz.
Qed.

Lemma rescan_witness :
  (∃ c', update_best_bid_after_empty 101 (bids (book_of (take 2 scenario_orders)))
         = Ok (set_best (bids (book_of (take 2 scenario_orders))) c') ∧
     ((c' = NUM_LEVELS ∧
       ∀ k level, (k < 101)%nat →
                  levels_ (bids (book_of (take 2 scenario_orders))) !! k = Some level →
                  total_quantity_ level ≤ 0)
      ∨ ((c' < 101)%nat ∧
         (∃ level, levels_ (bids (book_of (take 2 scenario_orders))) !! c' = Some level ∧
                   0 < total_quantity_ level) ∧
         ∀ k level, (c' < k < 101)%nat →
                    levels_ (bids (book_of (take 2 scenario_orders))) !! k = Some level →
                    total_quantity_ level ≤ 0))) ∧
  (∃ c', update_best_ask_after_empty 101 (bids (book_of (take 2 scenario_orders)))
         = Ok (set_best (bids (book_of (take 2 scenario_orders))) c') ∧
     ((c' = NUM_LEVELS ∧
       ∀ k level, (101 < k)%nat →
                  levels_ (bids (book_of (take 2 scenario_orders))) !! k = Some level →
                  total_quantity_ level ≤ 0)
      ∨ ((101 < c' < NUM_LEVELS)%nat ∧
         (∃ level, levels_ (bids (book_of (take 2 scenario_orders))) !! c' = Some level ∧
                   0 < total_quantity_ level) ∧
         ∀ k level, (101 < k < c')%nat →
                    levels_ (bids (book_of (take 2 scenario_orders))) !! k = Some level →
                    total_quantity_ level ≤ 0))).
Proof.
  refine (rescan_finds_nearest_quoted_level 101
            (bids (book_of (take 2 scenario_orders))) _ _).
  - vm_compute. reflexivity.
  - apply Nat.ltb_lt. vm_compute. reflexivity.
Defined.

(** ** Printing *)

Lemma print_orders_chain pool h l fuel :
  chain pool h l → (length l ≤ fuel)%nat →
  print_orders fuel pool h = Ok (order_line <$> orders_at pool l).
Proof.
  intros Hc. revert fuel. induction Hc as [|h o l Ho _ IH]; intros fuel Hfuel.
  - by destruct fuel.
  - destruct fuel as [|fuel]; cbn [length] in Hfuel; [lia|].
    cbn [print_orders]. unfold deref. rewrite Ho. cbn [bind].
    rewrite IH by lia. cbn [bind]. by rewrite (orders_at_cons _ _ _ _ Ho).
Qed.

Lemma increasing_prices_cons l lines :
  Forall (λ l' : Z * list (Z * Z), l.1 < l'.1) lines → increasing_prices lines →
  increasing_prices (l :: lines).
Proof.
  intros Hall Hinc [|j1] [|j2] l1 l2 Hj Hl1 Hl2; try lia.
  - injection Hl1 as <-. rewrite Forall_forall in Hall. apply Hall.
    by eapply list_elem_of_lookup_2.
  - apply (Hinc j1 j2); [lia|done..].
Qed.

Lemma print_levels_spec fuel s i n :
  side_wf s → (MAX_ORDERS ≤ fuel)%nat → (i + n ≤ NUM_LEVELS)%nat →
  ∃ lines, print_levels fuel s i n = Ok lines ∧
    (∀ line, line ∈ lines ↔
       ∃ j level, (i ≤ j < i + n)%nat ∧ levels_ s !! j = Some level ∧
                  total_quantity_ level ≠ 0 ∧ level_queue s j ≠ [] ∧
                  line = (level_price_of j, order_line <$> level_queue s j)) ∧
    increasing_prices lines.
Proof.
  intros Hwf Hfuel. revert i. induction n as [|n IH]; intros i Hi.
  { exists []. split; [done|]. split; [|by intros j1 j2 l1 l2 _ Hl1]. intros line. split.
    - intros Hin. by apply elem_of_nil in Hin.
    - intros (j & _ & ? & _). lia. }
  destruct (IH (S i)) as (rest & Hrest & Hmem & Hsorted); [lia|].
  destruct (lookup_lt_is_Some_2 (levels_ s) i) as [level Hlv].
  { rewrite (side_wf_levels_length _ Hwf). lia. }
  cbn [print_levels]. unfold deref. rewrite Hlv. cbn [bind].
  destruct (aggregate_wrapped_wf s i level Hwf Hlv) as [(_ & Hempty & Hzero) _].
  destruct (Z.eqb_spec (total_quantity_ level) 0) as [Hz|Hnz].
  - exists rest. split; [done|]. split; [|done]. intros line. rewrite Hmem. split.
    + intros (j & lv & Hj & Hrest'). exists j, lv. split; [lia|done].
    + intros (j & lv & Hj & Hlv' & Hne & Hrest'). exists j, lv.
      split; [|done]. destruct (decide (j = i)) as [->|]; [|lia].
      rewrite Hlv in Hlv'. by injection Hlv' as <-.
  - assert (level_queue s i ≠ []) as Hqueue.
    { intros Hnil. apply Hnz, Hzero, Hempty, Hnil. }
    assert (print_orders fuel (pool_ (side_pool_ s)) (first_ level)
            = Ok (order_line <$> level_queue s i)) as ->.
    { pose proof Hwf as (qs & fl & Hinv).
      destruct (lookup_lt_is_Some_2 qs i) as [q Hq].
      { rewrite (inv_queues _ _ _ Hinv). lia. }
      rewrite (level_queue_ghost _ _ _ _ _ Hinv Hq).
      apply print_orders_chain.
      - apply (lv_chain _ _ _ _ (inv_level _ _ _ Hinv _ _ _ Hlv Hq)).
      - etrans; [|exact Hfuel]. by eapply queue_length, Hq; apply (inv_perm _ _ _ Hinv). }
    cbn [bind]. rewrite Hrest. cbn [bind]. eexists. split; [done|].
    rewrite (side_wf_level_price _ _ _ Hwf Hlv). split.
    + intros line. rewrite elem_of_cons, Hmem. split.
      * intros [->|(j & lv & Hj & Hrest')].
        -- exists i, level. split; [lia|done].
        -- exists j, lv. split; [lia|done].
      * intros (j & lv & Hj & Hlv' & Hne & Hq' & ->).
        destruct (decide (j = i)) as [->|]; [by left|].
        right. exists j, lv. split; [lia|done].
    + apply increasing_prices_cons; [|done]. apply Forall_forall. intros line Hline.
      apply Hmem in Hline as (j & lv & Hj & _ & _ & _ & ->).
      cbn [fst]. unfold level_price_of, TICK_SIZE. lia.
Qed.

(** X15. On a reachable book [print_book] returns once the fuel covers the
    arena, and what it prints for each side lists the levels with a non-zero
    aggregate and no other: each with the price of the level and its whole
    queue, oldest order first, none with an empty queue, by increasing
    price. *)
Theorem print_book_lists_quoted_levels fuel b :
  reachable b → (MAX_ORDERS ≤ fuel)%nat →
  ∃ bid_lines ask_lines,
    print_book fuel b = Ok (bid_lines, ask_lines) ∧
    lists_levels (bids b) bid_lines ∧ lists_levels (asks b) ask_lines.
Proof.
  intros Hb Hfuel. apply reachable_wf in Hb as (Hbids & _ & Hasks & _).
  destruct (print_levels_spec fuel (bids b) 0 NUM_LEVELS Hbids Hfuel)
    as (bl & Hbl & Hbm & Hbs); [lia|].
  destruct (print_levels_spec fuel (asks b) 0 NUM_LEVELS Hasks Hfuel)
    as (al & Hal & Ham & Has); [lia|].
  exists bl, al. unfold print_book, print_side. rewrite Hbl, Hal. split; [done|].
  split; (split; [|done]); intros line.
  - rewrite Hbm. split.
    + intros (j & lv & _ & H). by exists j, lv.
    + intros (j & lv & Hlv & H). exists j, lv. split; [|done].
      apply lookup_lt_Some in Hlv. rewrite (side_wf_levels_length _ Hbids) in Hlv. lia.
  - rewrite Ham. split.
    + intros (j & lv & _ & H). by exists j, lv.
    + intros (j & lv & Hlv & H). exists j, lv. split; [|done].
      apply lookup_lt_Some in Hlv. rewrite (side_wf_levels_length _ Hasks) in Hlv. lia.
Qed.

Lemma print_book_witness :
  ∃ bid_lines ask_lines,
    print_book MAX_ORDERS (book_of two_sided_orders) = Ok (bid_lines, ask_lines) ∧
    lists_levels (bids (book_of two_sided_orders)) bid_lines ∧
    lists_levels (asks (book_of two_sided_orders)) ask_lines.
Proof.
  refine (print_book_lists_quoted_levels MAX_ORDERS (book_of two_sided_orders) _ _).
  - apply book_of_reachable; vm_compute; reflexivity.
  - lia.
Defined.

(** ** Flows at prices of the ladder *)

(** X16. A flow of submissions at prices of the ladder, from the empty book,
    runs to its end: every [submit_order] of the flow returns, whatever the
    sides, quantities and identifiers (at most [Q] units each, for any [Q]),
    and the book it leaves is one reached by submissions of at most [Q]
    units. *)
Theorem in_range_flow_runs_to_its_end Q orders :
  forallb (flow_order Q) orders = true →
  ∃ b ts, run orders = Ok (b, ts) ∧ reachable_within Q b.
Proof. intros Hflow. by apply foldl_run_within; [apply within_init|]. Qed.

Lemma flow_witness :
  ∃ b ts, run scenario_orders = Ok (b, ts) ∧ reachable_within 20 b.
Proof.
  refine (in_range_flow_runs_to_its_end 20 scenario_orders _).
  vm_compute. reflexivity.
Defined.
